(** * Route-O-Matic: route construction, conflict detection and resolution

    A shallow embedding of the TypeScript sources

      - [lib/validators.ts]            (time strings, arrival status)
      - [lib/types.ts]                 (records and constants)
      - [lib/simulation/utils.ts]      (smart buffer, conflicts, reorderings)
      - [lib/simulation/scoring.ts]    (impact score)
      - [lib/simulation/reorderer.ts]  (reordering simulator)
      - [lib/simulation/scheduler.ts]  (conflict resolution orchestrator)
      - [lib/algorithm/validator.ts]   (route and schedule checks)
      - [lib/algorithm/optimizer.ts]   (route builder)

    followed by the properties established about them.

    Conventions of the embedding.
      - A JavaScript number that is always an integer is a [Z]; one that may
        also be [NaN] is a [num] ([option Z], [None] standing for [NaN]).
      - A JavaScript number that may be fractional (coordinates, factors,
        scores, distances) is an exact rational [Q], without the rounding
        error of IEEE doubles.  The impact score, whose hundredths depend on
        that rounding, is embedded a second time on doubles, in the module
        [Doubles].
      - Strings are [string]; [string | null] is [option string].
      - An [async] function is a computation in the monad [Promise], which
        threads the state of the outside world and may throw. *)

From Stdlib Require Import ZArith QArith Qround Qabs List String Ascii Bool Arith.
From Stdlib Require Import Lia Lqa Permutation Sorted Decimal DecimalString DecimalZ DecimalPos.
From Stdlib Require Floats Uint63.
Import ListNotations.

#[local] Open Scope string_scope.
#[local] Open Scope list_scope.
#[local] Open Scope Z_scope.

(* ================================================================== *)
(** ** JavaScript primitives used by the sources *)
(* ================================================================== *)

Module JS.

(** Integer-or-NaN numbers. *)
Definition num := option Z.
Definition NaN : num := None.

Definition nadd (a b : num) : num :=
  match a, b with Some x, Some y => Some (x + y) | _, _ => NaN end.
Definition nsub (a b : num) : num :=
  match a, b with Some x, Some y => Some (x - y) | _, _ => NaN end.
Definition nmul (a b : num) : num :=
  match a, b with Some x, Some y => Some (x * y) | _, _ => NaN end.
Definition nabs (a : num) : num := option_map Z.abs a.

(** Comparisons with [NaN] are false. *)
Definition nltb (a b : num) : bool :=
  match a, b with Some x, Some y => x <? y | _, _ => false end.
Definition nleb (a b : num) : bool :=
  match a, b with Some x, Some y => x <=? y | _, _ => false end.
Definition ngtb (a b : num) : bool := nltb b a.

(** [Math.floor(a / d)] and [a % d] on integers, for a positive [d]:
    floor division, and the remainder that takes the sign of [a]. *)
Definition nfloordiv (a : num) (d : Z) : num := option_map (fun x => x / d) a.
Definition nrem (a : num) (d : Z) : num := option_map (fun x => Z.rem x d) a.

(** [n.toString()] for an integer, and for an integer-or-NaN. *)
Definition toString (z : Z) : string := NilEmpty.string_of_int (Z.to_int z).
Definition num_toString (a : num) : string :=
  match a with Some z => toString z | None => "NaN" end.

(** [Number(s)].  Exact on the empty string and on decimal integer
    literals with an optional minus sign; every other string is taken to
    [NaN] (JavaScript also accepts white space, a plus sign, fractions,
    exponents and radix prefixes, none of which occurs in a time string). *)
Definition Number (s : string) : num :=
  if String.eqb s "-" then NaN
  else option_map Z.of_int (NilEmpty.int_of_string s).

(** [s.padStart(n, c)] for a one-character pad string. *)
Fixpoint replicate (n : nat) (c : ascii) : string :=
  match n with O => EmptyString | S k => String c (replicate k c) end.
Definition padStart (n : nat) (c : ascii) (s : string) : string :=
  replicate (n - String.length s) c ++ s.

(** [s.split(sep)] for a one-character separator. *)
Fixpoint split (sep : ascii) (s : string) : list string :=
  match s with
  | EmptyString => [EmptyString]
  | String c rest =>
      if Ascii.eqb c sep then EmptyString :: split sep rest
      else match split sep rest with
           | piece :: pieces => String c piece :: pieces
           | [] => [String c EmptyString]
           end
  end.

(** [pieces.join(sep)]. *)
Fixpoint join (sep : string) (pieces : list string) : string :=
  match pieces with
  | [] => EmptyString
  | [p] => p
  | p :: rest => p ++ sep ++ join sep rest
  end.

(** Rational comparisons and [Math] functions. *)
Definition Qltb (a b : Q) : bool := negb (Qle_bool b a).
Definition Math_max (a b : Q) : Q := if Qle_bool a b then b else a.
Definition Math_min (a b : Q) : Q := if Qle_bool a b then a else b.
(** [Math.round(x)] is [floor(x + 0.5)]. *)
Definition Math_round (x : Q) : Z := Qfloor (x + (1 # 2))%Q.

(** The quotient [a / b] of two numbers where the divisor may be zero:
    JavaScript answers an infinity, or [NaN] for [0 / 0]. *)
Inductive quotient := Finite (q : Q) | PlusInfinity | MinusInfinity | QuotientNaN.
Definition divide (a b : Q) : quotient :=
  if Qeq_bool b 0 then
    if Qeq_bool a 0 then QuotientNaN
    else if Qltb 0 a then PlusInfinity else MinusInfinity
  else Finite (a / b)%Q.
(** [x <= y] for a quotient [x] and a finite [y]. *)
Definition quotient_leb (x : quotient) (y : Q) : bool :=
  match x with
  | Finite q => Qle_bool q y
  | MinusInfinity => true
  | PlusInfinity | QuotientNaN => false
  end.

(** [Math.max(...gaps)] and [Math.min(...gaps)] for a non-empty array. *)
Definition Math_max_list (first : Q) (others : list Q) : Q :=
  fold_left Math_max others first.
Definition Math_min_list (first : Q) (others : list Q) : Q :=
  fold_left Math_min others first.

(** [arr.findIndex(p)], which answers [-1] when nothing is found. *)
Fixpoint findIndex_from {A} (p : A -> bool) (arr : list A) (i : Z) : Z :=
  match arr with
  | [] => -1
  | x :: rest => if p x then i else findIndex_from p rest (i + 1)
  end.
Definition findIndex {A} (p : A -> bool) (arr : list A) : Z :=
  findIndex_from p arr 0.

(** Truthiness of a number: zero is falsy. *)
Definition truthy (x : Q) : bool := negb (Qeq_bool x 0).

(** Truthiness of a [string | null]: [null] and the empty string are
    falsy.  [truthyStr o] is the string when [o] is truthy. *)
Definition truthyStr (o : option string) : option string :=
  match o with
  | Some s => if String.eqb s EmptyString then None else Some s
  | None => None
  end.
(** [o || d] for a [string | null]. *)
Definition orElse (o : option string) (d : string) : string :=
  match truthyStr o with Some s => s | None => d end.

(** [arr.splice(position, 0, x)] on a copy: insertion at an index. *)
Definition spliceIn {A} (position : nat) (x : A) (arr : list A) : list A :=
  firstn position arr ++ x :: skipn position arr.

(** [[...arr.slice(0, i), ...arr.slice(i + 1)]]. *)
Definition removeAt {A} (i : nat) (arr : list A) : list A :=
  firstn i arr ++ skipn (S i) arr.

(** [arr.sort(cmp)] for a comparator returning an integer-or-NaN.  The
    sort of JavaScript is stable, and a [NaN] answer counts as zero; for a
    consistent comparator the result is the unique stable sorted order,
    which this insertion sort computes (for an inconsistent comparator the
    order is implementation-defined, and still a permutation). *)
Section Sort.
Context {A : Type} (cmp : A -> A -> num).
Definition goes_before (x y : A) : bool :=
  match cmp x y with Some c => c <=? 0 | None => true end.
Fixpoint sort_insert (x : A) (l : list A) : list A :=
  match l with
  | [] => [x]
  | y :: l' => if goes_before x y then x :: l else y :: sort_insert x l'
  end.
Definition sort (l : list A) : list A := fold_right sort_insert [] l.
End Sort.

(** The same for a comparator returning a rational. *)
Section SortQ.
Context {A : Type} (cmp : A -> A -> Q).
Fixpoint sortQ_insert (x : A) (l : list A) : list A :=
  match l with
  | [] => [x]
  | y :: l' => if Qle_bool (cmp x y) 0 then x :: l else y :: sortQ_insert x l'
  end.
Definition sortQ (l : list A) : list A := fold_right sortQ_insert [] l.
End SortQ.

End JS.
Import JS.

(* ================================================================== *)
(** ** [lib/types.ts] *)
(* ================================================================== *)

Module Types.

Inductive Flexibility := flexible | inflexible.

Record Appointment := mkAppointment {
  id : string;
  appName : string;
  address : string;
  visitDurationMinutes : Z;
  startTime : option string;   (* HH:MM, or null if flexible *)
  date : string;
  flexibility : Flexibility;
  rowNumber : Z
}.

(** [interface GeocodedAppointment extends Appointment]. *)
Record GeocodedAppointment := mkGeocoded {
  appointmentOf : Appointment;
  latitude : Q;
  longitude : Q;
  formattedAddress : string
}.

(** [T extends Appointment]: the types that can be read as an
    appointment. *)
Class AppointmentLike (T : Type) := asAppointment : T -> Appointment.
#[export] Instance Appointment_like : AppointmentLike Appointment := fun a => a.
#[export] Instance Geocoded_like : AppointmentLike GeocodedAppointment :=
  appointmentOf.

Inductive ArrivalStatus := on_time | early | late.

Record VisitStop := mkVisitStop {
  appointment : GeocodedAppointment;
  order : Z;
  arrivalTime : string;
  travelTimeFromPrevious : Z;     (* minutes *)
  distanceFromPrevious : Q;       (* meters *)
  status : ArrivalStatus;
  minutesFromPreferred : num
}.

Record OptimizedRoute := mkOptimizedRoute {
  stops : list VisitStop;
  totalDistance : Q;
  totalDriveTime : Z;
  totalVisitTime : Z;
  routeDate : string;
  success : bool;
  error : option string;
  warnings : option (list string)
}.

Record LatLng := mkLatLng { lat : Q; lng : Q }.

Record DistanceResult := mkDistanceResult {
  distance : Q;     (* meters *)
  duration : Z;     (* minutes *)
  from : LatLng;
  to : LatLng
}.

Definition GRACE_PERIOD_MINUTES : Z := 15.

Record BufferConfiguration := mkBufferConfiguration {
  baseBufferMinutes : Q;
  minimumBufferMinutes : Q;
  maximumBufferMinutes : Q;
  flexibleFactor : Q;
  locationFactor : Q;
  durationFactor : Q
}.

Definition DEFAULT_BUFFER_CONFIG : BufferConfiguration :=
  {| baseBufferMinutes := 45;
     minimumBufferMinutes := 15;
     maximumBufferMinutes := 120;
     flexibleFactor := 8 # 10;
     locationFactor := 1;
     durationFactor := 1 |}.

Inductive Severity := critical | major | minor.

Record SchedulingConflict (T : Type) := mkSchedulingConflict {
  appointments : T * T;
  gapMinutes : Z;
  requiredMinutes : Z;
  severity : Severity
}.
Arguments mkSchedulingConflict {T}.
Arguments appointments {T}.
Arguments gapMinutes {T}.
Arguments requiredMinutes {T}.
Arguments severity {T}.

Inductive ChangeType := reorder | reschedule | buffer_adjust | duration_adjust.

Record ScheduleChange := mkScheduleChange {
  type : ChangeType;
  appointmentId : string;
  appointmentName : string;
  originalTime : string;
  proposedTime : string;
  reason : string;
  impactMinutes : Q
}.

Record SimulationStats := mkSimulationStats {
  totalScenariosTested : Z;
  feasibleScenarios : Z;
  bestScenarioGapMinutes : Q;
  worstScenarioGapMinutes : Q;
  averageGapMinutes : Q;
  reorderingsTested : Z;
  buffersTested : Z
}.

Inductive Feasibility := feasible | infeasible.

(** [statistics] is optional here because the scorer guards against its
    absence ([!solution.statistics]). *)
Record Solution := mkSolution {
  changes : list ScheduleChange;
  successRate : Q;
  impactScore : Q;
  feasibility : Feasibility;
  reasoning : list string;
  statistics : option SimulationStats
}.

Record ConflictResolution := mkConflictResolution {
  conflict : SchedulingConflict GeocodedAppointment;
  solutions : list Solution;
  recommendedSolution : option Solution
}.

End Types.
Import Types.

(* ================================================================== *)
(** ** [lib/validators.ts] *)
(* ================================================================== *)

(** The great-circle distance in kilometres.  The source computes it with
    [Math.sin], [Math.cos], [Math.atan2] and [Math.sqrt]; it is taken here
    as a parameter of the development. *)
Class Geodesy := haversineDistance : Q -> Q -> Q -> Q -> Q.

Module Validators.

Definition timeToMinutes (time : string) : num :=
  match map Number (split ":" time) with
  | hours :: minutes :: _ => nadd (nmul hours (Some 60)) minutes
  | _ => NaN   (* [minutes] is [undefined] *)
  end.

Definition minutesToTime (minutes : num) : string :=
  let hours := nfloordiv minutes 60 in
  let mins := nrem minutes 60 in
  padStart 2 "0" (num_toString hours) ++ ":" ++ padStart 2 "0" (num_toString mins).

Definition timeDifference (time1 time2 : string) : num :=
  let diff := nabs (nsub (timeToMinutes time1) (timeToMinutes time2)) in
  diff.

Definition isWithinGracePeriod (actualTime targetTime : string) (gracePeriod : Z) : bool :=
  let diff := timeDifference actualTime targetTime in
  nleb diff (Some gracePeriod).

Definition getArrivalStatus (arrivalTime preferredTime : string) (gracePeriod : Z)
  : ArrivalStatus :=
  let diffMinutes := timeDifference arrivalTime preferredTime in
  if nleb diffMinutes (Some gracePeriod) then on_time
  else
    let actual := timeToMinutes arrivalTime in
    let preferred := timeToMinutes preferredTime in
    if nltb actual preferred then early else late.

Definition isInflexible {T} `{AppointmentLike T} (apt : T) : bool :=
  match flexibility (asAppointment apt) with inflexible => true | flexible => false end.

Definition isFlexible {T} `{AppointmentLike T} (apt : T) : bool :=
  match flexibility (asAppointment apt) with flexible => true | inflexible => false end.

End Validators.
Import Validators.

(* ================================================================== *)
(** ** [lib/simulation/utils.ts] *)
(* ================================================================== *)

Module SimUtils.

Section SmartBuffer.
Context {geo : Geodesy}.

(** Calculate the required buffer between two appointments. *)
Definition calculateSmartBuffer (apt1 apt2 : GeocodedAppointment)
    (config : BufferConfiguration) : Z :=
  let buffer := baseBufferMinutes config in
  (* Adjust for flexibility *)
  let buffer :=
    if negb (isInflexible apt1) && negb (isInflexible apt2)
    then (buffer * flexibleFactor config)%Q else buffer in
  (* Adjust for duration *)
  let avgDuration :=
    ((inject_Z (visitDurationMinutes (asAppointment apt1))
      + inject_Z (visitDurationMinutes (asAppointment apt2))) / 2)%Q in
  let buffer :=
    if Qltb 60 avgDuration then (buffer * (12 # 10))%Q
    else if Qltb avgDuration 30 then (buffer * (9 # 10))%Q
    else buffer in
  (* Adjust for location distance *)
  let buffer :=
    if truthy (latitude apt1) && truthy (longitude apt1)
       && truthy (latitude apt2) && truthy (longitude apt2)
    then
      let distance :=
        haversineDistance (latitude apt1) (longitude apt1)
                          (latitude apt2) (longitude apt2) in
      if Qltb 10 distance then (buffer + 15)%Q
      else if Qltb 50 distance then (buffer + 30)%Q
      else buffer
    else buffer in
  (* Ensure within bounds *)
  let buffer :=
    Math_max (minimumBufferMinutes config)
             (Math_min (maximumBufferMinutes config) buffer) in
  Math_round buffer.
End SmartBuffer.

Section Generic.
Context {T : Type} `{AppointmentLike T}.

(** Check if two appointments have a time conflict. *)
Definition detectConflict (apt1 apt2 : T) : option (SchedulingConflict T) :=
  (* Need both appointments to have start times *)
  match truthyStr (startTime (asAppointment apt1)),
        truthyStr (startTime (asAppointment apt2)) with
  | Some start1, Some start2 =>
      let time1 := timeToMinutes start1 in
      let time2 := timeToMinutes start2 in
      (* Order them chronologically *)
      let '(first, second, firstTime, secondTime) :=
        if nltb time1 time2 then (apt1, apt2, time1, time2)
        else (apt2, apt1, time2, time1) in
      let gapMinutes := nsub secondTime firstTime in
      let requiredMinutes := visitDurationMinutes (asAppointment first) in
      match gapMinutes with
      | Some gap =>
          if gap <? requiredMinutes then
            let severity :=
              if requiredMinutes - gap >? 30 then critical
              else if requiredMinutes - gap >? 15 then major
              else minor in
            Some (mkSchedulingConflict (first, second) gap requiredMinutes severity)
          else None
      | None => None   (* [NaN < requiredMinutes] is false *)
      end
  | _, _ => None
  end.

(** Get all unique pairs of appointments that could conflict. *)
Fixpoint getAppointmentPairs (appointments : list T) : list (T * T) :=
  match appointments with
  | [] => []
  | a :: rest => map (pair a) rest ++ getAppointmentPairs rest
  end.

(** Group appointments by date: a [Map] from date to the appointments of
    that date, iterated in insertion order. *)
Fixpoint groupPush (d : string) (apt : T) (byDate : list (string * list T))
  : list (string * list T) :=
  match byDate with
  | [] => [(d, [apt])]
  | (k, v) :: rest =>
      if String.eqb k d then (k, v ++ [apt]) :: rest
      else (k, v) :: groupPush d apt rest
  end.
Definition groupAppointmentsByDate (appointments : list T)
  : list (string * list T) :=
  fold_left (fun byDate apt => groupPush (date (asAppointment apt)) apt byDate)
            appointments [].

(** Check if a schedule is feasible: the list of conflicts. *)
Definition findAllConflicts (appointments : list T) : list (SchedulingConflict T) :=
  flat_map
    (fun '(apt1, apt2) =>
       (* Only check same-date appointments *)
       if negb (String.eqb (date (asAppointment apt1)) (date (asAppointment apt2)))
       then []
       else match detectConflict apt1 apt2 with
            | Some conflict => [conflict]
            | None => []
            end)
    (getAppointmentPairs appointments).

(** Sort appointments by start time. *)
Definition sortByStartTime (appointments : list T) : list T :=
  sort (fun a b =>
          match truthyStr (startTime (asAppointment a)) with
          | None => Some 1
          | Some sa =>
              match truthyStr (startTime (asAppointment b)) with
              | None => Some (-1)
              | Some sb => nsub (timeToMinutes sa) (timeToMinutes sb)
              end
          end)
       appointments.

(** Generate all permutations of an array.  The source recurses on an
    array one element shorter; [fuel] bounds the depth, and [permute]
    starts with as much fuel as the array is long. *)
Fixpoint permute_fuel (fuel : nat) (arr : list T) : list (list T) :=
  match fuel with
  | O => [arr]
  | S fuel' =>
      if (List.length arr <=? 1)%nat then [arr]
      else
        flat_map
          (fun i =>
             match nth_error arr i with
             | Some current =>
                 let remaining := removeAt i arr in
                 let perms := permute_fuel fuel' remaining in
                 map (cons current) perms
             | None => []
             end)
          (seq 0 (List.length arr))
  end.
Definition permute (arr : list T) : list (list T) :=
  permute_fuel (List.length arr) arr.

(** The [forEach] that interleaves one permutation of the flexible
    appointments with the inflexible ones.  [flexiblePerm[flexIndex]]
    would be [undefined] out of range; the index stays in range because
    a permutation is as long as the list of flexible appointments, and
    the default [orig] is never used ([interleave_from_permutation]). *)
Fixpoint interleave (appointments flexiblePerm : list T) (flexIndex : nat)
  : list T :=
  match appointments with
  | [] => []
  | orig :: rest =>
      if isInflexible orig
      then orig :: interleave rest flexiblePerm flexIndex
      else nth flexIndex flexiblePerm orig
             :: interleave rest flexiblePerm (S flexIndex)
  end.

(** Generate all valid permutations of appointments.  (The source also sorts
    the inflexible appointments by start time, and does not use the
    result.) *)
Definition generateReorderings (appointments : list T) : list (list T) :=
  let inflexible := filter isInflexible appointments in
  let flexible := filter (fun apt => negb (isInflexible apt)) appointments in
  (* If all are inflexible or all are flexible, return original *)
  if (List.length inflexible =? 0)%nat || (List.length flexible =? 0)%nat
  then [appointments]
  else
    let permutations := permute flexible in
    map (fun flexiblePerm => interleave appointments flexiblePerm 0) permutations.

End Generic.

End SimUtils.
Import SimUtils.

(* ================================================================== *)
(** ** [lib/simulation/scoring.ts] *)
(* ================================================================== *)

Module Scoring.

(** Calculate disruption score based on how much we changed the original
    schedule. *)
Definition calculateDisruptionScore (solution : Solution)
    (originalAppointments : option (list Appointment)) : Q :=
  match changes solution with
  | [] => 0%Q   (* No changes = no disruption *)
  | _ =>
      let '(totalImpactMinutes, maxPossibleImpact) :=
        fold_left
          (fun '(total, maxPossible) change =>
             ((total + impactMinutes change)%Q, (maxPossible + 480)%Q))
          (changes solution) (0%Q, 0%Q) in
      (* Normalize to 0-100 scale *)
      let disruptionScore :=
        ((totalImpactMinutes / Math_max maxPossibleImpact 1) * 100)%Q in
      Math_min 100 (inject_Z (Math_round (disruptionScore * 10)) / 10)%Q
  end.

(** Calculate buffer deviation score. *)
Definition calculateBufferDeviationScore (solution : Solution)
    (config : option BufferConfiguration) : Q :=
  let config := match config with Some c => c | None => DEFAULT_BUFFER_CONFIG end in
  match statistics solution with
  | None => 0%Q
  | Some stats =>
      if Qeq_bool (bestScenarioGapMinutes stats) 0 then 0%Q
      else
        let bestGap := bestScenarioGapMinutes stats in
        let targetGap := baseBufferMinutes config in
        let deviationRatio := divide bestGap targetGap in
        if quotient_leb deviationRatio 1 then 0%Q
        else if quotient_leb deviationRatio (15 # 10) then 25%Q
        else if quotient_leb deviationRatio 2 then 60%Q
        else 100%Q
  end.

(** Score a solution based on multiple factors. *)
Definition calculateImpactScore (solution : Solution)
    (originalAppointments : option (list Appointment))
    (config : option BufferConfiguration) : Q :=
  let config := match config with Some c => c | None => DEFAULT_BUFFER_CONFIG end in
  let disruption := calculateDisruptionScore solution originalAppointments in
  let successPenalty := ((1 - successRate solution) * 100)%Q in
  let bufferDeviation := calculateBufferDeviationScore solution (Some config) in
  (* Weighted average *)
  let impactScore :=
    ((disruption * (4 # 10)) + (successPenalty * (3 # 10))
     + (bufferDeviation * (3 # 10)))%Q in
  (inject_Z (Math_round (impactScore * 100)) / 100)%Q.

(** Rank multiple solutions by impact score. *)
Definition rankSolutions (solutions : list Solution)
    (originalAppointments : option (list Appointment))
    (config : option BufferConfiguration) : list Solution :=
  map snd
    (sortQ (fun a b => (fst a - fst b)%Q)
       (map (fun solution =>
               (calculateImpactScore solution originalAppointments config, solution))
            solutions)).

(** Select the best solution from a list. *)
Definition selectBestSolution (solutions : list Solution)
    (originalAppointments : option (list Appointment))
    (config : option BufferConfiguration) : option Solution :=
  match solutions with
  | [] => None
  | _ =>
      let ranked := rankSolutions solutions originalAppointments config in
      nth_error ranked 0
  end.

End Scoring.
Import Scoring.

(* ================================================================== *)
(** ** [lib/simulation/reorderer.ts] *)
(* ================================================================== *)

Module Reorderer.

(** Create a solution object from a reordering attempt. *)
Definition createReorderingSolution
    (reordered original : list GeocodedAppointment)
    (conflicts : list (SchedulingConflict GeocodedAppointment))
    (scenariosTested : Z) (isFeasible : bool) : Solution :=
  let changes :=
    flat_map
      (fun '(index, apt) =>
         let origIndex :=
           findIndex (fun a => String.eqb (id (asAppointment a)) (id (asAppointment apt)))
                     original in
         if negb (origIndex =? index) then
           [ {| type := reorder;
                appointmentId := id (asAppointment apt);
                appointmentName := appName (asAppointment apt);
                originalTime := minutesToTime (Some (index * 30));
                proposedTime := minutesToTime (Some (index * 30));
                reason := "Reordered to resolve scheduling conflict";
                impactMinutes := inject_Z (Z.abs (index - origIndex) * 30) |} ]
         else [])
      (combine (map Z.of_nat (seq 0 (List.length reordered))) reordered) in
  {| changes := changes;
     successRate := 0;    (* Will be updated later *)
     impactScore := 0;
     feasibility := if isFeasible then feasible else infeasible;
     reasoning :=
       [ if isFeasible
         then ("Successfully reordered "
                ++ toString (Z.of_nat (List.length reordered))
                ++ " appointments with no conflicts")%string
         else ("Attempted reordering but "
                ++ toString (Z.of_nat (List.length conflicts))
                ++ " conflicts remain")%string ];
     statistics :=
       Some {| totalScenariosTested := scenariosTested;
               feasibleScenarios := if isFeasible then 1 else 0;
               bestScenarioGapMinutes := 0;
               worstScenarioGapMinutes := 0;
               averageGapMinutes := 0;
               reorderingsTested := 1;
               buffersTested := 0 |} |}.

(** [solutions.map((s) => s.statistics.X).filter((g) => g > 0)].  Every
    solution built by this file carries statistics. *)
Definition positiveGaps (field : SimulationStats -> Q) (solutions : list Solution)
  : list Q :=
  filter (fun g => Qltb 0 g)
    (flat_map (fun s => match statistics s with
                        | Some stats => [field stats]
                        | None => []
                        end) solutions).

Definition calculateBestGap (solutions : list Solution) : Q :=
  match positiveGaps bestScenarioGapMinutes solutions with
  | g :: gaps => Math_max_list g gaps
  | [] => 0%Q
  end.

Definition calculateWorstGap (solutions : list Solution) : Q :=
  match positiveGaps worstScenarioGapMinutes solutions with
  | g :: gaps => Math_min_list g gaps
  | [] => 0%Q
  end.

Definition calculateAverageGap (solutions : list Solution) : Q :=
  match positiveGaps averageGapMinutes solutions with
  | [] => 0%Q
  | gaps => (fold_left Qplus gaps 0 / inject_Z (Z.of_nat (List.length gaps)))%Q
  end.

(** The variables the simulation closes over. *)
Record Progress := mkProgress {
  solutionsSoFar : list Solution;
  scenariosTested : Z;
  feasibleScenariosSoFar : Z
}.

(** The inner [for] loop: test each reordering, up to max scenarios. *)
Fixpoint testReorderings (reorderings : list (list GeocodedAppointment))
    (dayAppointments : list GeocodedAppointment)
    (maxReorderingScenarios : Z) (p : Progress) : Progress :=
  match reorderings with
  | [] => p
  | reordered :: rest =>
      if scenariosTested p <? maxReorderingScenarios then
        (* Check for conflicts in this ordering *)
        let conflicts := findAllConflicts reordered in
        let tested := scenariosTested p + 1 in
        let isFeasible := (List.length conflicts =? 0)%nat in
        let feasibleCount :=
          if isFeasible then feasibleScenariosSoFar p + 1
          else feasibleScenariosSoFar p in
        let solution :=
          createReorderingSolution reordered dayAppointments conflicts tested isFeasible in
        testReorderings rest dayAppointments maxReorderingScenarios
          (mkProgress (solutionsSoFar p ++ [solution]) tested feasibleCount)
      else p
  end.

(** The body of [byDate.forEach]. *)
Definition reorderDay (maxReorderingScenarios : Z) (p : Progress)
    (entry : string * list GeocodedAppointment) : Progress :=
  let dayAppointments := snd entry in
  if (List.length dayAppointments <? 2)%nat then p
  else
    let flexibleCount :=
      List.length (filter (fun apt => negb (isInflexible apt)) dayAppointments) in
    if (flexibleCount =? 0)%nat then p
    else
      let reorderings := generateReorderings dayAppointments in
      testReorderings reorderings dayAppointments maxReorderingScenarios p.

(** Test different reorderings of appointments to resolve conflicts. *)
Definition simulateReordering (appointments : list GeocodedAppointment)
    (maxReorderingScenarios : Z) (config : BufferConfiguration) : list Solution :=
  let byDate := groupAppointmentsByDate appointments in
  let p := fold_left (reorderDay maxReorderingScenarios) byDate (mkProgress [] 0 0) in
  let solutions := solutionsSoFar p in
  (* Calculate success rate *)
  let successRate :=
    if scenariosTested p >? 0
    then (inject_Z (feasibleScenariosSoFar p) / inject_Z (scenariosTested p))%Q
    else 0%Q in
  let finalStats :=
    {| totalScenariosTested := scenariosTested p;
       feasibleScenarios := feasibleScenariosSoFar p;
       bestScenarioGapMinutes := calculateBestGap solutions;
       worstScenarioGapMinutes := calculateWorstGap solutions;
       averageGapMinutes := calculateAverageGap solutions;
       reorderingsTested := scenariosTested p;
       buffersTested := 0 |} in
  (* Update all solutions with consistent stats *)
  let solutions :=
    map (fun solution =>
           {| changes := changes solution;
              successRate := successRate;
              impactScore := impactScore solution;
              feasibility := feasibility solution;
              reasoning := reasoning solution;
              statistics := Some finalStats |})
        solutions in
  (* Rank by impact score (lower is better) *)
  map snd
    (sortQ (fun a b => (fst a - fst b)%Q)
       (map (fun solution => (calculateImpactScore solution None None, solution))
            solutions)).

End Reorderer.
Import Reorderer.

(* ================================================================== *)
(** ** Computations with effects *)
(* ================================================================== *)

(** A computation over a world [W] that may throw an [Error] (kept as its
    message).  What was done to the world before a throw stays done. *)
Module Effects.

Definition M (W A : Type) : Type := W -> (string + A) * W.

Definition ret {W A} (a : A) : M W A := fun w => (inr a, w).
Definition bind {W A B} (m : M W A) (k : A -> M W B) : M W B :=
  fun w => match m w with
           | (inr a, w') => k a w'
           | (inl e, w') => (inl e, w')
           end.
Definition throw {W A} (message : string) : M W A := fun w => (inl message, w).
(** [try { m } catch (error) { handler }]. *)
Definition catch {W A} (m : M W A) (handler : string -> M W A) : M W A :=
  fun w => match m w with
           | (inr a, w') => (inr a, w')
           | (inl e, w') => handler e w'
           end.

Declare Scope effects_scope.
Delimit Scope effects_scope with effects.
Notation "x <- m ;; k" := (bind m (fun x => k))
  (at level 61, m at next level, right associativity) : effects_scope.
Notation "' pat <- m ;; k" := (bind m (fun x => match x with pat => k end))
  (at level 61, pat pattern, m at next level, right associativity) : effects_scope.
Notation "m ;; k" := (bind m (fun _ => k))
  (at level 61, right associativity) : effects_scope.

End Effects.
Import Effects.
#[local] Open Scope effects_scope.

(* ================================================================== *)
(** ** [lib/simulation/scheduler.ts] *)
(* ================================================================== *)

Module Scheduler.

Record SimulationOptions := mkSimulationOptions {
  maxReorderings : option Z;
  testBufferSizes : option (list Q);
  runRescheduling : option bool;
  config : option BufferConfiguration;
  timeLimitMs : option Z
}.

(** Options once merged with the defaults: every field is set. *)
Record MergedOptions := mkMergedOptions {
  opt_maxReorderings : Z;
  opt_testBufferSizes : list Q;
  opt_runRescheduling : bool;
  opt_config : BufferConfiguration;
  opt_timeLimitMs : Z
}.

Definition DEFAULT_SIMULATION_OPTIONS : MergedOptions :=
  {| opt_maxReorderings := 50;
     opt_testBufferSizes := [30; 35; 40; 45; 50; 55; 60]%Q;
     opt_runRescheduling := true;
     opt_config := DEFAULT_BUFFER_CONFIG;
     opt_timeLimitMs := 2000 |}.

(** [{ ...DEFAULT_SIMULATION_OPTIONS, ...options }]. *)
Definition mergeOptions (options : SimulationOptions) : MergedOptions :=
  let pick {A} (o : option A) (d : A) := match o with Some v => v | None => d end in
  {| opt_maxReorderings :=
       pick (maxReorderings options) (opt_maxReorderings DEFAULT_SIMULATION_OPTIONS);
     opt_testBufferSizes :=
       pick (testBufferSizes options) (opt_testBufferSizes DEFAULT_SIMULATION_OPTIONS);
     opt_runRescheduling :=
       pick (runRescheduling options) (opt_runRescheduling DEFAULT_SIMULATION_OPTIONS);
     opt_config := pick (config options) (opt_config DEFAULT_SIMULATION_OPTIONS);
     opt_timeLimitMs :=
       pick (timeLimitMs options) (opt_timeLimitMs DEFAULT_SIMULATION_OPTIONS) |}.

(** What the orchestrator does to the outside world: it reads the wall
    clock and writes to the console.  The log also records each call of a
    strategy simulator, so that statements can tell whether one ran. *)
Inductive Event :=
| CalledSimulateReordering
| CalledSimulateBufferVariation
| CalledSimulateRescheduling
| ConsoleWarn (message : string)
| ConsoleError (message : string).

Record Runtime := mkRuntime {
  clockReads : nat;          (* how often [Date.now()] was called *)
  log : list Event
}.

(** The reading of the wall clock at its [n]-th call. *)
Class Clock := wallClock : nat -> Z.

Definition Date_now {clock : Clock} : M Runtime Z :=
  fun w => (inr (wallClock (clockReads w)), mkRuntime (S (clockReads w)) (log w)).
Definition record (e : Event) : M Runtime unit :=
  fun w => (inr tt, mkRuntime (clockReads w) (log w ++ [e])).

Section Orchestrator.
Context {geo : Geodesy} {clock : Clock}.

(** [simulateBufferVariation] of [buffer-variator.ts] and
    [generateExplanation] of [explanation-engine.ts] are parameters:
    nothing below depends on what they compute.  The buffer simulator
    answers [None] when it throws. *)
Variable simulateBufferVariation :
  list GeocodedAppointment -> list Q -> BufferConfiguration -> option (list Solution).
Variable generateExplanation : Solution -> list string.

(** Create a rescheduling solution. *)
Definition createRescheduleSolution
    (appointmentToMove anchorAppointment : GeocodedAppointment)
    (later : bool) (config : option BufferConfiguration) : option Solution :=
  match truthyStr (startTime (asAppointment appointmentToMove)),
        truthyStr (startTime (asAppointment anchorAppointment)) with
  | Some moveStart, Some _ =>
      let anchorEndTime := moveStart in
      let buffer :=
        calculateSmartBuffer anchorAppointment appointmentToMove
          (match config with Some c => c | None => DEFAULT_BUFFER_CONFIG end) in
      if later then
        let proposedTime := anchorEndTime in
        Some
          {| changes :=
               [ {| type := reschedule;
                    appointmentId := id (asAppointment appointmentToMove);
                    appointmentName := appName (asAppointment appointmentToMove);
                    originalTime := moveStart;
                    proposedTime := proposedTime;
                    reason := ("Reschedule to later in the day after "
                               ++ appName (asAppointment anchorAppointment))%string;
                    impactMinutes := inject_Z buffer |} ];
             successRate := 8 # 10;
             impactScore := 40;
             feasibility := feasible;
             reasoning :=
               [ ("Moving " ++ appName (asAppointment appointmentToMove)
                  ++ " to later time resolves conflict")%string;
                 "Maintains same day schedule" ];
             statistics :=
               Some {| totalScenariosTested := 1;
                       feasibleScenarios := 1;
                       bestScenarioGapMinutes := inject_Z buffer;
                       worstScenarioGapMinutes := 0;
                       averageGapMinutes := inject_Z buffer / 2;
                       reorderingsTested := 0;
                       buffersTested := 0 |} |}
      else
        Some
          {| changes :=
               [ {| type := reschedule;
                    appointmentId := id (asAppointment appointmentToMove);
                    appointmentName := appName (asAppointment appointmentToMove);
                    originalTime := moveStart;
                    proposedTime := "09:00";
                    reason := ("Reschedule "
                               ++ appName (asAppointment appointmentToMove)
                               ++ " to next day - same day schedule is too tight")%string;
                    impactMinutes := 480 |} ];
             successRate := 1;
             impactScore := 60;
             feasibility := feasible;
             reasoning :=
               [ "Moving to different day completely eliminates conflict";
                 "Provides fresh start for scheduling";
                 "Minimal disruption to other appointments" ];
             statistics :=
               Some {| totalScenariosTested := 1;
                       feasibleScenarios := 1;
                       bestScenarioGapMinutes := 60;
                       worstScenarioGapMinutes := 60;
                       averageGapMinutes := 60;
                       reorderingsTested := 0;
                       buffersTested := 0 |} |}
  | _, _ => None
  end.

(** Simulate rescheduling a single appointment to a different time. *)
Definition simulateRescheduling
    (conflict : SchedulingConflict GeocodedAppointment)
    (allAppointments : list GeocodedAppointment)
    (config : option BufferConfiguration) : list Solution :=
  let '(apt1, apt2) := appointments conflict in
  let optional (o : option Solution) := match o with Some s => [s] | None => [] end in
  (* Strategy 1: Move conflicting appointment to later in the day *)
  let laterInDay := createRescheduleSolution apt2 apt1 true config in
  (* Strategy 2: Move conflicting appointment to different day *)
  let differentDay := createRescheduleSolution apt2 apt1 false config in
  (* Strategy 3: If both are flexible, suggest flexibility *)
  let bothFree :=
    match truthyStr (startTime (asAppointment apt1)),
          truthyStr (startTime (asAppointment apt2)) with
    | None, None =>
        [ {| changes := [];
             successRate := 1;
             impactScore := 10;
             feasibility := feasible;
             reasoning :=
               [ "Both appointments are flexible and can be scheduled freely";
                 "Let the optimizer find the best times" ];
             statistics :=
               Some {| totalScenariosTested := 1;
                       feasibleScenarios := 1;
                       bestScenarioGapMinutes := 60;
                       worstScenarioGapMinutes := 60;
                       averageGapMinutes := 60;
                       reorderingsTested := 0;
                       buffersTested := 0 |} |} ]
    | _, _ => []
    end in
  optional laterInDay ++ optional differentDay ++ bothFree.

(** Resolve a single conflict using multiple strategies. *)
Definition resolveConflict
    (conflict : SchedulingConflict GeocodedAppointment)
    (allAppointments : list GeocodedAppointment)
    (options : MergedOptions) : M Runtime ConflictResolution :=
  (* Strategy 1: Reordering *)
  record CalledSimulateReordering ;;
  let solutions :=
    simulateReordering allAppointments (opt_maxReorderings options)
                       (opt_config options) in
  (* Strategy 2: Buffer variation *)
  record CalledSimulateBufferVariation ;;
  solutions <-
    match simulateBufferVariation allAppointments (opt_testBufferSizes options)
                                  (opt_config options) with
    | Some bufferSolutions => ret (solutions ++ bufferSolutions)
    | None => record (ConsoleError "Error in buffer simulation:") ;; ret solutions
    end ;;
  (* Strategy 3: Rescheduling (if enabled) *)
  solutions <-
    (if opt_runRescheduling options then
       record CalledSimulateRescheduling ;;
       ret (solutions
            ++ simulateRescheduling conflict allAppointments
                 (Some (opt_config options)))
     else ret solutions) ;;
  (* Add explanations to solutions *)
  let explainedSolutions :=
    map (fun solution =>
           {| changes := changes solution;
              successRate := successRate solution;
              impactScore := impactScore solution;
              feasibility := feasibility solution;
              reasoning := reasoning solution ++ generateExplanation solution;
              statistics := statistics solution |})
        solutions in
  (* Rank and select best *)
  let ranked := rankSolutions explainedSolutions None None in
  let recommended := selectBestSolution explainedSolutions None None in
  ret {| conflict := conflict;
         solutions := ranked;
         recommendedSolution := recommended |}.

(** The [for (const conflict of conflicts)] loop, which checks the time
    limit before each conflict and stops at the first excess. *)
Fixpoint resolveEach
    (conflicts : list (SchedulingConflict GeocodedAppointment))
    (appointments : list GeocodedAppointment) (opts : MergedOptions)
    (startTime : Z) (resolutions : list ConflictResolution)
  : M Runtime (list ConflictResolution) :=
  match conflicts with
  | [] => ret resolutions
  | conflict :: rest =>
      now <- Date_now ;;
      if now - startTime >? opt_timeLimitMs opts then
        record (ConsoleWarn "Simulation time limit exceeded") ;;
        ret resolutions
      else
        resolution <- resolveConflict conflict appointments opts ;;
        resolveEach rest appointments opts startTime (resolutions ++ [resolution])
  end.

(** Run comprehensive simulations to resolve scheduling conflicts. *)
Definition runConflictSimulations (appointments : list GeocodedAppointment)
    (options : SimulationOptions) : M Runtime (list ConflictResolution) :=
  (* Merge options with defaults *)
  let opts := mergeOptions options in
  startTime <- Date_now ;;
  (* Find all conflicts *)
  let conflicts := findAllConflicts appointments in
  if (List.length conflicts =? 0)%nat then
    ret []   (* No conflicts to resolve *)
  else
    resolveEach conflicts appointments opts startTime [].

End Orchestrator.

End Scheduler.
Import Scheduler.

(* ================================================================== *)
(** ** [lib/algorithm/validator.ts] *)
(* ================================================================== *)

Module RouteValidator.

(** The comparator that sorts inflexible appointments by start time. *)
Definition byStartTime (a b : GeocodedAppointment) : num :=
  match truthyStr (startTime (asAppointment a)),
        truthyStr (startTime (asAppointment b)) with
  | Some sa, Some sb => nsub (timeToMinutes sa) (timeToMinutes sb)
  | _, _ => Some 0
  end.

(** The pairs [(arr[i], arr[i + 1])] for [i] from [0] to [length - 2]. *)
Fixpoint consecutive {A} (arr : list A) : list (A * A) :=
  match arr with
  | current :: ((next :: _) as rest) => (current, next) :: consecutive rest
  | _ => []
  end.

(** The loop of [validateRoute] over the stops; [i] is the index of the
    stop at the head. *)
Fixpoint validateStops (stops : list VisitStop) (i : Z) (currentTime : num)
    (gracePeriod : Z) (errors : list string) : list string :=
  match stops with
  | [] => errors
  | stop :: rest =>
      let appointment := Types.appointment stop in
      (* Travel time check (except for first stop) *)
      let currentTime :=
        if i >? 0 then nadd currentTime (Some (travelTimeFromPrevious stop))
        else currentTime in
      (* Check if arrival time matches expected *)
      let actualArrivalMinutes := timeToMinutes (arrivalTime stop) in
      let errors :=
        if ngtb (nabs (nsub currentTime actualArrivalMinutes)) (Some 1) then
          errors ++
            [ ("Stop " ++ toString (i + 1) ++ " ("
               ++ appName (asAppointment appointment)
               ++ "): Mismatched arrival time. Expected "
               ++ minutesToTime currentTime ++ ", got " ++ arrivalTime stop)%string ]
        else errors in
      (* For inflexible appointments, check if arrival is within grace period *)
      let errors :=
        match isInflexible appointment, truthyStr (startTime (asAppointment appointment)) with
        | true, Some start =>
            let diff := nabs (nsub (timeToMinutes (arrivalTime stop)) (timeToMinutes start)) in
            if ngtb diff (Some gracePeriod) then
              errors ++
                [ ("Stop " ++ toString (i + 1) ++ " ("
                   ++ appName (asAppointment appointment) ++ "): Arrives at "
                   ++ arrivalTime stop ++ " but appointment must start at "
                   ++ start ++ " (±" ++ toString gracePeriod ++ " min)")%string ]
            else errors
        | _, _ => errors
        end in
      (* Add visit duration *)
      let currentTime :=
        nadd currentTime (Some (visitDurationMinutes (asAppointment appointment))) in
      validateStops rest (i + 1) currentTime gracePeriod errors
  end.

(** Check if a route is feasible (all constraints satisfied). *)
Definition validateRoute (stops : list VisitStop) (gracePeriod : Z) : list string :=
  match stops with
  | [] => []
  | firstStop :: _ =>
      let dayStartMinutes :=
        match truthyStr (startTime (asAppointment (appointment firstStop))) with
        | Some start => timeToMinutes start
        | None => Some (9 * 60)
        end in
      validateStops stops 0 dayStartMinutes gracePeriod []
  end.

Section Feasibility.
Context {geo : Geodesy}.

(** The body of [byDate.forEach] in [checkScheduleFeasibility]. *)
Definition checkDay (entry : string * list GeocodedAppointment) : list string :=
  let '(date, dayAppointments) := entry in
  let inflexible := sort byStartTime (filter isInflexible dayAppointments) in
  let tooClose :=
    flat_map
      (fun '(current, next) =>
         match truthyStr (startTime (asAppointment current)),
               truthyStr (startTime (asAppointment next)) with
         | Some currentStart, Some nextStart =>
             let timeGap := nsub (timeToMinutes nextStart) (timeToMinutes currentStart) in
             let minTimeNeeded := visitDurationMinutes (asAppointment current) in
             if nltb timeGap (Some minTimeNeeded) then
               [ ("Date " ++ date ++ ": " ++ appName (asAppointment current)
                  ++ " (at " ++ currentStart ++ ") and "
                  ++ appName (asAppointment next) ++ " (at " ++ nextStart
                  ++ ") are too close. Need at least "
                  ++ toString (visitDurationMinutes (asAppointment current))
                  ++ " minutes between them.")%string ]
             else []
         | _, _ => []
         end)
      (consecutive inflexible) in
  (* Check if travel between inflexible appointments might be impossible *)
  let tooFar :=
    flat_map
      (fun '(current, next) =>
         match truthyStr (startTime (asAppointment current)),
               truthyStr (startTime (asAppointment next)) with
         | Some currentStart, Some nextStart =>
             let timeGap := nsub (timeToMinutes nextStart) (timeToMinutes currentStart) in
             let distance :=
               haversineDistance (latitude current) (longitude current)
                                 (latitude next) (longitude next) in
             if Qltb 200 distance && nltb timeGap (Some 120) then
               [ ("Date " ++ date ++ ": " ++ appName (asAppointment current)
                  ++ " and " ++ appName (asAppointment next)
                  ++ " might be impossible to reach (distance: "
                  ++ toString (Math_round distance) ++ "km, time gap: "
                  ++ num_toString timeGap ++ "min).")%string ]
             else []
         | _, _ => []
         end)
      (consecutive inflexible) in
  tooClose ++ tooFar.

(** Check if schedule is feasible before optimization. *)
Definition checkScheduleFeasibility (appointments : list GeocodedAppointment)
  : list string :=
  flat_map checkDay (groupAppointmentsByDate appointments).

Record OptimizationCheck := mkOptimizationCheck {
  canOptimize : bool;
  checkReason : string
}.

(** Estimate if route can be optimized. *)
Definition canOptimizeRoute (appointments : list GeocodedAppointment)
  : OptimizationCheck :=
  let total := Z.of_nat (List.length appointments) in
  let inflexible := Z.of_nat (List.length (filter isInflexible appointments)) in
  let flexible :=
    Z.of_nat (List.length (filter (fun apt => negb (isInflexible apt)) appointments)) in
  if flexible =? 0 then
    {| canOptimize := false;
       checkReason := "All appointments are inflexible. No optimization possible." |}
  else
    (* [total] is positive here, one appointment at least being flexible *)
    let ratio := (inject_Z inflexible / inject_Z total)%Q in
    if Qltb (8 # 10) ratio then
      {| canOptimize := true;
         checkReason :=
           ("Only " ++ toString flexible ++ " flexible appointments out of "
            ++ toString total ++ ". Optimization will be limited.")%string |}
    else
      let feasibilityErrors := checkScheduleFeasibility appointments in
      if (0 <? List.length feasibilityErrors)%nat then
        {| canOptimize := false;
           checkReason := join " | " feasibilityErrors |}
      else
        {| canOptimize := true;
           checkReason :=
             ("Successfully scheduled " ++ toString total ++ " appointments ("
              ++ toString inflexible ++ " inflexible, " ++ toString flexible
              ++ " flexible).")%string |}.
End Feasibility.

End RouteValidator.
Import RouteValidator.

(* ================================================================== *)
(** ** [lib/algorithm/optimizer.ts] *)
(* ================================================================== *)

(** The distance lookup of [lib/google/distance-matrix.ts]: a request to an
    outside service, which answers for each destination a distance and a
    duration, or throws.  Its answers are not constrained here: the service
    may answer differently each time it is asked. *)
Class DistanceService := {
  World : Type;
  getDistanceMatrix :
    LatLng -> list LatLng -> World -> (string + list DistanceResult) * World
}.

Module Optimizer.

Section RouteBuilder.
Context {geo : Geodesy} {service : DistanceService}.

Definition Promise (A : Type) : Type := M World A.

Definition pointOf (apt : GeocodedAppointment) : LatLng :=
  {| lat := latitude apt; lng := longitude apt |}.

Definition geodesicBetween (a b : GeocodedAppointment) : Q :=
  haversineDistance (latitude a) (longitude a) (latitude b) (longitude b).

(** The loop of [calculateRouteCost] over consecutive appointments. *)
Fixpoint routeCostFrom (appointments : list GeocodedAppointment) (totalCost : Q)
  : Promise Q :=
  match appointments with
  | from :: ((to :: _) as rest) =>
      totalCost <-
        catch
          (distance <- getDistanceMatrix (pointOf from) [pointOf to] ;;
           match distance with
           | first :: _ => ret (totalCost + Types.distance first)%Q
           | [] =>
               (* Could not get distance, use geodesic distance as fallback *)
               ret (totalCost + geodesicBetween from to * 1000)%Q
           end)
          (fun _ =>
             (* Fallback to geodesic distance *)
             ret (totalCost + geodesicBetween from to * 1000)%Q) ;;
      routeCostFrom rest totalCost
  | _ => ret totalCost
  end.

(** Calculate the total cost (distance) of a route. *)
Definition calculateRouteCost (appointments : list GeocodedAppointment)
  : Promise Q :=
  if (List.length appointments <=? 1)%nat then ret 0%Q
  else routeCostFrom appointments 0.

(** The loop of [insertFlexibleAppointment] over the positions to try.
    [bestCost] starts at [Infinity], which is [None] here. *)
Fixpoint tryPositions (flexibleApt : GeocodedAppointment)
    (orderedAppointments : list GeocodedAppointment) (positions : list nat)
    (bestPosition : nat) (bestCost : option Q) : Promise (nat * option Q) :=
  match positions with
  | [] => ret (bestPosition, bestCost)
  | position :: rest =>
      let testOrder := spliceIn position flexibleApt orderedAppointments in
      cost <- calculateRouteCost testOrder ;;
      if match bestCost with Some best => Qltb cost best | None => true end
      then tryPositions flexibleApt orderedAppointments rest position (Some cost)
      else tryPositions flexibleApt orderedAppointments rest bestPosition bestCost
  end.

(** Insert a flexible appointment at the best position.  The array is
    updated in place in the source; the updated array is returned. *)
Definition insertFlexibleAppointment (flexibleApt : GeocodedAppointment)
    (orderedAppointments : list GeocodedAppointment)
  : Promise (list GeocodedAppointment) :=
  if (List.length orderedAppointments =? 0)%nat then
    ret (orderedAppointments ++ [flexibleApt])
  else
    '(bestPosition, _) <-
      tryPositions flexibleApt orderedAppointments
        (seq 0 (S (List.length orderedAppointments))) 0%nat None ;;
    ret (spliceIn bestPosition flexibleApt orderedAppointments).

(** Optimize positions of inflexible appointments. *)
Definition optimizeInflexiblePositions
    (currentOrder inflexibleList : list GeocodedAppointment)
  : Promise (list GeocodedAppointment) :=
  ret currentOrder.

Record RouteDetails := mkRouteDetails {
  rd_stops : list VisitStop;
  rd_totalDistance : Q;
  rd_totalDriveTime : Z;
  rd_totalVisitTime : Z
}.

(** The loop of [calculateRoute] over the stops after the first; [i] is
    the index of [currentApt]. *)
Fixpoint routeFrom (prevApt : GeocodedAppointment)
    (remaining : list GeocodedAppointment) (i : Z) (currentTime : num)
    (acc : RouteDetails) : Promise RouteDetails :=
  match remaining with
  | [] => ret acc
  | currentApt :: rest =>
      (* Get travel from previous to current *)
      distanceResult <- getDistanceMatrix (pointOf prevApt) [pointOf currentApt] ;;
      let '(travelTime, distance) :=
        match distanceResult with
        | first :: _ => (duration first, Types.distance first)
        | [] =>
            (* Fallback to geodesic distance *)
            let geodesicDist := geodesicBetween prevApt currentApt in
            (Math_round (geodesicDist * (12 # 10)), (geodesicDist * 1000)%Q)
        end in
      (* Update times *)
      let currentTime :=
        nadd currentTime
             (Some (visitDurationMinutes (asAppointment prevApt) + travelTime)) in
      (* Create stop *)
      let stop :=
        {| appointment := currentApt;
           order := i + 1;
           arrivalTime := minutesToTime currentTime;
           travelTimeFromPrevious := travelTime;
           distanceFromPrevious := distance;
           status :=
             getArrivalStatus (minutesToTime currentTime)
               (orElse (startTime (asAppointment currentApt)) (minutesToTime currentTime))
               GRACE_PERIOD_MINUTES;
           minutesFromPreferred :=
             match truthyStr (startTime (asAppointment currentApt)) with
             | Some start =>
                 nabs (nsub (timeToMinutes (minutesToTime currentTime))
                            (timeToMinutes start))
             | None => Some 0
             end |} in
      routeFrom currentApt rest (i + 1) currentTime
        {| rd_stops := rd_stops acc ++ [stop];
           rd_totalDistance := (rd_totalDistance acc + distance)%Q;
           rd_totalDriveTime := rd_totalDriveTime acc + travelTime;
           rd_totalVisitTime :=
             rd_totalVisitTime acc + visitDurationMinutes (asAppointment currentApt) |}
  end.

(** Calculate final route details (arrival times, travel times, etc.) *)
Definition calculateRoute (orderedAppointments : list GeocodedAppointment)
  : Promise RouteDetails :=
  match orderedAppointments with
  | [] => ret (mkRouteDetails [] 0 0 0)
  | firstApt :: rest =>
      let currentTime :=
        match truthyStr (startTime (asAppointment firstApt)) with
        | Some start =>
            if isInflexible firstApt then timeToMinutes start else Some (9 * 60)
        | None => Some (9 * 60)
        end in
      (* First stop has no travel time *)
      let firstStop :=
        {| appointment := firstApt;
           order := 1;
           arrivalTime := minutesToTime currentTime;
           travelTimeFromPrevious := 0;
           distanceFromPrevious := 0;
           status :=
             getArrivalStatus (minutesToTime currentTime)
               (orElse (startTime (asAppointment firstApt)) "09:00")
               GRACE_PERIOD_MINUTES;
           minutesFromPreferred :=
             match truthyStr (startTime (asAppointment firstApt)) with
             | Some start =>
                 nabs (nsub (timeToMinutes (minutesToTime currentTime))
                            (timeToMinutes start))
             | None => Some 0
             end |} in
      routeFrom firstApt rest 1 currentTime
        {| rd_stops := [firstStop];
           rd_totalDistance := 0;
           rd_totalDriveTime := 0;
           rd_totalVisitTime := visitDurationMinutes (asAppointment firstApt) |}
  end.

(** The [for] loop of [optimizeDay] that inserts the flexible
    appointments one after the other. *)
Fixpoint insertAll (flexibleAppointments orderedAppointments : list GeocodedAppointment)
  : Promise (list GeocodedAppointment) :=
  match flexibleAppointments with
  | [] => ret orderedAppointments
  | flexibleApt :: rest =>
      orderedAppointments <- insertFlexibleAppointment flexibleApt orderedAppointments ;;
      insertAll rest orderedAppointments
  end.

Record DayResult := mkDayResult {
  day_route : RouteDetails;
  day_warnings : list string
}.

(** Optimize appointments for a single day. *)
Definition optimizeDay (appointments : list GeocodedAppointment)
  : Promise DayResult :=
  (* Separate inflexible and flexible appointments *)
  let inflexibleAppointments :=
    sort byStartTime (filter isInflexible appointments) in
  let flexibleAppointments :=
    filter (fun apt => negb (isInflexible apt)) appointments in
  (* Start with inflexible appointments as anchors *)
  orderedAppointments <- insertAll flexibleAppointments inflexibleAppointments ;;
  finalOptimized <-
    optimizeInflexiblePositions orderedAppointments inflexibleAppointments ;;
  (* Calculate the final route details *)
  result <- calculateRoute finalOptimized ;;
  let avgSegmentDistance :=
    (rd_totalDistance result
     / Math_max (inject_Z (Z.of_nat (List.length (rd_stops result)) - 1)) 1)%Q in
  let warnings :=
    if Qltb 50000 avgSegmentDistance then
      [ "Route has long distances between stops. Consider breaking into multiple days or combining nearby appointments." ]
    else [] in
  ret {| day_route := result; day_warnings := warnings |}.

(** The [for] loop of [optimizeRoute] over the dates. *)
Fixpoint optimizeDates (byDate : list (string * list GeocodedAppointment))
    (acc : RouteDetails) (warnings : list string)
  : Promise (RouteDetails * list string) :=
  match byDate with
  | [] => ret (acc, warnings)
  | (_, appointments) :: rest =>
      dayResult <- optimizeDay appointments ;;
      optimizeDates rest
        {| rd_stops := rd_stops acc ++ rd_stops (day_route dayResult);
           rd_totalDistance :=
             (rd_totalDistance acc + rd_totalDistance (day_route dayResult))%Q;
           rd_totalDriveTime :=
             rd_totalDriveTime acc + rd_totalDriveTime (day_route dayResult);
           rd_totalVisitTime :=
             rd_totalVisitTime acc + rd_totalVisitTime (day_route dayResult) |}
        (warnings ++ day_warnings dayResult)
  end.

(** The [try] block of [optimizeRoute]. *)
Definition tryOptimizeRoute (geocodedAppointments : list GeocodedAppointment)
  : Promise OptimizedRoute :=
  match geocodedAppointments with
  | [] => throw "No appointments to optimize"
  | first :: _ =>
      (* Check if optimization is possible *)
      let optimizationCheck := canOptimizeRoute geocodedAppointments in
      if negb (canOptimize optimizationCheck) then
        throw (checkReason optimizationCheck)
      else
        (* Group by date (optimize each date separately) *)
        let byDate := groupAppointmentsByDate geocodedAppointments in
        '(totals, warnings) <- optimizeDates byDate (mkRouteDetails [] 0 0 0) [] ;;
        ret {| stops := rd_stops totals;
               totalDistance := rd_totalDistance totals;
               totalDriveTime := rd_totalDriveTime totals;
               totalVisitTime := rd_totalVisitTime totals;
               routeDate := date (asAppointment first);
               success := true;
               error := None;
               warnings :=
                 if (0 <? List.length warnings)%nat then Some warnings else None |}
  end.

(** Optimize a route using Nearest Neighbor algorithm.  An [async]
    function that catches everything: it always answers a route. *)
Definition optimizeRoute (geocodedAppointments : list GeocodedAppointment)
  : World -> OptimizedRoute * World :=
  fun w =>
    match tryOptimizeRoute geocodedAppointments w with
    | (inr route, w') => (route, w')
    | (inl message, w') =>
        ({| stops := [];
            totalDistance := 0;
            totalDriveTime := 0;
            totalVisitTime := 0;
            routeDate :=
              match geocodedAppointments with
              | first :: _ => date (asAppointment first)
              | [] => EmptyString
              end;
            success := false;
            error := Some message;
            warnings := None |}, w')
    end.

End RouteBuilder.

End Optimizer.
Import Optimizer.

(* ================================================================== *)
(** ** Notions used to state the properties *)
(* ================================================================== *)

(** [s] does not contain the character [c]. *)
Fixpoint lacks (c : ascii) (s : string) : bool :=
  match s with
  | EmptyString => true
  | String a rest => negb (Ascii.eqb a c) && lacks c rest
  end.

(** [k] leading zeros in front of a decimal numeral. *)
Fixpoint zeros (k : nat) (d : uint) : uint :=
  match k with O => d | S k' => D0 (zeros k' d) end.

(** [earlier] is the one of [a] and [b] that starts no later than the
    other; when both start together, either may be called the earlier. *)
Inductive chronological {T : Type} (a b : T) (timeA timeB : Z)
  : T -> Z -> Z -> Prop :=
| first_is_earlier :
    timeA <= timeB -> chronological a b timeA timeB a timeA timeB
| second_is_earlier :
    timeB <= timeA -> chronological a b timeA timeB b timeB timeA.

(** The smart buffer after the flexibility and duration adjustments, before
    the distance surcharge. *)
Definition bufferBeforeSurcharge (apt1 apt2 : GeocodedAppointment)
    (config : BufferConfiguration) : Q :=
  let buffer := baseBufferMinutes config in
  let buffer :=
    if negb (isInflexible apt1) && negb (isInflexible apt2)
    then (buffer * flexibleFactor config)%Q else buffer in
  let avgDuration :=
    ((inject_Z (visitDurationMinutes (asAppointment apt1))
      + inject_Z (visitDurationMinutes (asAppointment apt2))) / 2)%Q in
  if Qltb 60 avgDuration then (buffer * (12 # 10))%Q
  else if Qltb avgDuration 30 then (buffer * (9 # 10))%Q
  else buffer.

(** Clamping to the bounds of the configuration. *)
Definition clampBuffer (config : BufferConfiguration) (buffer : Q) : Q :=
  Math_max (minimumBufferMinutes config) (Math_min (maximumBufferMinutes config) buffer).

(** The guard of [calculateSmartBuffer] on the coordinates: all four are
    truthy.  A coordinate that is exactly zero counts as unknown. *)
Definition coordinatesKnown (apt1 apt2 : GeocodedAppointment) : bool :=
  truthy (latitude apt1) && truthy (longitude apt1)
  && truthy (latitude apt2) && truthy (longitude apt2).

(** A number of whole minutes. *)
Definition wholeMinutes (q : Q) : Prop := (inject_Z (Qfloor q) == q)%Q.

(** The impact score as its formula is documented, to be compared with
    [calculateImpactScore]. *)
Module ScoreFormula.
Definition round1 (x : Q) : Q := (inject_Z (Math_round (x * 10)) / 10)%Q.
Definition round2 (x : Q) : Q := (inject_Z (Math_round (x * 100)) / 100)%Q.

Definition sumImpactMinutes (solution : Solution) : Q :=
  fold_right Qplus 0%Q (map impactMinutes (changes solution)).
Definition numChanges (solution : Solution) : Q :=
  inject_Z (Z.of_nat (List.length (changes solution))).

(** 0 without changes, else min(100, round1(100 * sum / (480 * n))). *)
Definition disruption (solution : Solution) : Q :=
  match changes solution with
  | [] => 0%Q
  | _ => Math_min 100
           (round1 (100 * sumImpactMinutes solution / (480 * numChanges solution)))%Q
  end.

(** 0 without gap statistics or with a best gap of 0, else by the ratio of
    the best gap to the base buffer. *)
Definition bufferDeviation (solution : Solution) (config : BufferConfiguration) : Q :=
  match statistics solution with
  | None => 0%Q
  | Some stats =>
      if Qeq_bool (bestScenarioGapMinutes stats) 0 then 0%Q
      else
        let ratio := (bestScenarioGapMinutes stats / baseBufferMinutes config)%Q in
        if Qle_bool ratio 1 then 0%Q
        else if Qle_bool ratio (15 # 10) then 25%Q
        else if Qle_bool ratio 2 then 60%Q
        else 100%Q
  end.

Definition impactScore (solution : Solution) (config : BufferConfiguration) : Q :=
  round2 ((4 # 10) * disruption solution
          + (3 # 10) * (100 * (1 - successRate solution))
          + (3 # 10) * bufferDeviation solution config)%Q.
End ScoreFormula.

Definition isFeasibleSolution (s : Solution) : bool :=
  match feasibility s with feasible => true | infeasible => false end.
Definition countFeasible (solutions : list Solution) : nat :=
  List.length (filter isFeasibleSolution solutions).

(** What the reordering simulation maintains while it tests scenarios. *)
Record counted (maxReorderingScenarios : Z) (p : Progress) : Prop := {
  counted_tested : scenariosTested p = Z.of_nat (List.length (solutionsSoFar p));
  counted_feasible : feasibleScenariosSoFar p = Z.of_nat (countFeasible (solutionsSoFar p));
  counted_capped : scenariosTested p <= maxReorderingScenarios
}.

(** Every appointment filed under a date comes from [source]. *)
Definition drawnFrom {T : Type} (source : list T) (byDate : list (string * list T))
  : Prop :=
  forall d group apt, In (d, group) byDate -> In apt group -> In apt source.

(** The arrival at [s2] is no earlier than the arrival at [s1] plus the
    visit at [s1]; both arrival times read as times of day. *)
Definition arrivesAfter (s1 s2 : VisitStop) : Prop :=
  exists t1 t2,
    timeToMinutes (arrivalTime s1) = Some t1
    /\ timeToMinutes (arrivalTime s2) = Some t2
    /\ t1 + visitDurationMinutes (asAppointment (appointment s1)) <= t2.

Definition scheduleRespected (stops : list VisitStop) : Prop :=
  forall i s1 s2,
    nth_error stops i = Some s1 -> nth_error stops (S i) = Some s2 ->
    arrivesAfter s1 s2.

(** Every start time that is present reads as a time of day. *)
Definition startTimesValid (appointments : list GeocodedAppointment) : Prop :=
  forall apt start,
    In apt appointments -> startTime (asAppointment apt) = Some start ->
    exists t, timeToMinutes start = Some t /\ 0 <= t.

(** The start time of every inflexible appointment that has one reads as a
    time of day. *)
Definition anchorStartsValid (appointments : list GeocodedAppointment) : Prop :=
  forall apt start,
    In apt appointments -> isInflexible apt = true ->
    truthyStr (startTime (asAppointment apt)) = Some start ->
    exists t, timeToMinutes start = Some t /\ 0 <= t.


(** No visit has a negative duration. *)
Definition durationsValid (appointments : list GeocodedAppointment) : Prop :=
  forall apt, In apt appointments -> 0 <= visitDurationMinutes (asAppointment apt).


Section Service.
Context {geo : Geodesy} {service : DistanceService}.

(** The service answers every request. *)
Definition serviceAnswers : Prop :=
  forall from tos w, exists results w',
    getDistanceMatrix from tos w = (inr results, w').

(** Travel never takes negative time. *)
Definition travelTimesValid : Prop :=
  (forall from tos w results w',
      getDistanceMatrix from tos w = (inr results, w') ->
      Forall (fun r => 0 <= duration r) results)
  /\ (forall lat1 lng1 lat2 lng2, (0 <= haversineDistance lat1 lng1 lat2 lng2)%Q).
End Service.

(* ================================================================== *)
(** ** Sample data *)
(* ================================================================== *)

Module Samples.
(** A computable stand-in for the great-circle distance: degrees apart
    along the grid, at 111 km a degree. *)
Definition gridGeodesy : Geodesy :=
  fun lat1 lng1 lat2 lng2 =>
    (Qabs (lat2 - lat1) * 111 + Qabs (lng2 - lng1) * 111)%Q.

(** Every two places are five kilometres apart. *)
Definition fiveKilometres : Geodesy := fun _ _ _ _ => 5%Q.

(** A distance service that answers 5 km and 10 minutes for every
    destination, and counts the requests it has served. *)
Definition steadyService : DistanceService :=
  {| World := nat;
     getDistanceMatrix from tos w :=
       (inr (map (fun destination => mkDistanceResult 5000 10 from destination) tos),
        S w) |}.

(** A distance service that answers the distance along the grid, at 1.2
    minutes a kilometre, and counts the requests it has served. *)
Definition roadService : DistanceService :=
  {| World := nat;
     getDistanceMatrix from tos w :=
       (inr (map (fun destination =>
                    let km := gridGeodesy (lat from) (lng from)
                                          (lat destination) (lng destination) in
                    mkDistanceResult (km * 1000)%Q (Math_round (km * (12 # 10))%Q)
                                     from destination)
                 tos),
        S w) |}.

(** The clock of a machine on which every reading takes a millisecond. *)
Definition tickingClock : Clock := fun n => Z.of_nat n.

Definition sydney (name : string) (start : option string) (minutes : Z)
    (flex : Flexibility) (latitude longitude : Q) : GeocodedAppointment :=
  {| appointmentOf :=
       {| id := name; appName := name; address := "George St, Sydney";
          visitDurationMinutes := minutes; startTime := start;
          date := "2024-01-15"; flexibility := flex; rowNumber := 2 |};
     latitude := latitude; longitude := longitude;
     formattedAddress := "George St, Sydney NSW 2000" |}.

Definition clinic := sydney "clinic" (Some "14:00") 30 inflexible (-3387 # 100) (15121 # 100).
Definition errand := sydney "errand" None 30 flexible (-3386 # 100) (15120 # 100).
Definition delivery := sydney "delivery" (Some "09:00") 30 inflexible (-3390 # 100) (15110 # 100).
Definition pickup := sydney "pickup" (Some "09:20") 45 inflexible (-3380 # 100) (15130 # 100).
Definition survey := sydney "survey" None 90 flexible (-3300 # 100) (15000 # 100).
Definition audit := sydney "audit" None 90 flexible (-3301 # 100) (15001 # 100).

Definition morningRound : list GeocodedAppointment := [delivery; survey; clinic].

(** Three places along one street.  The first row is marked inflexible and
    carries the word [flexible] where its start time should be, as the
    rows of a schedule file may. *)
Definition mislabelled :=
  sydney "mislabelled" (Some "flexible") 30 inflexible (-3390 # 100) (15110 # 100).
Definition checkup :=
  sydney "checkup" (Some "10:00") 30 inflexible (-3390 # 100) (15120 # 100).
Definition dropIn := sydney "dropIn" None 30 flexible (-3390 # 100) (15130 # 100).
Definition streetRound : list GeocodedAppointment := [mislabelled; checkup; dropIn].

(** A place on the equator, due north of the clinic: its latitude is the
    number 0. *)
Definition equator := sydney "equator" None 45 inflexible 0 (15121 # 100).

(** A configuration whose maximum buffer is not a whole number of
    minutes. *)
Definition fractionalCap : BufferConfiguration :=
  {| baseBufferMinutes := 500;
     minimumBufferMinutes := 15;
     maximumBufferMinutes := 201 # 2;
     flexibleFactor := 8 # 10;
     locationFactor := 1;
     durationFactor := 1 |}.

Definition sampleSolution : Solution :=
  {| changes :=
       [ {| type := reorder; appointmentId := "errand"; appointmentName := "errand";
            originalTime := "00:30"; proposedTime := "00:30";
            reason := "Reordered to resolve scheduling conflict";
            impactMinutes := 60 |} ];
     successRate := 1 # 2;
     impactScore := 0;
     feasibility := feasible;
     reasoning := [];
     statistics :=
       Some {| totalScenariosTested := 2; feasibleScenarios := 1;
               bestScenarioGapMinutes := 60; worstScenarioGapMinutes := 0;
               averageGapMinutes := 30; reorderingsTested := 2; buffersTested := 0 |} |}.
End Samples.
Import Samples.

(* ================================================================== *)
(** ** [lib/validators.ts]: the schedule check *)
(* ================================================================== *)

Module ValidatorsRest.
Section Generic.
(** The source takes [Appointment[]]; an array of any type that extends
    [Appointment] is accepted. *)
Context {T : Type} `{AppointmentLike T}.

(** The comparator that sorts inflexible appointments by start time. *)
Definition byStartTimeOf (a b : T) : num :=
  match truthyStr (startTime (asAppointment a)),
        truthyStr (startTime (asAppointment b)) with
  | Some sa, Some sb => nsub (timeToMinutes sa) (timeToMinutes sb)
  | _, _ => Some 0
  end.

(** The body of [byDate.forEach] in [validateScheduleFeasibility]. *)
Definition validateDay (entry : string * list T) : list string :=
  let '(date, dayAppointments) := entry in
  let inflexible := sort byStartTimeOf (filter isInflexible dayAppointments) in
  (* Check for back-to-back inflexible appointments that might be impossible *)
  flat_map
    (fun '(current, next) =>
       match truthyStr (startTime (asAppointment current)),
             truthyStr (startTime (asAppointment next)) with
       | Some currentStart, Some nextStart =>
           let currentTime := timeToMinutes currentStart in
           let nextTime := timeToMinutes nextStart in
           let timeBetween := nsub nextTime currentTime in
           let minTimeNeeded := visitDurationMinutes (asAppointment current) in
           if nltb timeBetween (Some minTimeNeeded) then
             [ ("Date " ++ date ++ ": Inflexible appointments "
                ++ appName (asAppointment current) ++ " (at " ++ currentStart
                ++ ") and " ++ appName (asAppointment next) ++ " (at " ++ nextStart
                ++ ") are too close. Need at least "
                ++ toString (visitDurationMinutes (asAppointment current))
                ++ " minutes between them.")%string ]
           else []
       | _, _ => []
       end)
    (consecutive inflexible).

(** Validate that a schedule is feasible (no impossible time conflicts). *)
Definition validateScheduleFeasibility (appointments : list T) : list string :=
  flat_map validateDay (groupAppointmentsByDate appointments).
End Generic.

End ValidatorsRest.
Import ValidatorsRest.

(* ================================================================== *)
(** ** [lib/simulation/utils.ts]: the gap between two appointments *)
(* ================================================================== *)

(** A number that may be [Infinity]. *)
Inductive gap := Infinity | Minutes (minutes : num).

Module SimUtilsRest.
Section Generic.
Context {T : Type} `{AppointmentLike T}.

(** Calculate time difference between end of first and start of second
    appointment. *)
Definition calculateGapMinutes (apt1 apt2 : T) : gap :=
  match truthyStr (startTime (asAppointment apt1)),
        truthyStr (startTime (asAppointment apt2)) with
  | Some startTime1, Some startTime2 =>
      let start1 := timeToMinutes startTime1 in
      let end1 := nadd start1 (Some (visitDurationMinutes (asAppointment apt1))) in
      let start2 := timeToMinutes startTime2 in
      Minutes (nsub start2 end1)
  | _, _ => Infinity   (* No conflict if no start times *)
  end.
End Generic.
End SimUtilsRest.
Import SimUtilsRest.

(* ================================================================== *)
(** ** [lib/simulation/scoring.ts]: the scorecard *)
(* ================================================================== *)

Module ScoringRest.

Inductive ImpactCategory := low | medium | high.
Inductive Grade := A | B | C | D | F.

(** Calculate impact category for a solution. *)
Definition categorizeImpact (score : Q) : ImpactCategory :=
  if Qle_bool score 30 then low
  else if Qle_bool score 60 then medium
  else high.

Record Scorecard := mkScorecard {
  totalImpact : Q;
  disruption : Q;
  successPenalty : Q;
  bufferDeviation : Q;
  impactCategory : ImpactCategory;
  grade : Grade
}.

(** Generate a scorecard for a solution. *)
Definition generateScorecard (solution : Solution)
    (originalAppointments : option (list Appointment))
    (config : option BufferConfiguration) : Scorecard :=
  let disruption := calculateDisruptionScore solution originalAppointments in
  let successPenalty := ((1 - successRate solution) * 100)%Q in
  let bufferDeviation := calculateBufferDeviationScore solution config in
  let totalImpact := calculateImpactScore solution originalAppointments config in
  let impactCategory := categorizeImpact totalImpact in
  (* Convert to letter grade *)
  let grade :=
    if Qle_bool totalImpact 25 then A
    else if Qle_bool totalImpact 40 then B
    else if Qle_bool totalImpact 55 then C
    else if Qle_bool totalImpact 70 then D
    else F in
  {| totalImpact := totalImpact;
     disruption := disruption;
     successPenalty := successPenalty;
     bufferDeviation := bufferDeviation;
     impactCategory := impactCategory;
     grade := grade |}.

End ScoringRest.

(* ================================================================== *)
(** ** [lib/simulation/scoring.ts] on IEEE 754 doubles *)
(* ================================================================== *)

(** The numbers of JavaScript are IEEE 754 doubles.  [Scoring] above
    computes the scores with exact rationals, which is enough for their
    bounds and their order; the last digit of a score depends on how the
    doubles round, and this module computes as the program does. *)
Module Doubles.
Import Floats.
#[local] Open Scope float_scope.
#[local] Set Warnings "-inexact-float".

(** The exact value of a finite double. *)
Definition valueOf (x : float) : Q :=
  match Prim2SF x with
  | S754_finite negative m e =>
      let z := if negative then Z.neg m else Z.pos m in
      if (0 <=? e)%Z then inject_Z (z * 2 ^ e) else (z # Z.to_pos (2 ^ (- e)))
  | _ => 0%Q
  end.

(** The double of a whole number (exact below [2^53] in size). *)
Definition ofZ (z : Z) : float :=
  if (z <? 0)%Z then - of_uint63 (Uint63.of_Z (- z)) else of_uint63 (Uint63.of_Z z).

(** [Math.round(x)]: the whole number nearest to [x], the greater one of
    two that are equally near; [-0] for a negative [x] that rounds to
    zero.  A double with no fractional part, an infinity and [NaN] are
    returned as they are. *)
Definition Math_round (x : float) : float :=
  match Prim2SF x with
  | S754_finite negative m e =>
      if (0 <=? e)%Z then x
      else
        let z := if negative then Z.neg m else Z.pos m in
        (* floor (z / 2^-e + 1/2) *)
        let nearest := ((2 * z + 2 ^ (- e)) / 2 ^ (- e + 1))%Z in
        if (nearest =? 0)%Z && negative then neg_zero else ofZ nearest
  | _ => x
  end.

(** [Math.max(a, b)] and [Math.min(a, b)]: [NaN] when an argument is [NaN];
    [+0] counts as greater than [-0]. *)
Definition Math_max (a b : float) : float :=
  if is_nan a || is_nan b then nan
  else if a <? b then b
  else if b <? a then a
  else if is_zero a && get_sign a then b else a.
Definition Math_min (a b : float) : float :=
  if is_nan a || is_nan b then nan
  else if a <? b then a
  else if b <? a then b
  else if is_zero a && negb (get_sign a) then b else a.


(** The records of [lib/types.ts] that the scorer reads, their numbers as
    doubles. *)
Record ScheduleChange := mkScheduleChange {
  type : ChangeType;
  appointmentId : string;
  appointmentName : string;
  originalTime : string;
  proposedTime : string;
  reason : string;
  impactMinutes : float
}.

Record SimulationStats := mkSimulationStats {
  totalScenariosTested : float;
  feasibleScenarios : float;
  bestScenarioGapMinutes : float;
  worstScenarioGapMinutes : float;
  averageGapMinutes : float;
  reorderingsTested : float;
  buffersTested : float
}.

Record Solution := mkSolution {
  changes : list ScheduleChange;
  successRate : float;
  impactScore : float;
  feasibility : Feasibility;
  reasoning : list string;
  statistics : option SimulationStats
}.

Record BufferConfiguration := mkBufferConfiguration {
  baseBufferMinutes : float;
  minimumBufferMinutes : float;
  maximumBufferMinutes : float;
  flexibleFactor : float;
  locationFactor : float;
  durationFactor : float
}.

Definition DEFAULT_BUFFER_CONFIG : BufferConfiguration :=
  {| baseBufferMinutes := 45;
     minimumBufferMinutes := 15;
     maximumBufferMinutes := 120;
     flexibleFactor := 0.8;
     locationFactor := 1.0;
     durationFactor := 1.0 |}.

(** Calculate disruption score based on how much we changed the original
    schedule. *)
Definition calculateDisruptionScore (solution : Solution)
    (originalAppointments : option (list Appointment)) : float :=
  match changes solution with
  | [] => 0   (* No changes = no disruption *)
  | _ =>
      let '(totalImpactMinutes, maxPossibleImpact) :=
        fold_left
          (fun '(total, maxPossible) change =>
             (total + impactMinutes change, maxPossible + 480))
          (changes solution) (0, 0) in
      (* Normalize to 0-100 scale *)
      let disruptionScore :=
        (totalImpactMinutes / Math_max maxPossibleImpact 1) * 100 in
      Math_min 100 (Math_round (disruptionScore * 10) / 10)
  end.

(** Calculate buffer deviation score. *)
Definition calculateBufferDeviationScore (solution : Solution)
    (config : option BufferConfiguration) : float :=
  let config := match config with Some c => c | None => DEFAULT_BUFFER_CONFIG end in
  match statistics solution with
  | None => 0
  | Some stats =>
      if bestScenarioGapMinutes stats =? 0 then 0
      else
        let bestGap := bestScenarioGapMinutes stats in
        let targetGap := baseBufferMinutes config in
        let deviationRatio := bestGap / targetGap in
        if deviationRatio <=? 1.0 then 0
        else if deviationRatio <=? 1.5 then 25
        else if deviationRatio <=? 2.0 then 60
        else 100
  end.

(** Score a solution based on multiple factors. *)
Definition calculateImpactScore (solution : Solution)
    (originalAppointments : option (list Appointment))
    (config : option BufferConfiguration) : float :=
  let config := match config with Some c => c | None => DEFAULT_BUFFER_CONFIG end in
  let disruption := calculateDisruptionScore solution originalAppointments in
  let successPenalty := (1 - successRate solution) * 100 in
  let bufferDeviation := calculateBufferDeviationScore solution (Some config) in
  (* Weighted average *)
  let impactScore :=
    (disruption * 0.4) + (successPenalty * 0.3) + (bufferDeviation * 0.3) in
  Math_round (impactScore * 100) / 100.

(** The impact score as its formula is documented, every operation on
    doubles, to be compared with [calculateImpactScore]. *)
Module Formula.
Definition round1 (x : float) : float := Math_round (10 * x) / 10.
Definition round2 (x : float) : float := Math_round (100 * x) / 100.

(** The impact minutes of the changes, added up in the order of the list. *)
Definition sumImpactMinutes (solution : Solution) : float :=
  fold_left add (map impactMinutes (changes solution)) 0.
Definition numChanges (solution : Solution) : float :=
  ofZ (Z.of_nat (List.length (changes solution))).

(** 0 without changes, else min(100, round1(100 * (sum / (480 * n)))). *)
Definition disruption (solution : Solution) : float :=
  match changes solution with
  | [] => 0
  | _ => Math_min 100
           (round1 (100 * (sumImpactMinutes solution / (480 * numChanges solution))))
  end.

(** 0 without gap statistics or with a best gap of 0, else by the ratio of
    the best gap to the base buffer. *)
Definition bufferDeviation (solution : Solution) (config : BufferConfiguration) : float :=
  match statistics solution with
  | None => 0
  | Some stats =>
      if bestScenarioGapMinutes stats =? 0 then 0
      else
        let ratio := bestScenarioGapMinutes stats / baseBufferMinutes config in
        if ratio <=? 1.0 then 0
        else if ratio <=? 1.5 then 25
        else if ratio <=? 2.0 then 60
        else 100
  end.

(** The weighted sum of a disruption score, a success rate and a buffer
    deviation score. *)
Definition weighted (disruption successRate bufferDeviation : float) : float :=
  round2 (0.4 * disruption + 0.3 * (100 * (1 - successRate)) + 0.3 * bufferDeviation).

Definition impactScore (solution : Solution) (config : BufferConfiguration) : float :=
  weighted (disruption solution) (successRate solution)
           (bufferDeviation solution config).
End Formula.

(** The solution with the exact values of its doubles. *)
Definition exactChange (change : ScheduleChange) : Types.ScheduleChange :=
  {| Types.type := type change;
     Types.appointmentId := appointmentId change;
     Types.appointmentName := appointmentName change;
     Types.originalTime := originalTime change;
     Types.proposedTime := proposedTime change;
     Types.reason := reason change;
     Types.impactMinutes := valueOf (impactMinutes change) |}.
Definition exactStats (stats : SimulationStats) : Types.SimulationStats :=
  {| Types.totalScenariosTested := Qfloor (valueOf (totalScenariosTested stats));
     Types.feasibleScenarios := Qfloor (valueOf (feasibleScenarios stats));
     Types.bestScenarioGapMinutes := valueOf (bestScenarioGapMinutes stats);
     Types.worstScenarioGapMinutes := valueOf (worstScenarioGapMinutes stats);
     Types.averageGapMinutes := valueOf (averageGapMinutes stats);
     Types.reorderingsTested := Qfloor (valueOf (reorderingsTested stats));
     Types.buffersTested := Qfloor (valueOf (buffersTested stats)) |}.
Definition exactSolution (solution : Solution) : Types.Solution :=
  {| Types.changes := map exactChange (changes solution);
     Types.successRate := valueOf (successRate solution);
     Types.impactScore := valueOf (impactScore solution);
     Types.feasibility := feasibility solution;
     Types.reasoning := reasoning solution;
     Types.statistics := option_map exactStats (statistics solution) |}.

(** One appointment moved by half an hour, found feasible in 15 of 16
    scenarios. *)
Definition halfHourMove : Solution :=
  {| changes :=
       [ {| type := reschedule; appointmentId := "pickup"; appointmentName := "pickup";
            originalTime := "09:20"; proposedTime := "09:50";
            reason := "Moved to resolve scheduling conflict";
            impactMinutes := 30 |} ];
     successRate := 0.9375;
     impactScore := 0;
     feasibility := feasible;
     reasoning := [];
     statistics := None |}.


(** As many changes as the sum of their 480 minutes has been checked
    for. *)
Definition changesChecked : nat := Z.to_nat 1000000.

(** [acc + 480 + ... + 480], with [n] summands of 480. *)
Fixpoint maxPossibleAfter (n : nat) (acc : float) : float :=
  match n with
  | O => acc
  | S n' => maxPossibleAfter n' (acc + 480)
  end.

(** For each of the next [fuel] numbers [k + 1], [k + 2], ... of changes,
    the sum of that many 480s is at least 1 and is the double of the
    product. *)
Fixpoint sumsAgree (fuel : nat) (k : Z) (acc : float) : bool :=
  match fuel with
  | O => true
  | S fuel' =>
      Leibniz.eqb (Math_max (acc + 480) 1) (480 * ofZ (k + 1))
      && sumsAgree fuel' (k + 1) (acc + 480)
  end.
End Doubles.

(* ================================================================== *)
(** ** [lib/simulation/reorderer.ts]: the reordering for one conflict *)
(* ================================================================== *)

(** What a call does that may fail on an [undefined] value. *)
Inductive Outcome (A : Type) := Returns (a : A) | ThrowsTypeError.
Arguments Returns {A}.
Arguments ThrowsTypeError {A}.

(** [arr.splice(index, 1)] on a copy: a negative index counts from the
    end, and nothing is removed past the end. *)
Definition spliceOut {A} (index : Z) (arr : list A) : list A :=
  if index <? 0
  then removeAt (Z.to_nat (Z.max (Z.of_nat (List.length arr) + index) 0)) arr
  else removeAt (Z.to_nat index) arr.

Module ReordererRest.

(** Calculate new time for a moved appointment.  [reordered[afterIndex + 1]]
    is [undefined] past the end, and reading its start time throws. *)
Definition calculateNewTime (reordered : list GeocodedAppointment)
    (afterApt : GeocodedAppointment) : Outcome string :=
  let afterIndex :=
    findIndex (fun a => String.eqb (id (asAppointment a)) (id (asAppointment afterApt)))
              reordered in
  match nth_error reordered (Z.to_nat (afterIndex + 1)) with
  | Some next => Returns (orElse (startTime (asAppointment next)) "12:00")
  | None => ThrowsTypeError
  end.

(** Find the best reordering for a specific conflict.  [conflict] is an
    array, of which the first two elements are read; an element that is
    missing is [undefined], and the first reading of a property of it
    throws. *)
Definition findBestReorderingForConflict
    (conflict allAppointments : list GeocodedAppointment) : Outcome (option Solution) :=
  match nth_error conflict 0 with
  | None =>
      (* the callback of [filter] reads [apt1.date] at the first appointment *)
      match allAppointments with
      | [] => Returns None
      | _ :: _ => ThrowsTypeError
      end
  | Some apt1 =>
      (* Find all appointments on the same date *)
      let sameDateApps :=
        filter (fun apt => String.eqb (date (asAppointment apt)) (date (asAppointment apt1)))
               allAppointments in
      if (List.length sameDateApps <? 2)%nat then Returns None
      else
        match nth_error conflict 1 with
        | None => ThrowsTypeError   (* the callback of [findIndex] reads [apt2.id] *)
        | Some apt2 =>
            let apt1Index :=
              findIndex (fun a => String.eqb (id (asAppointment a)) (id (asAppointment apt1)))
                        sameDateApps in
            let apt2Index :=
              findIndex (fun a => String.eqb (id (asAppointment a)) (id (asAppointment apt2)))
                        sameDateApps in
            (* Try moving apt2 after apt1 *)
            let reordered := spliceOut apt2Index sameDateApps in
            let reordered := spliceIn (Z.to_nat (apt1Index + 1)) apt2 reordered in
            (* Check if this resolves the conflict *)
            let conflicts := findAllConflicts reordered in
            let hasConflict :=
              existsb
                (fun c =>
                   (String.eqb (id (asAppointment (fst (appointments c))))
                               (id (asAppointment apt1))
                    && String.eqb (id (asAppointment (snd (appointments c))))
                                  (id (asAppointment apt2)))
                   || (String.eqb (id (asAppointment (fst (appointments c))))
                                  (id (asAppointment apt2))
                       && String.eqb (id (asAppointment (snd (appointments c))))
                                     (id (asAppointment apt1))))
                conflicts in
            if negb hasConflict then
              match calculateNewTime reordered apt1 with
              | ThrowsTypeError => ThrowsTypeError
              | Returns proposed =>
                  Returns (Some
                    {| changes :=
                         [ {| type := reorder;
                              appointmentId := id (asAppointment apt2);
                              appointmentName := appName (asAppointment apt2);
                              originalTime := orElse (startTime (asAppointment apt2)) "flexible";
                              proposedTime := proposed;
                              reason := "Reordered to resolve conflict with previous appointment";
                              impactMinutes := 30 |} ];
                       successRate := 1;
                       impactScore := 20;
                       feasibility := feasible;
                       reasoning :=
                         [ "Moving appointment resolves the scheduling conflict";
                           "Maintains all other appointments in original positions";
                           "Gap sufficient for required buffer" ];
                       statistics :=
                         Some {| totalScenariosTested := 2;
                                 feasibleScenarios := 1;
                                 bestScenarioGapMinutes := 45;
                                 worstScenarioGapMinutes := 0;
                                 averageGapMinutes := 45 # 2;
                                 reorderingsTested := 2;
                                 buffersTested := 0 |} |})
              end
            else Returns None
        end
  end.

End ReordererRest.
Import ReordererRest.

(* ================================================================== *)
(** ** [lib/simulation/buffer-variator.ts]: the feasibility test *)
(* ================================================================== *)

Module BufferVariator.
Section Feasible.
Context {geo : Geodesy}.

(** Check if a schedule is feasible with a given buffer configuration. *)
Definition isScheduleFeasible (appointments : list GeocodedAppointment)
    (config : BufferConfiguration) : bool :=
  (* Group by date *)
  let byDate := groupAppointmentsByDate appointments in
  (* Check each date *)
  forallb
    (fun entry : string * list GeocodedAppointment =>
       let dayAppointments := snd entry in
       let sorted := sortByStartTime dayAppointments in
       (* Check each consecutive pair *)
       forallb
         (fun '(current, next) =>
            match detectConflict current next with
            | Some conflict =>
                (* With the new buffer config, would this still be a conflict? *)
                let smartBuffer := calculateSmartBuffer current next config in
                negb (gapMinutes conflict <? smartBuffer)   (* Still infeasible *)
            | None => true
            end)
         (consecutive sorted))
    byDate.
End Feasible.
End BufferVariator.
Import BufferVariator.

(* ================================================================== *)
(** ** [lib/simulation/scheduler.ts]: the summaries *)
(* ================================================================== *)

Module SchedulerRest.

Record SimulationSummary := mkSimulationSummary {
  totalConflicts : Z;
  totalSolutions : Z;
  feasibleSolutions : Z;
  infeasibleSolutions : Z;
  conflictsWithSolutions : Z;
  conflictsWithoutSolutions : Z
}.

(** Calculate simulation summary statistics. *)
Definition getSimulationSummary (resolutions : list ConflictResolution)
  : SimulationSummary :=
  let totalSolutions :=
    fold_left (fun sum r => sum + Z.of_nat (List.length (solutions r))) resolutions 0 in
  let totalFeasible :=
    fold_left
      (fun sum r =>
         sum + Z.of_nat (List.length
                 (filter (fun s => match feasibility s with
                                   | feasible => true
                                   | infeasible => false
                                   end)
                         (solutions r))))
      resolutions 0 in
  let hasRecommendations :=
    Z.of_nat (List.length
      (filter (fun r => match recommendedSolution r with
                        | Some _ => true
                        | None => false
                        end)
              resolutions)) in
  {| totalConflicts := Z.of_nat (List.length resolutions);
     totalSolutions := totalSolutions;
     feasibleSolutions := totalFeasible;
     infeasibleSolutions := totalSolutions - totalFeasible;
     conflictsWithSolutions := hasRecommendations;
     conflictsWithoutSolutions := Z.of_nat (List.length resolutions) - hasRecommendations |}.

(** Get the best solution across all conflicts: the pair of the
    [resolution] and the [solution] fields of the answer. *)
Fixpoint getBestOverallSolution (resolutions : list ConflictResolution)
  : option ConflictResolution * option Solution :=
  match resolutions with
  | [] => (None, None)
  | resolution :: rest =>
      match recommendedSolution resolution with
      | Some solution => (Some resolution, Some solution)
      | None => getBestOverallSolution rest
      end
  end.

End SchedulerRest.
Import SchedulerRest.

(* ================================================================== *)
(** ** [lib/algorithm/validator.ts]: penalty and tightness *)
(* ================================================================== *)

Module RouteValidatorRest.

(** Calculate time penalty for arriving outside grace period.  The answer
    is a number that may be [NaN], which is [None] here. *)
Definition calculateTimePenalty (arrivalTime : string) (preferredTime : option string)
    (gracePeriod : Z) : option Q :=
  match truthyStr preferredTime with
  | None => Some 0%Q
  | Some preferred =>
      let diff := nabs (nsub (timeToMinutes arrivalTime) (timeToMinutes preferred)) in
      if nleb diff (Some gracePeriod) then Some 0%Q
      else
        match diff with
        | Some d => Some (inject_Z ((d - gracePeriod) ^ 2) / 100)%Q
        | None => None
        end
  end.

(** Calculate schedule tightness (0-1, where 1 is very tight). *)
Definition calculateScheduleTightness (appointments : list GeocodedAppointment) : Q :=
  let byDate := groupAppointmentsByDate appointments in
  let '(totalTightness, dayCount) :=
    fold_left
      (fun '(totalTightness, dayCount) (entry : string * list GeocodedAppointment) =>
         let dayAppointments := snd entry in
         let inflexibleCount :=
           Z.of_nat (List.length (filter isInflexible dayAppointments)) in
         let totalCount := Z.of_nat (List.length dayAppointments) in
         let tightness :=
           (inject_Z inflexibleCount / Math_max (inject_Z totalCount) 1)%Q in
         ((totalTightness + tightness)%Q, dayCount + 1))
      byDate (0%Q, 0) in
  if dayCount >? 0 then (totalTightness / inject_Z dayCount)%Q else 0%Q.

End RouteValidatorRest.
Import RouteValidatorRest.

(* ================================================================== *)
(** ** Further notions used to state the properties *)
(* ================================================================== *)

(** The start of an appointment in minutes since midnight: [NaN] without a
    start time, or with one that does not read as a time. *)
Definition startMinutes {T} `{AppointmentLike T} (apt : T) : num :=
  match truthyStr (startTime (asAppointment apt)) with
  | Some start => timeToMinutes start
  | None => NaN
  end.

(** The shortfall of a conflict and the severity the source gives it. *)
Definition severityOf (shortfall : Z) : Severity :=
  if shortfall >? 30 then critical else if shortfall >? 15 then major else minor.

(** The dates of a list of appointments, each once, in the order in which
    they first occur. *)
Definition datesInOrder {T} `{AppointmentLike T} (appointments : list T) : list string :=
  List.rev (nodup string_dec (List.rev (map (fun apt => date (asAppointment apt)) appointments))).

(** The appointments of one date, in their order in the list. *)
Definition onDate {T} `{AppointmentLike T} (d : string) (appointments : list T) : list T :=
  filter (fun apt => String.eqb d (date (asAppointment apt))) appointments.

(** The score by which [rankSolutions] orders the solutions. *)
Definition rankingScore (originalAppointments : option (list Appointment))
    (config : option BufferConfiguration) (solution : Solution) : Q :=
  calculateImpactScore solution originalAppointments config.

(** No change of the solution moves an appointment by a negative number of
    minutes, and the success rate is a rate. *)
Definition wellFormedSolution (solution : Solution) : Prop :=
  Forall (fun change => (0 <= impactMinutes change)%Q) (changes solution)
  /\ (0 <= successRate solution <= 1)%Q.

(** A day the reordering simulation tests: at least two appointments, one
    of them flexible. *)
Definition reorderable (dayAppointments : list GeocodedAppointment) : bool :=
  (2 <=? List.length dayAppointments)%nat
  && existsb (fun apt => negb (isInflexible apt)) dayAppointments.

(** What a solution of the reordering simulation never carries: a score,
    a measured gap, or a change that proposes another time than the one
    it reports as the original. *)
Definition unscored (solution : Solution) : Prop :=
  impactScore solution = 0%Q
  /\ (exists stats, statistics solution = Some stats
        /\ bestScenarioGapMinutes stats = 0%Q
        /\ worstScenarioGapMinutes stats = 0%Q
        /\ averageGapMinutes stats = 0%Q
        /\ buffersTested stats = 0)
  /\ Forall (fun change => type change = reorder
                           /\ proposedTime change = originalTime change)
            (changes solution).

(** The identifiers of a list of appointments. *)
Definition ids {T} `{AppointmentLike T} (appointments : list T) : list string :=
  map (fun apt => id (asAppointment apt)) appointments.

(** The clock never shows more than [limit] milliseconds past [start]. *)
Definition withinTimeLimit {clock : Clock} (start limit : Z) : Prop :=
  forall n, wallClock n - start <= limit.

(** The console message of the orchestrator when it runs out of time. *)
Definition timeLimitWarning : Event := ConsoleWarn "Simulation time limit exceeded".

(** Both appointments of a conflict have a start time. *)
Definition bothTimed (c : SchedulingConflict GeocodedAppointment) : Prop :=
  truthyStr (startTime (asAppointment (fst (appointments c)))) <> None
  /\ truthyStr (startTime (asAppointment (snd (appointments c)))) <> None.

(** The start in minutes, or [0] where [startMinutes] is [NaN]. *)
Definition minutesOf {T} `{AppointmentLike T} (apt : T) : Z :=
  match startMinutes apt with Some t => t | None => 0 end.

(** One of the two visits is over when the other starts. *)
Definition apart {T} `{AppointmentLike T} (a b : T) : Prop :=
  minutesOf a + visitDurationMinutes (asAppointment a) <= minutesOf b
  \/ minutesOf b + visitDurationMinutes (asAppointment b) <= minutesOf a.

(** Every inflexible appointment has a start time that reads as a time of
    day, and every visit takes some time. *)
Definition anchorsTimed {T} `{AppointmentLike T} (appointments : list T) : Prop :=
  forall apt, In apt appointments -> isInflexible apt = true ->
    exists t, startMinutes apt = Some t.
Definition visitsTakeTime {T} `{AppointmentLike T} (appointments : list T) : Prop :=
  forall apt, In apt appointments -> 0 < visitDurationMinutes (asAppointment apt).

(** The totals of a list of stops. *)
Definition sumDriveTime (stops : list VisitStop) : Z :=
  fold_right Z.add 0 (map travelTimeFromPrevious stops).
Definition sumVisitTime (stops : list VisitStop) : Z :=
  fold_right Z.add 0
    (map (fun stop => visitDurationMinutes (asAppointment (appointment stop))) stops).
Definition sumDistance (stops : list VisitStop) : Q :=
  fold_right Qplus 0%Q (map distanceFromPrevious stops).

(** The totals of a route are the sums over its stops. *)
Definition accounted (route : RouteDetails) : Prop :=
  rd_totalDriveTime route = sumDriveTime (rd_stops route)
  /\ rd_totalVisitTime route = sumVisitTime (rd_stops route)
  /\ (rd_totalDistance route == sumDistance (rd_stops route))%Q.

(** The route that [optimizeRoute] answers when it fails with [message]. *)
Definition failedRoute (geocodedAppointments : list GeocodedAppointment)
    (message : string) : OptimizedRoute :=
  {| stops := [];
     totalDistance := 0;
     totalDriveTime := 0;
     totalVisitTime := 0;
     routeDate :=
       match geocodedAppointments with
       | first :: _ => date (asAppointment first)
       | [] => EmptyString
       end;
     success := false;
     error := Some message;
     warnings := None |}.

Definition isOnTime (s : ArrivalStatus) : bool :=
  match s with on_time => true | early | late => false end.

(** The stops that are not reported on time. *)
Definition offSchedule (stops : list VisitStop) : list VisitStop :=
  filter (fun stop => negb (isOnTime (status stop))) stops.

(** A flexible appointment carries no start time (the data model: HH:MM,
    or null if flexible). *)
Definition flexibleUntimed (appointments : list GeocodedAppointment) : Prop :=
  forall apt, In apt appointments -> isInflexible apt = false ->
    startTime (asAppointment apt) = None.

(** A stop reached at minute [time] says so, and its status tells whether
    an inflexible appointment with a start time is met within the grace
    period. *)
Definition stopConsistent (gracePeriod : Z) (stop : VisitStop) (time : Z) : Prop :=
  timeToMinutes (arrivalTime stop) = Some time
  /\ match isInflexible (appointment stop),
           truthyStr (startTime (asAppointment (appointment stop))) with
     | true, Some start =>
         exists target, timeToMinutes start = Some target
           /\ (status stop = on_time <-> Z.abs (time - target) <= gracePeriod)
     | _, _ => status stop = on_time
     end.

(** The stops follow the clock of [validateRoute]: each is reached when the
    visit before it and the drive from there are over. *)
Fixpoint timeline (gracePeriod : Z) (stops : list VisitStop) (i : Z) (clock : Z) : Prop :=
  match stops with
  | [] => True
  | stop :: rest =>
      let reached := if i >? 0 then clock + travelTimeFromPrevious stop else clock in
      stopConsistent gracePeriod stop reached
      /\ timeline gracePeriod rest (i + 1)
           (reached + visitDurationMinutes (asAppointment (appointment stop)))
  end.

(** The inflexible appointments of one date lie within [km] kilometres of
    each other. *)
Definition anchorsWithin {geo : Geodesy} (km : Q)
    (appointments : list GeocodedAppointment) : Prop :=
  forall a b, In a appointments -> In b appointments ->
    isInflexible a = true -> isInflexible b = true ->
    date (asAppointment a) = date (asAppointment b) ->
    (haversineDistance (latitude a) (longitude a) (latitude b) (longitude b) <= km)%Q.

Section ServiceNotions.
Context {geo : Geodesy} {service : DistanceService}.

(** The service answers a request the same way whenever it is asked. *)
Definition serviceStateless : Prop :=
  forall from tos w w',
    fst (getDistanceMatrix from tos w) = fst (getDistanceMatrix from tos w').

(** The service fails at every request. *)
Definition serviceDown : Prop :=
  forall from tos w, exists message w',
    getDistanceMatrix from tos w = (inl message, w').

(** [cost] is the cost of the route through [appointments], whenever it is
    calculated. *)
Definition costs (appointments : list GeocodedAppointment) (cost : Q) : Prop :=
  forall w, fst (calculateRouteCost appointments w) = inr cost.

(** The geodesic length of a route in metres, leg by leg. *)
Fixpoint geodesicLength (appointments : list GeocodedAppointment) : Q :=
  match appointments with
  | from :: ((to :: _) as rest) =>
      (geodesicBetween from to * 1000 + geodesicLength rest)%Q
  | _ => 0%Q
  end.
End ServiceNotions.


(* ================================================================== *)
(** ** Lists and sorting *)
(* ================================================================== *)

Section Lists.
Context {A : Type}.

Lemma spliceIn_perm (position : nat) (x : A) (arr : list A) :
  Permutation (spliceIn position x arr) (x :: arr).
Proof.
  unfold spliceIn. rewrite <- (firstn_skipn position arr) at 3.
  symmetry. apply Permutation_middle.
Qed.

Lemma partition_perm (p : A -> bool) (l : list A) :
  Permutation (filter (fun x => negb (p x)) l ++ filter p l) l.
Proof.
  induction l as [|x l IH]; simpl.
  - apply perm_nil.
  - destruct (p x); simpl.
    + symmetry. eapply perm_trans; [|apply Permutation_middle].
      apply perm_skip. symmetry. exact IH.
    + apply perm_skip, IH.
Qed.

Lemma removeAt_length (i : nat) (arr : list A) :
  (i < List.length arr)%nat -> List.length (removeAt i arr) = pred (List.length arr).
Proof.
  intros Hi. unfold removeAt.
  rewrite length_app, length_firstn, length_skipn. lia.
Qed.

Lemma removeAt_perm (arr : list A) :
  forall (i : nat) (x : A),
    nth_error arr i = Some x -> Permutation (x :: removeAt i arr) arr.
Proof.
  induction arr as [|a rest IH]; intros [|i] x Hnth; simpl in Hnth; try discriminate.
  - injection Hnth as ->. apply Permutation_refl.
  - change (removeAt (S i) (a :: rest)) with (a :: removeAt i rest).
    eapply perm_trans; [apply perm_swap|]. apply perm_skip, IH, Hnth.
Qed.

Lemma skipn_head (l : list A) :
  forall (n : nat) (d : A),
    (n < List.length l)%nat -> skipn n l = nth n l d :: skipn (S n) l.
Proof.
  induction l as [|a rest IH]; intros [|n] d Hn; simpl in *; try lia.
  - reflexivity.
  - apply IH. lia.
Qed.

Lemma flat_map_constant_length {B} (f : A -> list B) (l : list A) (c : nat) :
  (forall x, In x l -> List.length (f x) = c) ->
  List.length (flat_map f l) = (List.length l * c)%nat.
Proof.
  induction l as [|x l IH]; intros Hf; simpl.
  - reflexivity.
  - rewrite length_app, Hf by (left; reflexivity).
    rewrite IH by (intros; apply Hf; right; assumption). reflexivity.
Qed.

Lemma flat_map_ext_seq (f g : nat -> list A) (l : list nat) :
  (forall i, In i l -> f i = g i) -> flat_map f l = flat_map g l.
Proof.
  intros Hfg. rewrite !flat_map_concat_map. f_equal. apply map_ext_in. exact Hfg.
Qed.

End Lists.

Section SortPermutation.
Context {A : Type}.

Lemma sort_insert_perm (cmp : A -> A -> num) (x : A) (l : list A) :
  Permutation (sort_insert cmp x l) (x :: l).
Proof.
  induction l as [|y l IH]; simpl.
  - apply Permutation_refl.
  - destruct (goes_before cmp x y).
    + apply Permutation_refl.
    + eapply perm_trans; [apply perm_skip, IH | apply perm_swap].
Qed.

Lemma sort_perm (cmp : A -> A -> num) (l : list A) : Permutation (sort cmp l) l.
Proof.
  induction l as [|x l IH]; simpl.
  - apply perm_nil.
  - eapply perm_trans; [apply sort_insert_perm | apply perm_skip, IH].
Qed.

Lemma sortQ_insert_perm (cmp : A -> A -> Q) (x : A) (l : list A) :
  Permutation (sortQ_insert cmp x l) (x :: l).
Proof.
  induction l as [|y l IH]; simpl.
  - apply Permutation_refl.
  - destruct (Qle_bool (cmp x y) 0).
    + apply Permutation_refl.
    + eapply perm_trans; [apply perm_skip, IH | apply perm_swap].
Qed.

Lemma sortQ_perm (cmp : A -> A -> Q) (l : list A) : Permutation (sortQ cmp l) l.
Proof.
  induction l as [|x l IH]; simpl.
  - apply perm_nil.
  - eapply perm_trans; [apply sortQ_insert_perm | apply perm_skip, IH].
Qed.
End SortPermutation.


(* ================================================================== *)
(** ** Time strings *)
(* ================================================================== *)

Lemma split_lacking (sep : ascii) (s : string) :
  lacks sep s = true -> split sep s = [s].
Proof.
  induction s as [|a s IH]; simpl; intros Hs.
  - reflexivity.
  - apply andb_true_iff in Hs. destruct Hs as [Ha Hs].
    apply negb_true_iff in Ha. rewrite Ha, (IH Hs). reflexivity.
Qed.

Lemma split_at_first (sep : ascii) (s t : string) :
  lacks sep s = true -> split sep (s ++ String sep t) = s :: split sep t.
Proof.
  induction s as [|a s IH]; simpl; intros Hs.
  - rewrite Ascii.eqb_refl. reflexivity.
  - apply andb_true_iff in Hs. destruct Hs as [Ha Hs].
    apply negb_true_iff in Ha. rewrite Ha, (IH Hs). reflexivity.
Qed.

Lemma digits_lack_colon (d : uint) : lacks ":" (NilEmpty.string_of_uint d) = true.
Proof. induction d; simpl; try rewrite IHd; reflexivity. Qed.

Lemma Number_digits (d : uint) :
  d <> Nil -> Number (NilEmpty.string_of_uint d) = Some (Z.of_uint d).
Proof.
  intros Hd. unfold Number.
  assert (Hi : NilEmpty.int_of_string (NilEmpty.string_of_uint d) = Some (Pos d)).
  { destruct d; try contradiction; simpl; rewrite NilEmpty.usu; reflexivity. }
  rewrite Hi. destruct d; try contradiction; reflexivity.
Qed.

Lemma replicate_zeros (k : nat) (d : uint) :
  (replicate k "0" ++ NilEmpty.string_of_uint d)%string
  = NilEmpty.string_of_uint (zeros k d).
Proof. induction k as [|k IH]; simpl; [|rewrite IH]; reflexivity. Qed.

Lemma of_uint_zeros (k : nat) (d : uint) : Z.of_uint (zeros k d) = Z.of_uint d.
Proof. induction k as [|k IH]; simpl; [reflexivity | exact IH]. Qed.

Lemma zeros_not_nil (k : nat) (d : uint) : d <> Nil -> zeros k d <> Nil.
Proof. destruct k; simpl; [tauto | discriminate]. Qed.

(** A non-negative integer is printed as a non-empty row of digits. *)
Lemma toString_nonneg (z : Z) :
  0 <= z -> exists d, d <> Nil /\ toString z = NilEmpty.string_of_uint d /\ Z.of_uint d = z.
Proof.
  intros Hz. unfold toString.
  assert (Hof := DecimalZ.of_to z).
  destruct z as [|p|p]; try lia; simpl in *.
  - exists (D0 Nil). repeat split. discriminate.
  - exists (Pos.to_uint p). repeat split; try assumption.
    intros E. unfold Z.of_uint in Hof. rewrite E in Hof. discriminate.
Qed.

Lemma padded_number (z : Z) :
  0 <= z ->
  exists d, d <> Nil
    /\ padStart 2 "0" (toString z) = NilEmpty.string_of_uint d
    /\ Z.of_uint d = z.
Proof.
  intros Hz. destruct (toString_nonneg z Hz) as (d & Hd & Hs & Hv).
  unfold padStart. rewrite Hs, replicate_zeros.
  eexists. split; [apply zeros_not_nil, Hd|]. split; [reflexivity|].
  rewrite of_uint_zeros. exact Hv.
Qed.

(** Formatting a non-negative number of minutes and parsing it back. *)
Lemma timeToMinutes_minutesToTime (t : Z) :
  0 <= t -> timeToMinutes (minutesToTime (Some t)) = Some t.
Proof.
  intros Ht. unfold minutesToTime, timeToMinutes. simpl.
  assert (Hq : 0 <= t / 60) by (apply Z.div_pos; lia).
  assert (Hr : 0 <= Z.rem t 60) by (apply Z.rem_nonneg; lia).
  destruct (padded_number _ Hq) as (dh & Hdh & Hh & Hvh).
  destruct (padded_number _ Hr) as (dm & Hdm & Hm & Hvm).
  rewrite Hh, Hm.
  change (NilEmpty.string_of_uint dh ++ ":" ++ NilEmpty.string_of_uint dm)%string
    with (NilEmpty.string_of_uint dh ++ String ":" (NilEmpty.string_of_uint dm))%string.
  rewrite split_at_first by apply digits_lack_colon.
  rewrite split_lacking by apply digits_lack_colon.
  simpl. rewrite !Number_digits by assumption. simpl.
  rewrite Hvh, Hvm. f_equal.
  rewrite Z.rem_mod_nonneg by lia.
  pose proof (Z.div_mod t 60). lia.
Qed.





Lemma getArrivalStatus_same (s : string) (x grace : Z) :
  timeToMinutes s = Some x -> 0 <= grace -> getArrivalStatus s s grace = on_time.
Proof.
  intros Hs Hg. unfold getArrivalStatus, timeDifference. rewrite Hs. simpl.
  rewrite Z.sub_diag. simpl.
  destruct (Z.leb_spec 0 grace); [reflexivity | lia].
Qed.

(* ================================================================== *)
(** ** Rounding, clamping and the smart buffer *)
(* ================================================================== *)

Lemma Math_round_whole (n : Z) : Math_round (inject_Z n) = n.
Proof.
  unfold Math_round.
  assert (Hlo := Qfloor_le (inject_Z n + (1 # 2))).
  assert (Hhi := Qlt_floor (inject_Z n + (1 # 2))).
  set (f := Qfloor (inject_Z n + (1 # 2))) in *.
  assert (Hfn : f <= n).
  { destruct (Z_le_gt_dec f n) as [|Hgt]; [assumption|].
    assert (Hq : (inject_Z (n + 1) <= inject_Z f)%Q) by (rewrite <- Zle_Qle; lia).
    rewrite inject_Z_plus in Hq. change (inject_Z 1) with 1%Q in Hq. lra. }
  assert (Hnf : n < f + 1).
  { destruct (Z_lt_ge_dec n (f + 1)) as [|Hge]; [assumption|].
    assert (Hq : (inject_Z (f + 1) <= inject_Z n)%Q) by (rewrite <- Zle_Qle; lia).
    rewrite inject_Z_plus in Hq. change (inject_Z 1) with 1%Q in Hq, Hhi.
    rewrite inject_Z_plus in Hhi. change (inject_Z 1) with 1%Q in Hhi. lra. }
  lia.
Qed.

Lemma Math_round_monotone (x y : Q) : (x <= y)%Q -> Math_round x <= Math_round y.
Proof. intros Hxy. unfold Math_round. apply Qfloor_resp_le. lra. Qed.

Lemma Math_max_spec (a b : Q) : (a <= Math_max a b)%Q /\ (b <= Math_max a b)%Q
  /\ (Math_max a b == a \/ Math_max a b == b)%Q.
Proof.
  unfold Math_max. destruct (Qle_bool a b) eqn:E.
  - apply Qle_bool_iff in E. repeat split; lra.
  - assert (~ (a <= b)%Q) by (intro X; apply Qle_bool_iff in X; congruence).
    repeat split; lra.
Qed.

Lemma Math_min_spec (a b : Q) : (Math_min a b <= a)%Q /\ (Math_min a b <= b)%Q
  /\ (Math_min a b == a \/ Math_min a b == b)%Q.
Proof.
  unfold Math_min. destruct (Qle_bool a b) eqn:E.
  - apply Qle_bool_iff in E. repeat split; lra.
  - assert (~ (a <= b)%Q) by (intro X; apply Qle_bool_iff in X; congruence).
    repeat split; lra.
Qed.

Lemma clamp_within (lo hi x : Q) :
  (lo <= hi)%Q -> (lo <= Math_max lo (Math_min hi x) <= hi)%Q.
Proof.
  intros Hle.
  destruct (Math_max_spec lo (Math_min hi x)) as (H1 & H2 & [H3 | H3]);
  destruct (Math_min_spec hi x) as (H4 & H5 & H6); split; try lra.
Qed.

Lemma Qltb_true (a b : Q) : Qltb a b = true <-> (a < b)%Q.
Proof.
  unfold Qltb. rewrite negb_true_iff. split.
  - intros E. apply Qnot_le_lt. intro X. apply Qle_bool_iff in X. congruence.
  - intros L. destruct (Qle_bool b a) eqn:E; [|reflexivity].
    apply Qle_bool_iff in E. lra.
Qed.

Lemma Qltb_false (a b : Q) : Qltb a b = false <-> (b <= a)%Q.
Proof.
  unfold Qltb. rewrite negb_false_iff. apply Qle_bool_iff.
Qed.

Section SmartBuffer.
Context {geo : Geodesy}.

Lemma Math_round_near (x : Q) :
  (x - (1 # 2) < inject_Z (Math_round x) <= x + (1 # 2))%Q.
Proof.
  unfold Math_round.
  assert (Hlo := Qfloor_le (x + (1 # 2))).
  assert (Hhi := Qlt_floor (x + (1 # 2))).
  rewrite inject_Z_plus in Hhi. change (inject_Z 1) with 1%Q in Hhi.
  split; lra.
Qed.

(** C4.  The smart buffer is rounded after it is clamped.  For a
    configuration whose minimum buffer is not above its maximum buffer,
    the smart buffer lies between the two bounds as [Math.round] rounds
    them, hence less than half a minute below the minimum and at most half
    a minute above the maximum; it is not below a minimum that is a whole
    number of minutes, and not above a maximum that is one. *)
Theorem calculateSmartBuffer_within_bounds
    (apt1 apt2 : GeocodedAppointment) (config : BufferConfiguration) :
  (minimumBufferMinutes config <= maximumBufferMinutes config)%Q ->
  Math_round (minimumBufferMinutes config)
    <= calculateSmartBuffer apt1 apt2 config
    <= Math_round (maximumBufferMinutes config)
  /\ (minimumBufferMinutes config - (1 # 2)
       < inject_Z (calculateSmartBuffer apt1 apt2 config)
       <= maximumBufferMinutes config + (1 # 2))%Q
  /\ (wholeMinutes (minimumBufferMinutes config) ->
      (minimumBufferMinutes config <= inject_Z (calculateSmartBuffer apt1 apt2 config))%Q)
  /\ (wholeMinutes (maximumBufferMinutes config) ->
      (inject_Z (calculateSmartBuffer apt1 apt2 config) <= maximumBufferMinutes config)%Q).
Proof.
  intros Hle. unfold calculateSmartBuffer.
  match goal with
  | |- context [Math_round (Math_max ?lo ?inner)] => set (clamped := Math_max lo inner)
  end.
  assert (Hc : (minimumBufferMinutes config <= clamped <= maximumBufferMinutes config)%Q)
    by (apply clamp_within; exact Hle).
  destruct Hc as [Hlo Hhi].
  assert (Hbelow := Math_round_monotone _ _ Hlo).
  assert (Habove := Math_round_monotone _ _ Hhi).
  assert (Hnear := Math_round_near clamped).
  split; [split; assumption|]. split; [split; lra|].
  unfold wholeMinutes. split.
  - intros Hmin.
    apply Qle_trans with (inject_Z (Qfloor (minimumBufferMinutes config))).
    + rewrite Hmin. apply Qle_refl.
    + rewrite <- Zle_Qle.
      rewrite <- (Math_round_whole (Qfloor (minimumBufferMinutes config))).
      apply Math_round_monotone. rewrite Hmin. exact Hlo.
  - intros Hmax.
    apply Qle_trans with (inject_Z (Qfloor (maximumBufferMinutes config))).
    + rewrite <- Zle_Qle.
      rewrite <- (Math_round_whole (Qfloor (maximumBufferMinutes config))).
      apply Math_round_monotone. rewrite Hmax. exact Hhi.
    + rewrite Hmax. apply Qle_refl.
Qed.

(** The surcharge when all four coordinates pass the guard of the source,
    which takes a coordinate of exactly 0 for a missing one: a pair more
    than 10 km apart gets a surcharge of exactly 15 minutes before
    clamping, a pair more than 50 km apart included, which never gets 30;
    a pair at 10 km or less gets no surcharge. *)
Lemma calculateSmartBuffer_distance_surcharge
    (apt1 apt2 : GeocodedAppointment) (config : BufferConfiguration) :
  coordinatesKnown apt1 apt2 = true ->
  let distance := haversineDistance (latitude apt1) (longitude apt1)
                                    (latitude apt2) (longitude apt2) in
  ((10 < distance)%Q ->
     calculateSmartBuffer apt1 apt2 config
     = Math_round (clampBuffer config (bufferBeforeSurcharge apt1 apt2 config + 15)%Q))
  /\ ((50 < distance)%Q ->
     calculateSmartBuffer apt1 apt2 config
     = Math_round (clampBuffer config (bufferBeforeSurcharge apt1 apt2 config + 15)%Q))
  /\ ((distance <= 10)%Q ->
     calculateSmartBuffer apt1 apt2 config
     = Math_round (clampBuffer config (bufferBeforeSurcharge apt1 apt2 config))).
Proof.
  intros Hknown distance.
  assert (Hfar : (10 < distance)%Q ->
     calculateSmartBuffer apt1 apt2 config
     = Math_round (clampBuffer config (bufferBeforeSurcharge apt1 apt2 config + 15)%Q)).
  { intros Hd. unfold calculateSmartBuffer, clampBuffer, bufferBeforeSurcharge.
    unfold coordinatesKnown in Hknown. rewrite Hknown.
    fold distance. rewrite (proj2 (Qltb_true 10 distance) Hd). reflexivity. }
  split; [exact Hfar|]. split.
  - intros Hd. apply Hfar. lra.
  - intros Hd. unfold calculateSmartBuffer, clampBuffer, bufferBeforeSurcharge.
    unfold coordinatesKnown in Hknown. rewrite Hknown.
    fold distance. rewrite (proj2 (Qltb_false 10 distance) Hd).
    assert (E : Qltb 50 distance = false) by (apply Qltb_false; lra).
    rewrite E. reflexivity.
Qed.
End SmartBuffer.

(* ================================================================== *)
(** ** Conflict detection *)
(* ================================================================== *)

Section DetectConflict.
Context {T : Type} `{AppointmentLike T}.

Lemma truthyStr_timed (o : option string) s t :
  o = Some s -> timeToMinutes s = Some t -> truthyStr o = Some s.
Proof.
  intros -> Ht. unfold truthyStr.
  destruct (String.eqb_spec s EmptyString); [subst; discriminate | reflexivity].
Qed.

Lemma detectConflict_untimed (a b : T) :
  startTime (asAppointment a) = None \/ startTime (asAppointment b) = None ->
  detectConflict a b = None.
Proof.
  unfold detectConflict. intros [-> | ->]; simpl.
  - reflexivity.
  - destruct (truthyStr _); reflexivity.
Qed.

(** The pair as the source orders it. *)
Lemma detectConflict_timed (a b : T) s1 s2 t1 t2 :
  startTime (asAppointment a) = Some s1 -> startTime (asAppointment b) = Some s2 ->
  timeToMinutes s1 = Some t1 -> timeToMinutes s2 = Some t2 ->
  detectConflict a b =
    if t1 <? t2 then
      if t2 - t1 <? visitDurationMinutes (asAppointment a)
      then Some (mkSchedulingConflict (a, b) (t2 - t1) (visitDurationMinutes (asAppointment a))
             (if visitDurationMinutes (asAppointment a) - (t2 - t1) >? 30 then critical
              else if visitDurationMinutes (asAppointment a) - (t2 - t1) >? 15 then major else minor))
      else None
    else
      if t1 - t2 <? visitDurationMinutes (asAppointment b)
      then Some (mkSchedulingConflict (b, a) (t1 - t2) (visitDurationMinutes (asAppointment b))
             (if visitDurationMinutes (asAppointment b) - (t1 - t2) >? 30 then critical
              else if visitDurationMinutes (asAppointment b) - (t1 - t2) >? 15 then major else minor))
      else None.
Proof.
  intros Ha Hb H1 H2. unfold detectConflict.
  rewrite (truthyStr_timed _ _ _ Ha H1), (truthyStr_timed _ _ _ Hb H2).
  rewrite H1, H2. simpl.
  destruct (t1 <? t2); simpl; reflexivity.
Qed.
End DetectConflict.

Section Grouping.
Context {T : Type} `{AppointmentLike T}.

Lemma groupPush_drawnFrom (source : list T) (d : string) (apt : T)
    (byDate : list (string * list T)) :
  In apt source -> drawnFrom source byDate ->
  drawnFrom source (groupPush d apt byDate).
Proof.
  intros Hapt. induction byDate as [|[k v] rest IH]; intros Hfrom d' group apt' Hin Hmem.
  - simpl in Hin. destruct Hin as [E | []]. injection E as <- <-.
    destruct Hmem as [<- | []]. exact Hapt.
  - simpl in Hin. destruct (String.eqb k d).
    + destruct Hin as [E | Hin].
      * injection E as <- <-. apply in_app_or in Hmem.
        destruct Hmem as [Hmem | [<- | []]]; [|exact Hapt].
        eapply Hfrom; [left; reflexivity | exact Hmem].
      * eapply Hfrom; [right; exact Hin | exact Hmem].
    + destruct Hin as [E | Hin].
      * injection E as <- <-. eapply Hfrom; [left; reflexivity | exact Hmem].
      * eapply IH; try eassumption.
        intros d0 g0 a0 Hin0 Hmem0. eapply Hfrom; [right; exact Hin0 | exact Hmem0].
Qed.

Lemma groupAppointmentsByDate_drawnFrom (appointments : list T) :
  drawnFrom appointments (groupAppointmentsByDate appointments).
Proof.
  unfold groupAppointmentsByDate.
  assert (Hgen : forall todo byDate,
             (forall apt, In apt todo -> In apt appointments) ->
             drawnFrom appointments byDate ->
             drawnFrom appointments
               (fold_left (fun byDate apt => groupPush (date (asAppointment apt)) apt byDate)
                          todo byDate)).
  { induction todo as [|apt todo IH]; intros byDate Htodo Hfrom; simpl.
    - exact Hfrom.
    - apply IH.
      + intros a Ha. apply Htodo. right. exact Ha.
      + apply groupPush_drawnFrom; [apply Htodo; left; reflexivity | exact Hfrom]. }
  apply Hgen.
  - intros apt Hin. exact Hin.
  - intros d group apt [].
Qed.

Lemma getAppointmentPairs_members (appointments : list T) (apt1 apt2 : T) :
  In (apt1, apt2) (getAppointmentPairs appointments) ->
  In apt1 appointments /\ In apt2 appointments.
Proof.
  induction appointments as [|a rest IH]; simpl; [intros []|].
  intros Hin. apply in_app_or in Hin. destruct Hin as [Hin | Hin].
  - apply in_map_iff in Hin. destruct Hin as (b & E & Hb). injection E as <- <-.
    split; [left; reflexivity | right; exact Hb].
  - destruct (IH Hin) as [H1 H2]. split; right; assumption.
Qed.

Lemma findAllConflicts_untimed (appointments : list T) :
  (forall apt, In apt appointments -> startTime (asAppointment apt) = None) ->
  findAllConflicts appointments = [].
Proof.
  intros Hnone. unfold findAllConflicts.
  assert (Hgen : forall pairs,
             (forall apt1 apt2, In (apt1, apt2) pairs -> In apt1 appointments) ->
             flat_map
               (fun '(apt1, apt2) =>
                  if negb (String.eqb (date (asAppointment apt1)) (date (asAppointment apt2)))
                  then []
                  else match detectConflict apt1 apt2 with
                       | Some conflict => [conflict]
                       | None => []
                       end) pairs = []).
  { induction pairs as [|[apt1 apt2] pairs IH]; intros Hp; simpl.
    - reflexivity.
    - rewrite IH by (intros a b Hab; eapply Hp; right; exact Hab).
      rewrite (detectConflict_untimed apt1 apt2).
      + destruct (negb _); reflexivity.
      + left. apply Hnone. eapply Hp. left. reflexivity. }
  apply Hgen. intros apt1 apt2 Hin.
  apply getAppointmentPairs_members in Hin. tauto.
Qed.
End Grouping.

Section DetectConflictClaim.
Context {T : Type} `{AppointmentLike T}.

(** C2.  [detectConflict] finds no conflict when either appointment has no
    start time.  When both have one, it finds no conflict exactly when the
    gap between the two starts is at least the visit duration of the
    earlier appointment, whichever of two simultaneous appointments is
    called the earlier. *)
Theorem detectConflict_none_iff (a b : T) :
  (startTime (asAppointment a) = None \/ startTime (asAppointment b) = None ->
   detectConflict a b = None)
  /\ (forall startA startB timeA timeB,
        startTime (asAppointment a) = Some startA ->
        startTime (asAppointment b) = Some startB ->
        timeToMinutes startA = Some timeA ->
        timeToMinutes startB = Some timeB ->
        0 < visitDurationMinutes (asAppointment a) ->
        0 < visitDurationMinutes (asAppointment b) ->
        forall earlier earlierTime laterTime,
          chronological a b timeA timeB earlier earlierTime laterTime ->
          (detectConflict a b = None
           <-> visitDurationMinutes (asAppointment earlier) <= laterTime - earlierTime)).
Proof.
  split; [apply detectConflict_untimed|].
  intros startA startB timeA timeB HA HB HtA HtB HdA HdB earlier earlierTime laterTime Hchron.
  rewrite (detectConflict_timed a b _ _ _ _ HA HB HtA HtB).
  destruct Hchron as [Hle | Hle].
  - destruct (Z.ltb_spec timeA timeB) as [Hlt | Hge].
    + destruct (Z.ltb_spec (timeB - timeA) (visitDurationMinutes (asAppointment a)));
        split; intros; try discriminate; try reflexivity; lia.
    + assert (timeA = timeB) by lia. subst timeB.
      destruct (Z.ltb_spec (timeA - timeA) (visitDurationMinutes (asAppointment b)));
        split; intros; try discriminate; lia.
  - destruct (Z.ltb_spec timeA timeB) as [Hlt | Hge]; [lia|].
    destruct (Z.ltb_spec (timeA - timeB) (visitDurationMinutes (asAppointment b)));
      split; intros; try discriminate; try reflexivity; lia.
Qed.
End DetectConflictClaim.

(* ================================================================== *)
(** ** Reorderings *)
(* ================================================================== *)

Section Reorderings.
Context {T : Type} `{AppointmentLike T}.

Lemma permute_fuel_length (fuel : nat) :
  forall arr : list T, (List.length arr <= fuel)%nat ->
  List.length (permute_fuel fuel arr) = fact (List.length arr).
Proof.
  induction fuel as [|fuel IH]; intros arr Hlen; simpl.
  - destruct arr; [reflexivity | simpl in Hlen; lia].
  - destruct (Nat.leb_spec (List.length arr) 1) as [Hsmall | Hbig].
    + destruct arr as [|x [|y arr]]; simpl in *; try reflexivity; lia.
    + rewrite (flat_map_constant_length _ _ (fact (pred (List.length arr)))).
      * rewrite length_seq. destruct (List.length arr) as [|n]; [lia|].
        simpl. lia.
      * intros i Hi. apply in_seq in Hi.
        destruct (nth_error arr i) as [current|] eqn:E.
        -- rewrite length_map, IH; rewrite removeAt_length; lia || reflexivity.
        -- apply nth_error_None in E. lia.
Qed.

Lemma permute_length (arr : list T) :
  List.length (permute arr) = fact (List.length arr).
Proof. apply permute_fuel_length. apply Nat.le_refl. Qed.

(** More fuel than the array is long changes nothing. *)
Lemma permute_fuel_enough (fuel : nat) :
  forall arr : list T, (List.length arr <= fuel)%nat ->
  permute_fuel fuel arr = permute arr.
Proof.
  unfold permute.
  induction fuel as [|fuel IH]; intros arr Hlen.
  - destruct arr; [reflexivity | simpl in Hlen; lia].
  - destruct arr as [|x arr]; [reflexivity|].
    cbn [List.length permute_fuel].
    destruct (Nat.leb_spec (S (List.length arr)) 1) as [Hsmall | Hbig]; [reflexivity|].
    apply flat_map_ext_seq. intros i Hi. apply in_seq in Hi. simpl in Hi.
    destruct (nth_error (x :: arr) i); [|reflexivity].
    simpl in Hlen.
    assert (Hr : List.length (removeAt i (x :: arr)) = List.length arr)
      by (rewrite removeAt_length; simpl; [reflexivity | lia]).
    rewrite (IH (removeAt i (x :: arr))) by lia.
    rewrite Hr. reflexivity.
Qed.

(** The recursive equation of the source. *)
Lemma permute_equation (arr : list T) :
  permute arr =
    if (List.length arr <=? 1)%nat then [arr]
    else flat_map
           (fun i => match nth_error arr i with
                     | Some current => map (cons current) (permute (removeAt i arr))
                     | None => []
                     end)
           (seq 0 (List.length arr)).
Proof.
  destruct arr as [|x arr]; [reflexivity|].
  unfold permute at 1. cbn [List.length permute_fuel].
  destruct (Nat.leb_spec (S (List.length arr)) 1); [reflexivity|].
  apply flat_map_ext_seq. intros i Hi. apply in_seq in Hi. simpl in Hi.
  destruct (nth_error (x :: arr) i); [|reflexivity].
  rewrite permute_fuel_enough; [reflexivity|].
  rewrite removeAt_length; simpl; lia.
Qed.

Lemma interleave_length (appointments flexiblePerm : list T) (flexIndex : nat) :
  List.length (interleave appointments flexiblePerm flexIndex) = List.length appointments.
Proof.
  revert flexIndex. induction appointments as [|orig rest IH]; intros flexIndex; simpl.
  - reflexivity.
  - destruct (isInflexible orig); simpl; rewrite IH; reflexivity.
Qed.

Lemma interleave_keeps_inflexible (appointments flexiblePerm : list T) :
  forall (flexIndex i : nat) (orig : T),
    nth_error appointments i = Some orig -> isInflexible orig = true ->
    nth_error (interleave appointments flexiblePerm flexIndex) i = Some orig.
Proof.
  induction appointments as [|a rest IH]; intros flexIndex i orig Hnth Hinf.
  - destruct i; discriminate.
  - destruct i as [|i]; simpl in *.
    + injection Hnth as ->. rewrite Hinf. reflexivity.
    + destruct (isInflexible a); simpl; eapply IH; eassumption.
Qed.

(** Every permutation that [permute] lists is one of the array. *)
Lemma permute_fuel_perm (fuel : nat) :
  forall (arr perm : list T), In perm (permute_fuel fuel arr) -> Permutation perm arr.
Proof.
  induction fuel as [|fuel IH]; intros arr perm Hin; simpl in Hin.
  - destruct Hin as [<- | []]. apply Permutation_refl.
  - destruct (List.length arr <=? 1)%nat.
    + destruct Hin as [<- | []]. apply Permutation_refl.
    + apply in_flat_map in Hin. destruct Hin as (i & _ & Hin).
      destruct (nth_error arr i) as [current|] eqn:Hnth; [|contradiction].
      apply in_map_iff in Hin. destruct Hin as (rest & <- & Hrest).
      eapply perm_trans; [apply perm_skip, IH, Hrest|].
      apply removeAt_perm. exact Hnth.
Qed.

Lemma permute_perm (arr perm : list T) :
  In perm (permute arr) -> Permutation perm arr.
Proof. apply permute_fuel_perm. Qed.

(** The index into the permutation stays in range: a flexible position is
    filled from the permutation, never with the default of [interleave]. *)
Lemma interleave_from_permutation (appointments flexiblePerm : list T) :
  forall (flexIndex i : nat) (orig : T),
    (flexIndex
     + List.length (filter (fun apt => negb (isInflexible apt)) appointments)
     <= List.length flexiblePerm)%nat ->
    nth_error appointments i = Some orig -> isInflexible orig = false ->
    exists j, (j < List.length flexiblePerm)%nat
      /\ nth_error (interleave appointments flexiblePerm flexIndex) i
         = nth_error flexiblePerm j.
Proof.
  induction appointments as [|a rest IH]; intros flexIndex i orig Hlen Hnth Hflex.
  - destruct i; discriminate.
  - simpl in Hlen. destruct i as [|i]; simpl in Hnth.
    + injection Hnth as ->. simpl. rewrite Hflex in *. simpl in Hlen.
      exists flexIndex. split; [lia|]. simpl.
      symmetry. apply nth_error_nth'. lia.
    + simpl. destruct (isInflexible a); simpl in *.
      * eapply IH; eassumption.
      * eapply IH; try eassumption. lia.
Qed.

Lemma interleave_perm (appointments flexiblePerm : list T) :
  forall flexIndex : nat,
    let k := List.length (filter (fun apt => negb (isInflexible apt)) appointments) in
    (flexIndex + k <= List.length flexiblePerm)%nat ->
    Permutation (interleave appointments flexiblePerm flexIndex)
                (filter isInflexible appointments
                 ++ firstn k (skipn flexIndex flexiblePerm)).
Proof.
  induction appointments as [|a rest IH]; intros flexIndex k Hlen.
  - apply perm_nil.
  - unfold k in *. simpl in *. destruct (isInflexible a); simpl in *.
    + apply perm_skip, IH, Hlen.
    + rewrite (skipn_head flexiblePerm flexIndex a) by lia. simpl.
      eapply perm_trans; [apply perm_skip, (IH (S flexIndex)); lia|].
      apply Permutation_middle.
Qed.

(** Every ordering that [generateReorderings] lists is a reordering of the
    appointments. *)
Lemma generateReorderings_perm (appointments reordered : list T) :
  In reordered (generateReorderings appointments) -> Permutation reordered appointments.
Proof.
  unfold generateReorderings.
  destruct ((List.length (filter isInflexible appointments) =? 0)%nat
            || (List.length (filter (fun apt => negb (isInflexible apt)) appointments)
                =? 0)%nat).
  - intros [<- | []]. apply Permutation_refl.
  - intros Hin. apply in_map_iff in Hin. destruct Hin as (flexiblePerm & <- & Hperm).
    apply permute_perm in Hperm.
    assert (Hlen := Permutation_length Hperm).
    eapply perm_trans; [apply interleave_perm; simpl; lia|].
    simpl. rewrite <- Hlen, firstn_all.
    eapply perm_trans; [apply Permutation_app_head, Hperm|].
    eapply perm_trans; [apply Permutation_app_comm|]. apply partition_perm.
Qed.

End Reorderings.

(* ================================================================== *)
(** ** The impact score *)
(* ================================================================== *)

Lemma Math_round_compat (x y : Q) : (x == y)%Q -> Math_round x = Math_round y.
Proof. intros E. unfold Math_round. apply Qfloor_comp. rewrite E. reflexivity. Qed.

Lemma Math_min_compat (a x y : Q) : (x == y)%Q -> (Math_min a x == Math_min a y)%Q.
Proof.
  intros E. unfold Math_min.
  destruct (Qle_bool a x) eqn:Ex, (Qle_bool a y) eqn:Ey.
  - reflexivity.
  - apply Qle_bool_iff in Ex. rewrite E in Ex. apply Qle_bool_iff in Ex. congruence.
  - apply Qle_bool_iff in Ey. rewrite <- E in Ey. apply Qle_bool_iff in Ey. congruence.
  - exact E.
Qed.

Lemma disruption_totals (cs : list ScheduleChange) (total maxPossible : Q) :
  let '(t, m) :=
    fold_left (fun '(total, maxPossible) change =>
                 ((total + impactMinutes change)%Q, (maxPossible + 480)%Q))
              cs (total, maxPossible) in
  (t == total + fold_right Qplus 0 (map impactMinutes cs))%Q
  /\ (m == maxPossible + 480 * inject_Z (Z.of_nat (List.length cs)))%Q.
Proof.
  revert total maxPossible. induction cs as [|c cs IH]; intros total maxPossible.
  - simpl. split; ring.
  - cbn [fold_left]. specialize (IH (total + impactMinutes c)%Q (maxPossible + 480)%Q).
    destruct (fold_left _ cs _) as [t m]. destruct IH as [Ht Hm]. split.
    + rewrite Ht. simpl. ring.
    + rewrite Hm. cbn [List.length]. rewrite Nat2Z.inj_succ. unfold Z.succ.
      rewrite inject_Z_plus. change (inject_Z 1) with 1%Q. ring.
Qed.

Lemma calculateDisruptionScore_formula (solution : Solution) orig :
  (calculateDisruptionScore solution orig == ScoreFormula.disruption solution)%Q.
Proof.
  unfold calculateDisruptionScore, ScoreFormula.disruption.
  destruct (changes solution) as [|c cs] eqn:E; [reflexivity|].
  assert (Htot := disruption_totals (c :: cs) 0 0).
  destruct (fold_left _ (c :: cs) _) as [t m]. destruct Htot as [Ht Hm].
  apply Math_min_compat. unfold ScoreFormula.round1.
  unfold ScoreFormula.sumImpactMinutes, ScoreFormula.numChanges. rewrite E.
  set (n := inject_Z (Z.of_nat (List.length (c :: cs)))) in *.
  assert (Hn : (1 <= n)%Q).
  { unfold n. change 1%Q with (inject_Z 1). rewrite <- Zle_Qle. simpl List.length. lia. }
  assert (Hmax : (Math_max m 1 == 480 * n)%Q).
  { unfold Math_max. destruct (Qle_bool m 1) eqn:Em.
    - apply Qle_bool_iff in Em. lra.
    - lra. }
  rewrite (Math_round_compat _ (100 * fold_right Qplus 0 (map impactMinutes (c :: cs)) / (480 * n) * 10)%Q).
  - reflexivity.
  - rewrite Hmax, Ht. field. lra.
Qed.

Lemma calculateBufferDeviationScore_formula (solution : Solution) (config : BufferConfiguration) :
  ~ (baseBufferMinutes config == 0)%Q ->
  calculateBufferDeviationScore solution (Some config)
  = ScoreFormula.bufferDeviation solution config.
Proof.
  intros Hbase. unfold calculateBufferDeviationScore, ScoreFormula.bufferDeviation.
  destruct (statistics solution) as [stats|]; [|reflexivity].
  destruct (Qeq_bool (bestScenarioGapMinutes stats) 0); [reflexivity|].
  unfold divide.
  destruct (Qeq_bool (baseBufferMinutes config) 0) eqn:E.
  - apply Qeq_bool_iff in E. contradiction.
  - reflexivity.
Qed.

(** With exact rationals for the doubles, [calculateImpactScore] is the
    documented formula, for a base buffer other than zero. *)
Lemma calculateImpactScore_formula
    (solution : Solution) (originalAppointments : option (list Appointment))
    (config : option BufferConfiguration) :
  let effective := match config with Some c => c | None => DEFAULT_BUFFER_CONFIG end in
  ~ (baseBufferMinutes effective == 0)%Q ->
  calculateImpactScore solution originalAppointments config
  = ScoreFormula.impactScore solution effective.
Proof.
  intros effective Hbase. unfold calculateImpactScore, ScoreFormula.impactScore.
  fold effective. unfold ScoreFormula.round2.
  rewrite (calculateBufferDeviationScore_formula _ _ Hbase).
  f_equal. f_equal. apply Math_round_compat.
  rewrite (calculateDisruptionScore_formula solution originalAppointments). ring.
Qed.

(* ================================================================== *)
(** ** The impact score on doubles *)
(* ================================================================== *)

Section ScoreOnDoubles.
Import Floats Doubles.
#[local] Open Scope float_scope.
#[local] Set Warnings "-inexact-float".

(** The product of two doubles does not depend on their order. *)
Lemma double_mul_comm (a b : float) : a * b = b * a.
Proof.
  rewrite <- (SF2Prim_Prim2SF (a * b)), <- (SF2Prim_Prim2SF (b * a)).
  rewrite !mul_spec. f_equal.
  destruct (Prim2SF a) as [sa|sa| |sa ma ea], (Prim2SF b) as [sb|sb| |sb mb eb]; simpl;
    try reflexivity; try (rewrite xorb_comm; reflexivity).
  rewrite xorb_comm, Pos.mul_comm, Z.add_comm. reflexivity.
Qed.

Lemma disruption_totals_on_doubles (cs : list Doubles.ScheduleChange) :
  forall total maxPossible : float,
    fold_left
      (fun '(total, maxPossible) change =>
         (total + Doubles.impactMinutes change, maxPossible + 480))
      cs (total, maxPossible)
    = (fold_left add (map Doubles.impactMinutes cs) total,
       maxPossibleAfter (List.length cs) maxPossible).
Proof.
  induction cs as [|c cs IH]; intros total maxPossible; simpl.
  - reflexivity.
  - apply IH.
Qed.

Lemma sumsAgree_spec (fuel : nat) :
  forall (k : Z) (acc : float),
    sumsAgree fuel k acc = true ->
    forall n, (1 <= n <= fuel)%nat ->
      Math_max (maxPossibleAfter n acc) 1 = 480 * ofZ (k + Z.of_nat n).
Proof.
  induction fuel as [|fuel IH]; intros k acc Hagree n Hn; [lia|].
  simpl in Hagree. apply andb_true_iff in Hagree. destruct Hagree as [Hhere Hnext].
  apply FloatAxioms.Leibniz.eqb_spec in Hhere.
  destruct n as [|[|n]]; [lia | exact Hhere |].
  replace (k + Z.of_nat (S (S n)))%Z with (k + 1 + Z.of_nat (S n))%Z by lia.
  change (maxPossibleAfter (S (S n)) acc) with (maxPossibleAfter (S n) (acc + 480)).
  apply (IH (k + 1)%Z (acc + 480) Hnext). lia.
Qed.

Lemma sumsAgree_checked : sumsAgree changesChecked 0 0 = true.
Proof. vm_compute. reflexivity. Qed.

Lemma calculateDisruptionScore_formula_on_doubles
    (solution : Doubles.Solution) (orig : option (list Appointment)) :
  (List.length (Doubles.changes solution) <= changesChecked)%nat ->
  calculateDisruptionScore solution orig = Formula.disruption solution.
Proof.
  intros Hfew. unfold calculateDisruptionScore, Formula.disruption.
  destruct (Doubles.changes solution) as [|c cs] eqn:E; [reflexivity|].
  rewrite disruption_totals_on_doubles.
  unfold Formula.round1, Formula.sumImpactMinutes, Formula.numChanges. rewrite E.
  rewrite (sumsAgree_spec changesChecked 0%Z 0 sumsAgree_checked (List.length (c :: cs)));
    [|unfold changesChecked in *; simpl List.length in *; lia].
  rewrite Z.add_0_l.
  set (ratio := fold_left add (map Doubles.impactMinutes (c :: cs)) 0
                / (480 * ofZ (Z.of_nat (List.length (c :: cs))))).
  rewrite (double_mul_comm ratio 100), (double_mul_comm (100 * ratio) 10).
  reflexivity.
Qed.

(** C7.  [calculateImpactScore] computes on doubles.  It is the documented
    weighted sum with every sum, product and quotient rounded to a
    double: round2(0.4 d + 0.3 (100 (1 - successRate)) + 0.3 b), where
    round2(x) is [Math.round(100 x) / 100], d is the disruption score and
    b the buffer deviation score; the original appointments play no part.
    The buffer deviation score is 0, 25, 60 or 100 by the ratio of the
    best gap to the base buffer.  For a solution of at most 1000000
    changes the disruption score is 0 without changes and else
    min(100, round1(100 (sum / (480 n)))), for the sum of the impact
    minutes of the n changes, added in their order, so that the impact
    score is the documented formula on doubles throughout. *)
Theorem calculateImpactScore_formula_on_doubles
    (solution : Doubles.Solution) (originalAppointments : option (list Appointment))
    (config : option Doubles.BufferConfiguration) :
  let effective :=
    match config with Some c => c | None => Doubles.DEFAULT_BUFFER_CONFIG end in
  Doubles.calculateImpactScore solution originalAppointments config
  = Doubles.Formula.weighted
      (Doubles.calculateDisruptionScore solution originalAppointments)
      (Doubles.successRate solution)
      (Doubles.calculateBufferDeviationScore solution (Some effective))
  /\ Doubles.calculateBufferDeviationScore solution (Some effective)
     = Doubles.Formula.bufferDeviation solution effective
  /\ ((List.length (Doubles.changes solution) <= Doubles.changesChecked)%nat ->
      Doubles.calculateDisruptionScore solution originalAppointments
      = Doubles.Formula.disruption solution
      /\ Doubles.calculateImpactScore solution originalAppointments config
         = Doubles.Formula.impactScore solution effective).
Proof.
  intros effective.
  assert (Hweighted :
            Doubles.calculateImpactScore solution originalAppointments config
            = Formula.weighted (calculateDisruptionScore solution originalAppointments)
                               (Doubles.successRate solution)
                               (calculateBufferDeviationScore solution (Some effective))).
  { unfold Doubles.calculateImpactScore, Formula.weighted, Formula.round2.
    fold effective.
    set (d := calculateDisruptionScore solution originalAppointments).
    set (b := calculateBufferDeviationScore solution (Some effective)).
    set (r := Doubles.successRate solution).
    rewrite (double_mul_comm d 0.4), (double_mul_comm (1 - r) 100),
            (double_mul_comm (100 * (1 - r)) 0.3), (double_mul_comm b 0.3).
    rewrite (double_mul_comm _ 100).
    reflexivity. }
  split; [exact Hweighted|]. split; [reflexivity|].
  intros Hfew.
  assert (Hdisruption := calculateDisruptionScore_formula_on_doubles
                           solution originalAppointments Hfew).
  split; [exact Hdisruption|].
  rewrite Hweighted, Hdisruption. reflexivity.
Qed.
End ScoreOnDoubles.

(* ================================================================== *)
(** ** The reordering simulator *)
(* ================================================================== *)

Lemma countFeasible_app (l1 l2 : list Solution) :
  countFeasible (l1 ++ l2) = (countFeasible l1 + countFeasible l2)%nat.
Proof. unfold countFeasible. rewrite filter_app, length_app. reflexivity. Qed.

Lemma countFeasible_perm (l1 l2 : list Solution) :
  Permutation l1 l2 -> countFeasible l1 = countFeasible l2.
Proof.
  intros P. unfold countFeasible. induction P; simpl.
  - reflexivity.
  - destruct (isFeasibleSolution x); simpl; congruence.
  - destruct (isFeasibleSolution x), (isFeasibleSolution y); reflexivity.
  - congruence.
Qed.

Lemma countFeasible_map (f : Solution -> Solution) (l : list Solution) :
  (forall s, feasibility (f s) = feasibility s) ->
  countFeasible (map f l) = countFeasible l.
Proof.
  intros Hf. unfold countFeasible. induction l as [|s l IH]; simpl.
  - reflexivity.
  - replace (isFeasibleSolution (f s)) with (isFeasibleSolution s)
      by (unfold isFeasibleSolution; rewrite Hf; reflexivity).
    destruct (isFeasibleSolution s); simpl; rewrite IH; reflexivity.
Qed.

Lemma testReorderings_counted reorderings dayAppointments maxReorderingScenarios :
  forall p, counted maxReorderingScenarios p ->
  counted maxReorderingScenarios
    (testReorderings reorderings dayAppointments maxReorderingScenarios p).
Proof.
  induction reorderings as [|reordered rest IH]; intros p Hp; simpl.
  - exact Hp.
  - destruct (Z.ltb_spec (scenariosTested p) maxReorderingScenarios) as [Hlt | Hge].
    + apply IH. destruct Hp as [Ht Hf Hc]. constructor; simpl.
      * rewrite length_app. simpl. lia.
      * rewrite countFeasible_app. unfold countFeasible at 2. simpl.
        unfold isFeasibleSolution. simpl.
        destruct (List.length (findAllConflicts reordered) =? 0)%nat; simpl; lia.
      * lia.
    + exact Hp.
Qed.

Lemma reorderDay_counted maxReorderingScenarios p entry :
  counted maxReorderingScenarios p ->
  counted maxReorderingScenarios (reorderDay maxReorderingScenarios p entry).
Proof.
  intros Hp. unfold reorderDay.
  destruct (List.length (snd entry) <? 2)%nat; [exact Hp|].
  destruct (List.length (filter _ (snd entry)) =? 0)%nat; [exact Hp|].
  apply testReorderings_counted. exact Hp.
Qed.

Lemma reorderDays_counted maxReorderingScenarios byDate :
  forall p, counted maxReorderingScenarios p ->
  counted maxReorderingScenarios (fold_left (reorderDay maxReorderingScenarios) byDate p).
Proof.
  induction byDate as [|entry rest IH]; intros p Hp; simpl.
  - exact Hp.
  - apply IH, reorderDay_counted, Hp.
Qed.

(** C8.  For a cap that is not negative, [simulateReordering] returns at
    most as many solutions as the cap allows, over all dates together, and
    every solution returned carries the same success rate, the number of
    feasible scenarios over the number of scenarios tested, and the same
    statistics. *)
Theorem simulateReordering_capped_and_uniform
    (appointments : list GeocodedAppointment) (maxReorderingScenarios : Z)
    (config : BufferConfiguration) :
  0 <= maxReorderingScenarios ->
  let result := simulateReordering appointments maxReorderingScenarios config in
  let tested := Z.of_nat (List.length result) in
  let feasibleCount := Z.of_nat (countFeasible result) in
  tested <= maxReorderingScenarios
  /\ exists stats : SimulationStats,
       totalScenariosTested stats = tested
       /\ feasibleScenarios stats = feasibleCount
       /\ forall solution, In solution result ->
            successRate solution = (inject_Z feasibleCount / inject_Z tested)%Q
            /\ statistics solution = Some stats.
Proof.
  intros Hcap result tested feasibleCount.
  unfold simulateReordering in result.
  set (p := fold_left (reorderDay maxReorderingScenarios)
              (groupAppointmentsByDate appointments) (mkProgress [] 0 0)) in *.
  assert (Hp : counted maxReorderingScenarios p).
  { apply reorderDays_counted. constructor; simpl; [reflexivity | reflexivity | exact Hcap]. }
  destruct Hp as [Ht Hf Hc].
  set (rate := if scenariosTested p >? 0
               then (inject_Z (feasibleScenariosSoFar p) / inject_Z (scenariosTested p))%Q
               else 0%Q) in *.
  set (finalStats := {| totalScenariosTested := scenariosTested p;
                        feasibleScenarios := feasibleScenariosSoFar p;
                        bestScenarioGapMinutes := calculateBestGap (solutionsSoFar p);
                        worstScenarioGapMinutes := calculateWorstGap (solutionsSoFar p);
                        averageGapMinutes := calculateAverageGap (solutionsSoFar p);
                        reorderingsTested := scenariosTested p;
                        buffersTested := 0 |}) in *.
  set (stamp := fun solution : Solution =>
                  {| changes := changes solution; successRate := rate;
                     impactScore := impactScore solution;
                     feasibility := feasibility solution;
                     reasoning := reasoning solution;
                     statistics := Some finalStats |}) in *.
  set (scored := map (fun solution => (calculateImpactScore solution None None, solution))
                     (map stamp (solutionsSoFar p))) in *.
  assert (Hperm : Permutation result (map stamp (solutionsSoFar p))).
  { unfold result.
    eapply perm_trans; [apply Permutation_map, sortQ_perm|].
    unfold scored. rewrite map_map. simpl. rewrite map_id. apply Permutation_refl. }
  assert (Hlen : tested = scenariosTested p).
  { unfold tested. rewrite (Permutation_length Hperm), length_map. symmetry. exact Ht. }
  assert (Hcount : feasibleCount = feasibleScenariosSoFar p).
  { unfold feasibleCount. rewrite (countFeasible_perm _ _ Hperm), Hf. f_equal.
    apply countFeasible_map. reflexivity. }
  split; [lia|].
  exists finalStats. split; [symmetry; exact Hlen|]. split; [symmetry; exact Hcount|].
  intros solution Hin.
  assert (Hin' : In solution (map stamp (solutionsSoFar p)))
    by (eapply Permutation_in; eassumption).
  apply in_map_iff in Hin'. destruct Hin' as (s0 & <- & Hs0). simpl.
  split; [|reflexivity].
  unfold rate. rewrite Hlen, Hcount.
  destruct (Z.gtb_spec (scenariosTested p) 0) as [_ | Hzero]; [reflexivity|].
  destruct (solutionsSoFar p); [contradiction | simpl in Ht; lia].
Qed.

(* ================================================================== *)
(** ** The conflict resolution orchestrator *)
(* ================================================================== *)

Section Orchestrator.
Context {geo : Geodesy} {clock : Clock}.
Variable simulateBufferVariation :
  list GeocodedAppointment -> list Q -> BufferConfiguration -> option (list Solution).
Variable generateExplanation : Solution -> list string.

(** C9.  Without conflicts, [runConflictSimulations] returns the empty list
    having read the clock once and called no simulator: the log is as it
    was.  Appointments without start times have no conflicts. *)
Theorem runConflictSimulations_without_conflicts
    (appointments : list GeocodedAppointment) (options : SimulationOptions) (w : Runtime) :
  (findAllConflicts appointments = [] ->
     runConflictSimulations simulateBufferVariation generateExplanation
       appointments options w
     = (inr [], mkRuntime (S (clockReads w)) (log w)))
  /\ ((forall apt, In apt appointments -> startTime (asAppointment apt) = None) ->
      findAllConflicts appointments = []).
Proof.
  split.
  - intros Hnone. unfold runConflictSimulations, bind, Date_now. rewrite Hnone. reflexivity.
  - apply findAllConflicts_untimed.
Qed.
End Orchestrator.

(* ================================================================== *)
(** ** The route builder *)
(* ================================================================== *)

Section RouteBuilderFacts.
Context {geo : Geodesy} {service : DistanceService}.

Lemma routeCostFrom_returns (appointments : list GeocodedAppointment) :
  forall totalCost w, exists cost w',
    routeCostFrom appointments totalCost w = (inr cost, w').
Proof.
  induction appointments as [|from rest IH]; intros totalCost w.
  - simpl. eexists _, _. reflexivity.
  - destruct rest as [|to rest'].
    + simpl. eexists _, _. reflexivity.
    + cbn [routeCostFrom]. unfold bind at 1. unfold catch, bind.
      destruct (getDistanceMatrix (pointOf from) [pointOf to] w) as [[e | distance] w1].
      * unfold ret. apply IH.
      * destruct distance; unfold ret; apply IH.
Qed.

Lemma calculateRouteCost_returns (appointments : list GeocodedAppointment) :
  forall w, exists cost w', calculateRouteCost appointments w = (inr cost, w').
Proof.
  intros w. unfold calculateRouteCost.
  destruct (List.length appointments <=? 1)%nat.
  - eexists _, _. reflexivity.
  - apply routeCostFrom_returns.
Qed.

Lemma tryPositions_returns flexibleApt orderedAppointments positions :
  forall bestPosition bestCost w, exists best w',
    tryPositions flexibleApt orderedAppointments positions bestPosition bestCost w
    = (inr best, w').
Proof.
  induction positions as [|position rest IH]; intros bestPosition bestCost w.
  - eexists _, _. reflexivity.
  - cbn [tryPositions]. unfold bind.
    destruct (calculateRouteCost_returns
                (spliceIn position flexibleApt orderedAppointments) w)
      as (cost & w1 & ->).
    destruct (match bestCost with Some best => Qltb cost best | None => true end);
      apply IH.
Qed.

Lemma insertFlexibleAppointment_spec flexibleApt orderedAppointments w :
  exists updated w',
    insertFlexibleAppointment flexibleApt orderedAppointments w = (inr updated, w')
    /\ Permutation updated (flexibleApt :: orderedAppointments).
Proof.
  unfold insertFlexibleAppointment.
  destruct orderedAppointments as [|a rest] eqn:E.
  - simpl. eexists _, _. split; [reflexivity|]. apply Permutation_refl.
  - rewrite <- E. replace (List.length orderedAppointments =? 0)%nat with false
      by (subst; reflexivity).
    unfold bind.
    destruct (tryPositions_returns flexibleApt orderedAppointments
                (seq 0 (S (List.length orderedAppointments))) 0%nat None w)
      as ([bestPosition bestCost] & w1 & ->).
    eexists _, _. split; [reflexivity|]. apply spliceIn_perm.
Qed.

Lemma insertAll_spec flexibleAppointments :
  forall orderedAppointments w, exists final w',
    insertAll flexibleAppointments orderedAppointments w = (inr final, w')
    /\ Permutation final (flexibleAppointments ++ orderedAppointments).
Proof.
  induction flexibleAppointments as [|flexibleApt rest IH];
    intros orderedAppointments w.
  - eexists _, _. split; [reflexivity | apply Permutation_refl].
  - cbn [insertAll]. unfold bind.
    destruct (insertFlexibleAppointment_spec flexibleApt orderedAppointments w)
      as (updated & w1 & -> & Hperm).
    destruct (IH updated w1) as (final & w2 & Hrun & Hfinal).
    exists final, w2. split; [exact Hrun|].
    eapply perm_trans; [exact Hfinal|].
    eapply perm_trans; [apply Permutation_app_head, Hperm|].
    symmetry. simpl. apply Permutation_middle.
Qed.

End RouteBuilderFacts.

Lemma scheduleRespected_snoc (front : list VisitStop) (last stop : VisitStop) :
  scheduleRespected (front ++ [last]) -> arrivesAfter last stop ->
  scheduleRespected ((front ++ [last]) ++ [stop]).
Proof.
  intros Hold Hnew i s1 s2 H1 H2.
  assert (Hlen : List.length (front ++ [last]) = S (List.length front))
    by (rewrite length_app; simpl; lia).
  destruct (Nat.lt_ge_cases (S i) (List.length (front ++ [last]))) as [Hin | Hout].
  - rewrite nth_error_app1 in H1 by lia. rewrite nth_error_app1 in H2 by lia.
    eapply Hold; eassumption.
  - destruct (Nat.eq_dec i (List.length front)) as [-> | Hne].
    + rewrite nth_error_app1 in H1 by lia.
      rewrite nth_error_app2 in H1 by lia. rewrite Nat.sub_diag in H1.
      injection H1 as <-.
      rewrite nth_error_app2 in H2 by lia. rewrite Hlen, Nat.sub_diag in H2.
      injection H2 as <-. exact Hnew.
    + rewrite nth_error_app2 in H2 by lia.
      destruct (S i - List.length (front ++ [last]))%nat as [|[|k]] eqn:E;
        simpl in H2; try discriminate. lia.
Qed.

Lemma Math_round_nonneg (x : Q) : (0 <= x)%Q -> 0 <= Math_round x.
Proof.
  intros Hx. rewrite <- (Math_round_whole 0). apply Math_round_monotone. exact Hx.
Qed.

Section RouteFacts.
Context {geo : Geodesy} {service : DistanceService}.

Lemma routeFrom_schedule (remaining : list GeocodedAppointment) :
  forall prevApt i t acc result w w' front last,
    routeFrom prevApt remaining i (Some t) acc w = (inr result, w') ->
    travelTimesValid -> 0 <= t ->
    0 <= visitDurationMinutes (asAppointment prevApt) ->
    (forall apt, In apt remaining -> 0 <= visitDurationMinutes (asAppointment apt)) ->
    rd_stops acc = front ++ [last] ->
    appointment last = prevApt ->
    arrivalTime last = minutesToTime (Some t) ->
    scheduleRespected (rd_stops acc) ->
    map appointment (rd_stops result) = map appointment (rd_stops acc) ++ remaining
    /\ scheduleRespected (rd_stops result).
Proof.
  induction remaining as [|currentApt rest IH];
    intros prevApt i t acc result w w' front last Hrun Htravel Ht Hprev Hdur
           Hacc Hlast Harr Hresp.
  - simpl in Hrun. unfold ret in Hrun. injection Hrun as <- <-.
    rewrite app_nil_r. split; [reflexivity | exact Hresp].
  - cbn [routeFrom] in Hrun. unfold bind at 1 in Hrun.
    destruct (getDistanceMatrix (pointOf prevApt) [pointOf currentApt] w)
      as [[e | distanceResult] w1] eqn:Hask; [discriminate|].
    destruct Htravel as [Hservice Hgeo].
    assert (Hanswer := Hservice _ _ _ _ _ Hask).
    set (leg := match distanceResult with
                | first :: _ => (duration first, Types.distance first)
                | [] => (Math_round (geodesicBetween prevApt currentApt * (12 # 10)),
                         (geodesicBetween prevApt currentApt * 1000)%Q)
                end) in *.
    assert (Hleg : 0 <= fst leg).
    { unfold leg. destruct distanceResult as [|first others]; simpl.
      - apply Math_round_nonneg. unfold geodesicBetween.
        specialize (Hgeo (latitude prevApt) (longitude prevApt)
                         (latitude currentApt) (longitude currentApt)). lra.
      - inversion Hanswer; assumption. }
    destruct leg as [travelTime distance] eqn:Eleg. simpl in Hleg.
    simpl nadd in Hrun.
    set (t' := t + (visitDurationMinutes (asAppointment prevApt) + travelTime)) in *.
    match type of Hrun with
    | routeFrom _ _ _ _ {| rd_stops := _ ++ [?s] |} _ = _ => set (stop := s) in *
    end.
    eapply IH in Hrun; try eassumption.
    + destruct Hrun as [Hmap Hresp']. split; [|exact Hresp'].
      rewrite Hmap. cbn [rd_stops]. rewrite map_app. simpl.
      rewrite <- app_assoc. reflexivity.
    + split; assumption.
    + unfold t'. lia.
    + apply Hdur. left. reflexivity.
    + intros apt Hin. apply Hdur. right. exact Hin.
    + cbn [rd_stops]. reflexivity.
    + reflexivity.
    + reflexivity.
    + cbn [rd_stops]. rewrite Hacc. apply scheduleRespected_snoc.
      * rewrite <- Hacc. exact Hresp.
      * exists t, t'. rewrite Harr. simpl arrivalTime.
        rewrite !timeToMinutes_minutesToTime by (unfold t'; lia).
        rewrite Hlast. repeat split. unfold t'. lia.
Qed.


Lemma routeFrom_returns (remaining : list GeocodedAppointment) :
  serviceAnswers ->
  forall prevApt i currentTime acc w, exists result w',
    routeFrom prevApt remaining i currentTime acc w = (inr result, w').
Proof.
  intros Hanswers.
  induction remaining as [|currentApt rest IH]; intros prevApt i currentTime acc w.
  - eexists _, _. reflexivity.
  - cbn [routeFrom]. unfold bind at 1.
    destruct (Hanswers (pointOf prevApt) [pointOf currentApt] w)
      as (distanceResult & w1 & ->).
    destruct (match distanceResult with
              | first :: _ => (duration first, Types.distance first)
              | [] => (Math_round (geodesicBetween prevApt currentApt * (12 # 10)),
                       (geodesicBetween prevApt currentApt * 1000)%Q)
              end) as [travelTime distance].
    apply IH.
Qed.

(** The time at which the route of a day starts. *)
Lemma dayStart_valid (firstApt : GeocodedAppointment) :
  (forall start, startTime (asAppointment firstApt) = Some start ->
                 exists t, timeToMinutes start = Some t /\ 0 <= t) ->
  exists t, 0 <= t /\
    match truthyStr (startTime (asAppointment firstApt)) with
    | Some start => if isInflexible firstApt then timeToMinutes start else Some (9 * 60)
    | None => Some (9 * 60)
    end = Some t.
Proof.
  intros Hvalid. unfold truthyStr.
  destruct (startTime (asAppointment firstApt)) as [start|].
  - destruct (String.eqb start EmptyString); [exists 540; split; [lia | reflexivity]|].
    destruct (isInflexible firstApt); [|exists 540; split; [lia | reflexivity]].
    destruct (Hvalid start eq_refl) as (t & Ht & Hpos). exists t. split; assumption.
  - exists 540. split; [lia | reflexivity].
Qed.

(** The same, asking only for what the route builder reads: the start time
    of a first appointment that is inflexible. *)
Lemma dayStart_of (firstApt : GeocodedAppointment) (ok : Z -> Prop) :
  ok (9 * 60) ->
  (isInflexible firstApt = true ->
   forall start, truthyStr (startTime (asAppointment firstApt)) = Some start ->
                 exists t, timeToMinutes start = Some t /\ ok t) ->
  exists t, ok t /\
    match truthyStr (startTime (asAppointment firstApt)) with
    | Some start => if isInflexible firstApt then timeToMinutes start else Some (9 * 60)
    | None => Some (9 * 60)
    end = Some t.
Proof.
  intros Hnine Hvalid.
  destruct (truthyStr (startTime (asAppointment firstApt))) as [start|].
  - destruct (isInflexible firstApt); [|exists (9 * 60); split; [exact Hnine | reflexivity]].
    destruct (Hvalid eq_refl start eq_refl) as (t & Ht & Hok). exists t. split; assumption.
  - exists (9 * 60). split; [exact Hnine | reflexivity].
Qed.

Lemma calculateRoute_schedule (orderedAppointments : list GeocodedAppointment) :
  forall result w w',
    calculateRoute orderedAppointments w = (inr result, w') ->
    travelTimesValid ->
    anchorStartsValid orderedAppointments ->
    durationsValid orderedAppointments ->
    map appointment (rd_stops result) = orderedAppointments
    /\ scheduleRespected (rd_stops result).
Proof.
  intros result w w' Hrun Htravel Hstart Hdur.
  destruct orderedAppointments as [|firstApt rest].
  - simpl in Hrun. unfold ret in Hrun. injection Hrun as <- <-.
    split; [reflexivity|]. intros [|i] s1 s2 H1; discriminate.
  - cbn [calculateRoute] in Hrun.
    destruct (dayStart_of firstApt (fun t => 0 <= t)) as (t & Ht & Ecur); [lia | |].
    { intros Hinf start Hs. eapply Hstart; [left; reflexivity | exact Hinf | exact Hs]. }
    rewrite Ecur in Hrun.
    assert (Hfirst : 0 <= visitDurationMinutes (asAppointment firstApt))
      by (apply Hdur; left; reflexivity).
    assert (Hrest : forall apt, In apt rest ->
                                0 <= visitDurationMinutes (asAppointment apt))
      by (intros apt Hin; apply Hdur; right; exact Hin).
    refine (routeFrom_schedule rest firstApt 1 t _ result w w' [] _
              Hrun Htravel Ht Hfirst Hrest eq_refl eq_refl eq_refl _).
    intros [|[|i]] s1 s2 H1 H2; simpl in *; discriminate.
Qed.


Lemma calculateRoute_returns (orderedAppointments : list GeocodedAppointment) :
  serviceAnswers ->
  forall w, exists result w', calculateRoute orderedAppointments w = (inr result, w').
Proof.
  intros Hanswers w. destruct orderedAppointments as [|firstApt rest].
  - eexists _, _. reflexivity.
  - cbn [calculateRoute]. apply routeFrom_returns. exact Hanswers.
Qed.

End RouteFacts.

Section DayFacts.
Context {geo : Geodesy} {service : DistanceService}.

Lemma optimizeDay_runs (appointments : list GeocodedAppointment) w :
  exists ordered w1,
    Permutation ordered appointments
    /\ match calculateRoute ordered w1 with
       | (inr result, w') =>
           exists warnings,
             optimizeDay appointments w = (inr (mkDayResult result warnings), w')
       | (inl e, w') => optimizeDay appointments w = (inl e, w')
       end.
Proof.
  destruct (insertAll_spec
              (filter (fun apt => negb (isInflexible apt)) appointments)
              (sort byStartTime (filter isInflexible appointments)) w)
    as (ordered & w1 & Hrun & Hperm).
  exists ordered, w1. split.
  - eapply perm_trans; [exact Hperm|].
    eapply perm_trans; [apply Permutation_app_head, sort_perm|].
    apply partition_perm.
  - unfold optimizeDay, bind. rewrite Hrun.
    unfold optimizeInflexiblePositions, ret.
    destruct (calculateRoute ordered w1) as [[e | result] w'].
    + reflexivity.
    + eexists. reflexivity.
Qed.

Lemma anchorStartsValid_perm l1 l2 :
  Permutation l1 l2 -> anchorStartsValid l2 -> anchorStartsValid l1.
Proof.
  intros P Hv apt start Hin. apply Hv. eapply Permutation_in; eassumption.
Qed.


Lemma startTimesValid_anchors l : startTimesValid l -> anchorStartsValid l.
Proof.
  intros Hv apt start Hin _ Hs. unfold truthyStr in Hs.
  destruct (startTime (asAppointment apt)) as [present|] eqn:E; [|discriminate].
  destruct (String.eqb present EmptyString); [discriminate|].
  injection Hs as ->. eapply Hv; eassumption.
Qed.


Lemma durationsValid_perm l1 l2 :
  Permutation l1 l2 -> durationsValid l2 -> durationsValid l1.
Proof.
  intros P Hv apt Hin. apply Hv. eapply Permutation_in; eassumption.
Qed.

(** The arrivals along the route of a day follow each other. *)
Lemma optimizeDay_schedule (appointments : list GeocodedAppointment) w day w' :
  optimizeDay appointments w = (inr day, w') ->
  durationsValid appointments ->
  anchorStartsValid appointments ->
  travelTimesValid ->
  scheduleRespected (rd_stops (day_route day)).
Proof.
  intros Hday Hdur Hstart Htravel.
  destruct (optimizeDay_runs appointments w) as (ordered & w1 & Hperm & Hrun).
  destruct (calculateRoute ordered w1) as [[e | result] w2] eqn:Hroute.
  - rewrite Hday in Hrun. discriminate.
  - destruct Hrun as (warnings & Hrun). rewrite Hday in Hrun.
    injection Hrun as -> ->.
    apply calculateRoute_schedule in Hroute;
      [| exact Htravel
       | eapply anchorStartsValid_perm; eassumption
       | eapply durationsValid_perm; eassumption].
    apply Hroute.
Qed.

Lemma optimizeDay_returns (appointments : list GeocodedAppointment) w :
  serviceAnswers -> exists day w', optimizeDay appointments w = (inr day, w').
Proof.
  intros Hanswers.
  destruct (optimizeDay_runs appointments w) as (ordered & w1 & Hperm & Hrun).
  destruct (calculateRoute_returns ordered Hanswers w1) as (result & w2 & Hroute).
  rewrite Hroute in Hrun. destruct Hrun as (warnings & Hrun).
  eexists _, _. exact Hrun.
Qed.



End DayFacts.

(** C1.  The route that [optimizeRoute] returns with success for two
    inflexible appointments, at 09:00 and at 14:00, and a flexible one on
    the same day, whatever the great-circle distance: the appointment of
    14:00 is reached at 10:20, 220 minutes before its preferred start and
    outside the grace period of 15 minutes, and the appointment of 09:00 is
    reached 40 minutes late.  The stops are marked [early] and [late];
    [validateRoute], which the route builder never calls, rejects the
    route. *)
Theorem optimizeRoute_misses_grace_period (geo : Geodesy) :
  let route := fst (@optimizeRoute geo steadyService [delivery; errand; clinic] 0%nat) in
  success route = true
  /\ map (fun stop =>
            (appName (asAppointment (appointment stop)),
             startTime (asAppointment (appointment stop)),
             arrivalTime stop, status stop, minutesFromPreferred stop))
         (stops route)
     = [ ("errand", None, "09:00", on_time, Some 0);
         ("delivery", Some "09:00", "09:40", late, Some 40);
         ("clinic", Some "14:00", "10:20", early, Some 220) ]
  /\ isWithinGracePeriod "10:20" "14:00" GRACE_PERIOD_MINUTES = false
  /\ List.length (validateRoute (stops route) GRACE_PERIOD_MINUTES) = 2%nat.
Proof.
  (* the only use of the great-circle distance is a test whose other half
     already fails *)
  assert (Hcheck : @canOptimize (@canOptimizeRoute geo [delivery; errand; clinic]) = true).
  { unfold canOptimizeRoute, checkScheduleFeasibility.
    cbv -[andb Qltb haversineDistance]. rewrite andb_false_r. reflexivity. }
  unfold optimizeRoute, tryOptimizeRoute. rewrite Hcheck.
  vm_compute. repeat split; reflexivity.
Qed.

(* ================================================================== *)
(** ** Times of day and conflicts, further *)
(* ================================================================== *)

(** X1.  The time strings round-trip.  A number of minutes that is not
    negative, written by [minutesToTime] and read back by [timeToMinutes],
    is the same number (also past 24 hours); so two such numbers with the
    same string are equal. *)
Theorem minutesToTime_round_trip (t : Z) :
  0 <= t ->
  timeToMinutes (minutesToTime (Some t)) = Some t
  /\ (forall t', 0 <= t' -> minutesToTime (Some t) = minutesToTime (Some t') -> t = t').
Proof.
  intros Ht. split.
  - apply timeToMinutes_minutesToTime. exact Ht.
  - intros t' Ht' E.
    assert (Some t = Some t') as [= ->]; [|reflexivity].
    rewrite <- (timeToMinutes_minutesToTime t Ht), <- (timeToMinutes_minutesToTime t' Ht').
    rewrite E. reflexivity.
Qed.

(** X2.  The three arrival statuses, for a grace period that is not negative.
    When both strings read as times: [on_time] exactly when they are at
    most the grace period apart, [early] exactly when the arrival is more
    than the grace period before the preferred time, [late] exactly when
    it is more than the grace period after it.  When one of them does not
    read as a time the status is [late].  In every case the status is
    [on_time] exactly when [isWithinGracePeriod] holds. *)
Theorem getArrivalStatus_cases (arrivalTime preferredTime : string) (gracePeriod : Z) :
  0 <= gracePeriod ->
  (forall arrival preferred,
      timeToMinutes arrivalTime = Some arrival ->
      timeToMinutes preferredTime = Some preferred ->
      (getArrivalStatus arrivalTime preferredTime gracePeriod = on_time
       <-> Z.abs (arrival - preferred) <= gracePeriod)
      /\ (getArrivalStatus arrivalTime preferredTime gracePeriod = early
          <-> arrival < preferred - gracePeriod)
      /\ (getArrivalStatus arrivalTime preferredTime gracePeriod = late
          <-> preferred + gracePeriod < arrival))
  /\ (timeToMinutes arrivalTime = None \/ timeToMinutes preferredTime = None ->
      getArrivalStatus arrivalTime preferredTime gracePeriod = late)
  /\ (getArrivalStatus arrivalTime preferredTime gracePeriod = on_time
      <-> isWithinGracePeriod arrivalTime preferredTime gracePeriod = true).
Proof.
  intros Hg. unfold getArrivalStatus, isWithinGracePeriod, timeDifference.
  split; [|split].
  - intros arrival preferred -> ->. simpl.
    destruct (Z.leb_spec (Z.abs (arrival - preferred)) gracePeriod);
      destruct (Z.ltb_spec arrival preferred);
      repeat split; intros; try discriminate; try reflexivity; lia.
  - intros [-> | ->]; simpl.
    + reflexivity.
    + destruct (timeToMinutes arrivalTime); reflexivity.
  - destruct (nleb _ _).
    + split; reflexivity.
    + destruct (nltb _ _); split; discriminate.
Qed.

Section ConflictFacts.
Context {T : Type} `{AppointmentLike T}.

Lemma detectConflict_by_minutes (a b : T) :
  detectConflict a b =
    match startMinutes a, startMinutes b with
    | Some ta, Some tb =>
        if ta <? tb then
          if tb - ta <? visitDurationMinutes (asAppointment a)
          then Some (mkSchedulingConflict (a, b) (tb - ta)
                       (visitDurationMinutes (asAppointment a))
                       (severityOf (visitDurationMinutes (asAppointment a) - (tb - ta))))
          else None
        else
          if ta - tb <? visitDurationMinutes (asAppointment b)
          then Some (mkSchedulingConflict (b, a) (ta - tb)
                       (visitDurationMinutes (asAppointment b))
                       (severityOf (visitDurationMinutes (asAppointment b) - (ta - tb))))
          else None
    | _, _ => None
    end.
Proof.
  unfold detectConflict, startMinutes, severityOf.
  destruct (truthyStr (startTime (asAppointment a))) as [sa|]; [|reflexivity].
  destruct (truthyStr (startTime (asAppointment b))) as [sb|].
  - destruct (timeToMinutes sa) as [ta|], (timeToMinutes sb) as [tb|]; simpl;
      try reflexivity.
    destruct (ta <? tb); reflexivity.
  - destruct (timeToMinutes sa); reflexivity.
Qed.

(** X3.  What a reported conflict holds.  Its two appointments are the two
    arguments, the one that starts no later first; the gap is the
    difference of the two starts, at least zero and less than the required
    minutes, which are the visit duration of the first; the severity is
    [critical] for a shortfall of more than 30 minutes, [major] for more
    than 15, else [minor]. *)
Theorem detectConflict_result (a b : T) (c : SchedulingConflict T) :
  detectConflict a b = Some c ->
  exists first second firstTime secondTime,
    appointments c = (first, second)
    /\ ((first, second) = (a, b) \/ (first, second) = (b, a))
    /\ startMinutes first = Some firstTime
    /\ startMinutes second = Some secondTime
    /\ firstTime <= secondTime
    /\ gapMinutes c = secondTime - firstTime
    /\ requiredMinutes c = visitDurationMinutes (asAppointment first)
    /\ 0 <= gapMinutes c < requiredMinutes c
    /\ severity c = severityOf (requiredMinutes c - gapMinutes c).
Proof.
  rewrite detectConflict_by_minutes.
  destruct (startMinutes a) as [ta|] eqn:Ea; [|discriminate].
  destruct (startMinutes b) as [tb|] eqn:Eb; [|discriminate].
  destruct (Z.ltb_spec ta tb).
  - destruct (Z.ltb_spec (tb - ta) (visitDurationMinutes (asAppointment a)));
      [|discriminate].
    intros [= <-]. exists a, b, ta, tb. simpl. repeat split; auto; lia.
  - destruct (Z.ltb_spec (ta - tb) (visitDurationMinutes (asAppointment b)));
      [|discriminate].
    intros [= <-]. exists b, a, tb, ta. simpl. repeat split; auto; lia.
Qed.

(** X4.  [detectConflict] does not depend on the order of its arguments,
    unless both start at the same minute (then the second argument is
    taken as the earlier one, and its duration decides). *)
Theorem detectConflict_order_independent (a b : T) :
  ~ (exists t, startMinutes a = Some t /\ startMinutes b = Some t) ->
  detectConflict a b = detectConflict b a.
Proof.
  intros Hdiff. rewrite !detectConflict_by_minutes.
  destruct (startMinutes a) as [ta|], (startMinutes b) as [tb|]; try reflexivity.
  assert (ta <> tb) by (intros ->; apply Hdiff; eauto).
  destruct (Z.ltb_spec ta tb), (Z.ltb_spec tb ta); try lia; reflexivity.
Qed.

Lemma getAppointmentPairs_length (appointments : list T) :
  (2 * List.length (getAppointmentPairs appointments)
   = List.length appointments * (List.length appointments - 1))%nat.
Proof.
  induction appointments as [|a rest IH]; simpl.
  - reflexivity.
  - rewrite length_app, length_map. nia.
Qed.

Lemma getAppointmentPairs_positions (appointments : list T) (x y : T) :
  In (x, y) (getAppointmentPairs appointments)
  <-> exists i j, (i < j)%nat /\ nth_error appointments i = Some x
                  /\ nth_error appointments j = Some y.
Proof.
  induction appointments as [|a rest IH]; simpl.
  - split; [intros [] | intros (i & j & _ & Hi & _); destruct i; discriminate].
  - rewrite in_app_iff, in_map_iff, IH. split.
    + intros [(z & [= <- <-] & Hz) | (i & j & Hij & Hi & Hj)].
      * apply In_nth_error in Hz. destruct Hz as (j & Hj).
        exists 0%nat, (S j). repeat split; [lia | exact Hj].
      * exists (S i), (S j). repeat split; [lia | exact Hi | exact Hj].
    + intros (i & j & Hij & Hi & Hj). destruct j as [|j]; [lia|]. simpl in Hj.
      destruct i as [|i]; simpl in Hi.
      * injection Hi as ->. left. exists y. split; [reflexivity|].
        eapply nth_error_In. exact Hj.
      * right. exists i, j. repeat split; [lia | exact Hi | exact Hj].
Qed.

Lemma findAllConflicts_members (appointments : list T) c :
  In c (findAllConflicts appointments)
  <-> exists x y i j,
        (i < j)%nat /\ nth_error appointments i = Some x
        /\ nth_error appointments j = Some y
        /\ date (asAppointment x) = date (asAppointment y)
        /\ detectConflict x y = Some c.
Proof.
  unfold findAllConflicts. rewrite in_flat_map. split.
  - intros ([x y] & Hpair & Hc).
    apply getAppointmentPairs_positions in Hpair.
    destruct Hpair as (i & j & Hij & Hi & Hj).
    destruct (String.eqb_spec (date (asAppointment x)) (date (asAppointment y)))
      as [Hdate | Hdate]; simpl in Hc; [|contradiction].
    destruct (detectConflict x y) as [c'|] eqn:Hd; [|contradiction].
    destruct Hc as [<- | []].
    exists x, y, i, j. repeat split; assumption.
  - intros (x & y & i & j & Hij & Hi & Hj & Hdate & Hc).
    exists (x, y). split.
    + apply getAppointmentPairs_positions. exists i, j. auto.
    + rewrite Hdate, String.eqb_refl, Hc. left. reflexivity.
Qed.

(** X5.  [getAppointmentPairs] lists each pair of positions [i < j] once,
    [n (n - 1) / 2] pairs for [n] appointments, and [findAllConflicts]
    reports exactly the conflicts that [detectConflict] finds for those
    pairs whose two appointments have the same date. *)
Theorem findAllConflicts_same_date_pairs (appointments : list T) :
  (2 * List.length (getAppointmentPairs appointments)
   = List.length appointments * (List.length appointments - 1))%nat
  /\ (forall x y,
        In (x, y) (getAppointmentPairs appointments)
        <-> exists i j, (i < j)%nat /\ nth_error appointments i = Some x
                        /\ nth_error appointments j = Some y)
  /\ (List.length (findAllConflicts appointments)
      <= List.length (getAppointmentPairs appointments))%nat
  /\ (forall c,
        In c (findAllConflicts appointments)
        <-> exists x y i j,
              (i < j)%nat /\ nth_error appointments i = Some x
              /\ nth_error appointments j = Some y
              /\ date (asAppointment x) = date (asAppointment y)
              /\ detectConflict x y = Some c).
Proof.
  split; [apply getAppointmentPairs_length|].
  split; [apply getAppointmentPairs_positions|].
  split; [|apply findAllConflicts_members].
  unfold findAllConflicts.
  induction (getAppointmentPairs appointments) as [|[x y] pairs IH]; simpl.
  - lia.
  - rewrite length_app.
    destruct (negb _); simpl; [lia|].
    destruct (detectConflict x y); simpl; lia.
Qed.
End ConflictFacts.

(* ================================================================== *)
(** ** Grouping by date and the orderings, further *)
(* ================================================================== *)

Section GroupingFacts.
Context {T : Type} `{AppointmentLike T}.

Lemma datesInOrder_snoc (appointments : list T) (apt : T) :
  datesInOrder (appointments ++ [apt])
  = if in_dec string_dec (date (asAppointment apt))
              (map (fun apt => date (asAppointment apt)) appointments)
    then datesInOrder appointments
    else datesInOrder appointments ++ [date (asAppointment apt)].
Proof.
  unfold datesInOrder. rewrite map_app, rev_app_distr. simpl.
  destruct (in_dec string_dec _ (List.rev _)) as [Hin | Hout];
    destruct (in_dec string_dec _ (map _ _)) as [Hin' | Hout']; try reflexivity.
  - exfalso. apply Hout'. apply in_rev. exact Hin.
  - exfalso. apply Hout. apply in_rev in Hin'. exact Hin'.
Qed.

Lemma datesInOrder_In (appointments : list T) (d : string) :
  In d (datesInOrder appointments)
  <-> exists apt, In apt appointments /\ date (asAppointment apt) = d.
Proof.
  unfold datesInOrder. rewrite <- in_rev, nodup_In, <- in_rev, in_map_iff.
  split; intros (apt & H1 & H2); exists apt; auto.
Qed.

Lemma datesInOrder_NoDup (appointments : list T) : NoDup (datesInOrder appointments).
Proof. unfold datesInOrder. apply NoDup_rev, NoDup_nodup. Qed.

Lemma onDate_snoc (d : string) (appointments : list T) (apt : T) :
  onDate d (appointments ++ [apt])
  = if String.eqb d (date (asAppointment apt))
    then onDate d appointments ++ [apt] else onDate d appointments.
Proof.
  unfold onDate. rewrite filter_app. simpl.
  destruct (String.eqb d _); [reflexivity | apply app_nil_r].
Qed.

Lemma groupPush_known (d : string) (apt : T) (appointments : list T) (keys : list string) :
  date (asAppointment apt) = d -> NoDup keys -> In d keys ->
  groupPush d apt (map (fun k => (k, onDate k appointments)) keys)
  = map (fun k => (k, onDate k (appointments ++ [apt]))) keys.
Proof.
  intros Hd Hnodup. induction Hnodup as [|k keys Hk Hnodup IH]; intros Hin.
  - destruct Hin.
  - simpl. rewrite onDate_snoc, Hd.
    destruct (String.eqb_spec k d) as [-> | Hne].
    + f_equal. apply map_ext_in. intros k' Hk'. rewrite onDate_snoc, Hd.
      destruct (String.eqb_spec k' d) as [-> | _]; [contradiction | reflexivity].
    + f_equal. apply IH. destruct Hin as [-> | Hin]; [contradiction | exact Hin].
Qed.

Lemma groupPush_new (d : string) (apt : T) (appointments : list T) (keys : list string) :
  date (asAppointment apt) = d -> ~ In d keys ->
  onDate d appointments = [] ->
  groupPush d apt (map (fun k => (k, onDate k appointments)) keys)
  = map (fun k => (k, onDate k (appointments ++ [apt]))) (keys ++ [d]).
Proof.
  intros Hd Hout Hempty. induction keys as [|k keys IH]; simpl.
  - rewrite onDate_snoc, Hd, String.eqb_refl, Hempty. reflexivity.
  - rewrite onDate_snoc, Hd.
    destruct (String.eqb_spec k d) as [-> | Hne].
    + exfalso. apply Hout. left. reflexivity.
    + f_equal. apply IH. intros Hin. apply Hout. right. exact Hin.
Qed.

Lemma groupAppointmentsByDate_snoc (appointments : list T) (apt : T) :
  groupAppointmentsByDate (appointments ++ [apt])
  = groupPush (date (asAppointment apt)) apt (groupAppointmentsByDate appointments).
Proof. unfold groupAppointmentsByDate. rewrite fold_left_app. reflexivity. Qed.

Lemma groupAppointmentsByDate_groups (appointments : list T) :
  groupAppointmentsByDate appointments
  = map (fun d => (d, onDate d appointments)) (datesInOrder appointments).
Proof.
  induction appointments as [|apt appointments IH] using rev_ind.
  - reflexivity.
  - rewrite groupAppointmentsByDate_snoc, IH, datesInOrder_snoc.
    destruct (in_dec string_dec _ _) as [Hin | Hout].
    + apply groupPush_known; [reflexivity | apply datesInOrder_NoDup |].
      apply datesInOrder_In. apply in_map_iff in Hin.
      destruct Hin as (a & Ha & Hin). exists a. auto.
    + apply groupPush_new; [reflexivity | |].
      * intros Hin. apply Hout. apply datesInOrder_In in Hin.
        destruct Hin as (a & Ha & Hd). apply in_map_iff. exists a. auto.
      * unfold onDate.
        destruct (filter _ appointments) as [|a rest] eqn:E; [reflexivity|].
        exfalso. apply Hout.
        assert (Ha : In a (filter (fun apt0 => String.eqb (date (asAppointment apt))
                                     (date (asAppointment apt0))) appointments))
          by (rewrite E; left; reflexivity).
        apply filter_In in Ha. destruct Ha as [Ha Hd].
        apply String.eqb_eq in Hd. apply in_map_iff. exists a. auto.
Qed.

Lemma groupPush_concat (d : string) (apt : T) (byDate : list (string * list T)) :
  Permutation (List.concat (map snd (groupPush d apt byDate)))
              (apt :: List.concat (map snd byDate)).
Proof.
  induction byDate as [|[k v] rest IH]; simpl.
  - reflexivity.
  - destruct (String.eqb k d); simpl.
    + rewrite <- app_assoc. simpl.
      symmetry. apply Permutation_middle.
    + rewrite IH. symmetry. apply Permutation_middle.
Qed.

Lemma groupAppointmentsByDate_concat (appointments : list T) :
  Permutation (List.concat (map snd (groupAppointmentsByDate appointments))) appointments.
Proof.
  induction appointments as [|apt appointments IH] using rev_ind.
  - reflexivity.
  - rewrite groupAppointmentsByDate_snoc, groupPush_concat, IH.
    apply Permutation_cons_append.
Qed.

Lemma groupAppointmentsByDate_nonempty (appointments : list T) d group :
  In (d, group) (groupAppointmentsByDate appointments) -> group <> [].
Proof.
  intros Hin. rewrite groupAppointmentsByDate_groups in Hin.
  apply in_map_iff in Hin. destruct Hin as (d' & [= -> <-] & Hd).
  apply datesInOrder_In in Hd. destruct Hd as (apt & Hapt & Hd).
  intros Hempty.
  assert (Hin : In apt (onDate d appointments)).
  { unfold onDate. apply filter_In. split; [exact Hapt|].
    apply String.eqb_eq. symmetry. exact Hd. }
  rewrite Hempty in Hin. destruct Hin.
Qed.

(** X6.  Grouping by date loses and invents nothing.  The groups are those of
    the dates of the input, each date once and in the order of first
    occurrence; the group of a date holds the appointments of that date in
    their input order, and is not empty; all groups together are a
    permutation of the input. *)
Theorem groupAppointmentsByDate_partition (appointments : list T) :
  groupAppointmentsByDate appointments
  = map (fun d => (d, onDate d appointments)) (datesInOrder appointments)
  /\ NoDup (map fst (groupAppointmentsByDate appointments))
  /\ (forall d group, In (d, group) (groupAppointmentsByDate appointments) -> group <> [])
  /\ Permutation (List.concat (map snd (groupAppointmentsByDate appointments))) appointments.
Proof.
  split; [apply groupAppointmentsByDate_groups|].
  split; [|split; [|apply groupAppointmentsByDate_concat]].
  - rewrite groupAppointmentsByDate_groups, map_map. simpl. rewrite map_id.
    apply datesInOrder_NoDup.
  - apply groupAppointmentsByDate_nonempty.
Qed.
End GroupingFacts.

Section ReorderingFacts.
Context {T : Type} `{AppointmentLike T}.

Lemma permute_complete (n : nat) :
  forall arr perm : list T,
    (List.length arr <= n)%nat -> Permutation perm arr -> In perm (permute arr).
Proof.
  induction n as [|n IH]; intros arr perm Hlen Hperm; rewrite permute_equation.
  - destruct arr; [|simpl in Hlen; lia]. simpl.
    left. symmetry. apply Permutation_nil. symmetry. exact Hperm.
  - destruct (Nat.leb_spec (List.length arr) 1) as [Hshort | Hlong].
    + left. destruct arr as [|x [|y arr]]; simpl in Hshort; try lia.
      * symmetry. apply Permutation_nil. symmetry. exact Hperm.
      * symmetry. apply Permutation_length_1_inv. symmetry. exact Hperm.
    + destruct perm as [|x perm'].
      { apply Permutation_length in Hperm. simpl in Hperm. lia. }
      assert (Hx : In x arr) by (eapply Permutation_in; [exact Hperm | left; reflexivity]).
      apply In_nth_error in Hx. destruct Hx as (i & Hi).
      apply in_flat_map. exists i. split.
      * apply in_seq. split; [lia|]. simpl. apply nth_error_Some. congruence.
      * rewrite Hi. apply in_map. apply IH.
        -- rewrite removeAt_length; [lia|]. apply nth_error_Some. congruence.
        -- eapply Permutation_cons_inv. rewrite removeAt_perm by exact Hi. exact Hperm.
Qed.

Lemma permute_first (n : nat) :
  forall arr : list T, (List.length arr <= n)%nat ->
    exists others, permute arr = arr :: others.
Proof.
  induction n as [|n IH]; intros arr Hlen; rewrite permute_equation.
  - destruct arr; [|simpl in Hlen; lia]. exists []. reflexivity.
  - destruct (Nat.leb_spec (List.length arr) 1) as [Hshort | Hlong].
    + exists []. reflexivity.
    + destruct arr as [|x rest]; [simpl in Hlong; lia|].
      simpl in Hlen. simpl List.length. simpl seq. simpl flat_map.
      destruct (IH rest ltac:(lia)) as (others & Hothers).
      change (removeAt 0 (x :: rest)) with rest.
      rewrite Hothers. simpl. eexists. reflexivity.
Qed.

Lemma interleave_original (appointments : list T) :
  forall (front : list T),
    interleave appointments
      (front ++ filter (fun apt => negb (isInflexible apt)) appointments)
      (List.length front)
    = appointments.
Proof.
  induction appointments as [|orig rest IH]; intros front; simpl.
  - reflexivity.
  - destruct (isInflexible orig) eqn:E; simpl.
    + f_equal. apply IH.
    + rewrite app_nth2 by lia. rewrite Nat.sub_diag. simpl. f_equal.
      specialize (IH (front ++ [orig])).
      rewrite <- app_assoc, length_app in IH. simpl in IH.
      rewrite Nat.add_1_r in IH. exact IH.
Qed.

(** X7.  [permute] answers exactly the permutations of its argument: a list
    is among the results if and only if it is a rearrangement of the
    argument. *)
Theorem permute_exactly_the_permutations (arr perm : list T) :
  In perm (permute arr) <-> Permutation perm arr.
Proof.
  split.
  - apply permute_perm.
  - apply (permute_complete (List.length arr)). lia.
Qed.

Lemma generateReorderings_first (appointments : list T) :
  exists others, generateReorderings appointments = appointments :: others.
Proof.
  unfold generateReorderings.
  destruct (_ || _); [exists []; reflexivity|].
  destruct (permute_first (List.length (filter (fun apt => negb (isInflexible apt)) appointments))
              (filter (fun apt => negb (isInflexible apt)) appointments) (le_n _))
    as (others & ->).
  pose proof (interleave_original appointments []) as E. simpl in E.
  simpl. rewrite E. eexists. reflexivity.
Qed.

Lemma generateReorderings_complete (appointments flexiblePerm : list T) :
  filter isInflexible appointments <> [] ->
  Permutation flexiblePerm (filter (fun apt => negb (isInflexible apt)) appointments) ->
  In (interleave appointments flexiblePerm 0) (generateReorderings appointments).
Proof.
  intros Hanchors Hperm. unfold generateReorderings.
  destruct (filter isInflexible appointments) as [|anchor anchors] eqn:Ea; [contradiction|].
  simpl.
  destruct (filter (fun apt => negb (isInflexible apt)) appointments) as [|f fs] eqn:Ef.
  - simpl. left. symmetry in Hperm. apply Permutation_nil in Hperm. subst flexiblePerm.
    symmetry. pose proof (interleave_original appointments []) as E.
    rewrite Ef in E. exact E.
  - simpl. apply (in_map (fun p => interleave appointments p 0)).
    apply (permute_complete (List.length (f :: fs))); [lia | exact Hperm].
Qed.

(** What [interleave] puts into the flexible slots: when the permutation
    holds flexible appointments, one per flexible slot, the flexible
    appointments of the result, read in order, are the permutation
    itself, and the inflexible ones are those of the original, in the
    original order. *)
Lemma interleave_flexible_part (appointments : list T) :
  forall front flexiblePerm : list T,
    (forall apt, In apt flexiblePerm -> isInflexible apt = false) ->
    List.length flexiblePerm
    = List.length (filter (fun apt => negb (isInflexible apt)) appointments) ->
    filter (fun apt => negb (isInflexible apt))
           (interleave appointments (front ++ flexiblePerm) (List.length front))
    = flexiblePerm.
Proof.
  induction appointments as [|orig rest IH]; intros front flexiblePerm Hflex Hlen; simpl in *.
  - destruct flexiblePerm; [reflexivity | discriminate].
  - destruct (isInflexible orig) eqn:E; simpl in *.
    + rewrite E. simpl. apply IH; assumption.
    + destruct flexiblePerm as [|x perm']; [discriminate|].
      rewrite app_nth2 by lia. rewrite Nat.sub_diag. simpl.
      rewrite (Hflex x) by (left; reflexivity). simpl. f_equal.
      specialize (IH (front ++ [x]) perm').
      rewrite <- app_assoc, length_app in IH. simpl in IH.
      rewrite Nat.add_1_r in IH. apply IH.
      * intros apt Hin. apply Hflex. right. exact Hin.
      * simpl in Hlen. lia.
Qed.

Lemma interleave_inflexible_part (appointments : list T) :
  forall front flexiblePerm : list T,
    (forall apt, In apt flexiblePerm -> isInflexible apt = false) ->
    List.length flexiblePerm
    = List.length (filter (fun apt => negb (isInflexible apt)) appointments) ->
    filter isInflexible
           (interleave appointments (front ++ flexiblePerm) (List.length front))
    = filter isInflexible appointments.
Proof.
  induction appointments as [|orig rest IH]; intros front flexiblePerm Hflex Hlen; simpl in *.
  - reflexivity.
  - destruct (isInflexible orig) eqn:E; simpl in *.
    + rewrite E. f_equal. apply IH; assumption.
    + destruct flexiblePerm as [|x perm']; [discriminate|].
      rewrite app_nth2 by lia. rewrite Nat.sub_diag. simpl.
      rewrite (Hflex x) by (left; reflexivity).
      specialize (IH (front ++ [x]) perm').
      rewrite <- app_assoc, length_app in IH. simpl in IH.
      rewrite Nat.add_1_r in IH. apply IH.
      * intros apt Hin. apply Hflex. right. exact Hin.
      * simpl in Hlen. lia.
Qed.

(** A list that keeps the inflexible appointments in place has at most as
    many flexible members as the original. *)
Lemma flexible_count_le (appointments : list T) :
  forall reordered : list T,
    List.length reordered = List.length appointments ->
    (forall i orig, nth_error appointments i = Some orig ->
       isInflexible orig = true -> nth_error reordered i = Some orig) ->
    (List.length (filter (fun apt => negb (isInflexible apt)) reordered)
     <= List.length (filter (fun apt => negb (isInflexible apt)) appointments))%nat.
Proof.
  induction appointments as [|orig rest IH]; intros [|x reordered] Hlen Hfixed;
    try discriminate; simpl in *; [lia|].
  assert (Hrest : (List.length (filter (fun apt => negb (isInflexible apt)) reordered)
                   <= List.length (filter (fun apt => negb (isInflexible apt)) rest))%nat).
  { apply IH; [lia|]. intros i o Hi Ho. apply (Hfixed (S i) o Hi Ho). }
  destruct (isInflexible orig) eqn:E; simpl.
  - specialize (Hfixed 0%nat orig eq_refl E). simpl in Hfixed.
    injection Hfixed as ->. rewrite E. simpl. exact Hrest.
  - destruct (isInflexible x); simpl; lia.
Qed.

(** Such a list is the interleaving of its own flexible members. *)
Lemma interleave_rebuilds (appointments : list T) :
  forall front reordered : list T,
    List.length reordered = List.length appointments ->
    (forall i orig, nth_error appointments i = Some orig ->
       isInflexible orig = true -> nth_error reordered i = Some orig) ->
    List.length (filter (fun apt => negb (isInflexible apt)) reordered)
    = List.length (filter (fun apt => negb (isInflexible apt)) appointments) ->
    interleave appointments
      (front ++ filter (fun apt => negb (isInflexible apt)) reordered)
      (List.length front)
    = reordered.
Proof.
  induction appointments as [|orig rest IH]; intros front [|x reordered] Hlen Hfixed Hcount;
    try discriminate; [reflexivity|].
  assert (Hfixed' : forall i o, nth_error rest i = Some o ->
                      isInflexible o = true -> nth_error reordered i = Some o).
  { intros i o Hi Ho. apply (Hfixed (S i) o Hi Ho). }
  simpl in Hlen.
  pose proof (flexible_count_le rest reordered ltac:(lia) Hfixed') as Hle.
  simpl in *. destruct (isInflexible orig) eqn:E; simpl in *.
  - specialize (Hfixed 0%nat orig eq_refl E). simpl in Hfixed.
    injection Hfixed as ->. rewrite E in *. simpl in *.
    f_equal. apply IH; [lia | exact Hfixed' | exact Hcount].
  - destruct (isInflexible x) eqn:Ex; simpl in *; [lia|].
    rewrite app_nth2 by lia. rewrite Nat.sub_diag. simpl. f_equal.
    specialize (IH (front ++ [x]) reordered).
    rewrite <- app_assoc, length_app in IH. simpl in IH.
    rewrite Nat.add_1_r in IH. apply IH; [lia | exact Hfixed' | lia].
Qed.

Lemma flexible_members (appointments flexiblePerm : list T) :
  Permutation flexiblePerm (filter (fun apt => negb (isInflexible apt)) appointments) ->
  forall apt, In apt flexiblePerm -> isInflexible apt = false.
Proof.
  intros Hperm apt Hin.
  apply (Permutation_in _ Hperm) in Hin. apply filter_In in Hin.
  destruct Hin as [_ Hflex]. apply negb_true_iff. exact Hflex.
Qed.

(** The permutations that [permute] lists are pairwise different when the
    members of the array are. *)
Lemma removeAt_NoDup (arr : list T) :
  forall i x, nth_error arr i = Some x -> NoDup arr -> NoDup (removeAt i arr).
Proof.
  intros i x Hi Hnd.
  assert (Hall : NoDup (x :: removeAt i arr)).
  { eapply Permutation_NoDup; [|exact Hnd].
    symmetry. apply removeAt_perm. exact Hi. }
  inversion Hall. assumption.
Qed.

Lemma permute_branches_NoDup (arr : list T) (perms : list T -> list (list T)) :
  NoDup arr ->
  (forall i x, nth_error arr i = Some x -> NoDup (perms (removeAt i arr))) ->
  forall positions : list nat,
    NoDup positions ->
    NoDup (flat_map
             (fun i => match nth_error arr i with
                       | Some current => map (cons current) (perms (removeAt i arr))
                       | None => []
                       end)
             positions).
Proof.
  intros Harr Hperms positions.
  induction positions as [|i rest IH]; intros Hpos; simpl.
  - constructor.
  - inversion Hpos as [|? ? Hfresh Hrest]; subst.
    apply NoDup_app.
    + destruct (nth_error arr i) as [current|] eqn:Hi; [|constructor].
      apply NoDup_map_NoDup_ForallPairs; [|eapply Hperms; exact Hi].
      intros p q _ _ Heq. congruence.
    + apply IH. exact Hrest.
    + intros perm Hhere Hthere.
      destruct (nth_error arr i) as [current|] eqn:Hi; [|contradiction].
      apply in_map_iff in Hhere. destruct Hhere as (p & <- & _).
      apply in_flat_map in Hthere. destruct Hthere as (j & Hj & Hthere).
      destruct (nth_error arr j) as [other|] eqn:Hjth; [|contradiction].
      apply in_map_iff in Hthere. destruct Hthere as (q & Heq & _).
      injection Heq as -> _.
      assert (i = j).
      { apply (proj1 (NoDup_nth_error arr) Harr).
        - apply nth_error_Some. congruence.
        - congruence. }
      subst j. contradiction.
Qed.

Lemma permute_NoDup (n : nat) :
  forall arr : list T, (List.length arr <= n)%nat -> NoDup arr -> NoDup (permute arr).
Proof.
  induction n as [|n IH]; intros arr Hlen Harr; rewrite permute_equation.
  - destruct arr; [|simpl in Hlen; lia]. simpl. repeat constructor. intros [].
  - destruct (Nat.leb_spec (List.length arr) 1) as [Hshort | Hlong].
    + repeat constructor. intros [].
    + apply (permute_branches_NoDup arr permute Harr).
      * intros i x Hi. apply IH.
        -- rewrite removeAt_length; [lia|]. apply nth_error_Some. congruence.
        -- eapply removeAt_NoDup; eassumption.
      * apply seq_NoDup.
Qed.

(** The flexible appointments of the orderings, read in order, are the
    permutations that [permute] lists, in the same order; the inflexible
    ones are those of the original, in the original order. *)
Lemma generateReorderings_flexible_parts (appointments : list T) :
  filter isInflexible appointments <> [] ->
  map (filter (fun apt => negb (isInflexible apt))) (generateReorderings appointments)
  = permute (filter (fun apt => negb (isInflexible apt)) appointments).
Proof.
  intros Hanchors. unfold generateReorderings.
  destruct (filter isInflexible appointments) as [|anchor anchors] eqn:Ea; [contradiction|].
  simpl.
  destruct (filter (fun apt => negb (isInflexible apt)) appointments) as [|f fs] eqn:Ef.
  - simpl. rewrite Ef. reflexivity.
  - simpl. rewrite map_map. rewrite <- (map_id (permute (f :: fs))) at 2.
    apply map_ext_in. intros flexiblePerm Hin. apply permute_perm in Hin.
    apply (interleave_flexible_part appointments []).
    + apply (flexible_members appointments). rewrite Ef. exact Hin.
    + rewrite Ef. apply Permutation_length. exact Hin.
Qed.

Lemma generateReorderings_inflexible_parts (appointments reordered : list T) :
  In reordered (generateReorderings appointments) ->
  filter isInflexible reordered = filter isInflexible appointments.
Proof.
  unfold generateReorderings.
  destruct (_ || _); [intros [<- | []]; reflexivity|].
  intros Hin. apply in_map_iff in Hin. destruct Hin as (flexiblePerm & <- & Hin).
  apply permute_perm in Hin.
  apply (interleave_inflexible_part appointments []).
  - apply (flexible_members appointments). exact Hin.
  - apply Permutation_length. exact Hin.
Qed.

Lemma generateReorderings_keeps_inflexible (appointments reordered : list T) :
  In reordered (generateReorderings appointments) ->
  forall i orig, nth_error appointments i = Some orig ->
    isInflexible orig = true -> nth_error reordered i = Some orig.
Proof.
  unfold generateReorderings.
  destruct (_ || _); [intros [<- | []]; auto|].
  intros Hin. apply in_map_iff in Hin. destruct Hin as (flexiblePerm & <- & _).
  intros i orig. apply interleave_keeps_inflexible.
Qed.

(** Which lists are among the orderings: those that are as long as the
    original, keep every inflexible appointment at its position, and whose
    flexible members are a rearrangement of the original flexible ones. *)
Lemma generateReorderings_members (appointments reordered : list T) :
  filter isInflexible appointments <> [] ->
  In reordered (generateReorderings appointments)
  <-> List.length reordered = List.length appointments
      /\ (forall i orig, nth_error appointments i = Some orig ->
            isInflexible orig = true -> nth_error reordered i = Some orig)
      /\ Permutation (filter (fun apt => negb (isInflexible apt)) reordered)
                     (filter (fun apt => negb (isInflexible apt)) appointments).
Proof.
  intros Hanchors. split.
  - intros Hin.
    assert (Hflex : In (filter (fun apt => negb (isInflexible apt)) reordered)
                       (permute (filter (fun apt => negb (isInflexible apt)) appointments))).
    { rewrite <- generateReorderings_flexible_parts by exact Hanchors.
      apply in_map. exact Hin. }
    apply permute_perm in Hflex.
    unfold generateReorderings in Hin.
    destruct (_ || _).
    + destruct Hin as [<- | []]. repeat split; auto.
    + apply in_map_iff in Hin. destruct Hin as (flexiblePerm & <- & _).
      split; [apply interleave_length|]. split; [|exact Hflex].
      intros i orig. apply interleave_keeps_inflexible.
  - intros (Hlen & Hfixed & Hperm).
    rewrite <- (interleave_rebuilds appointments [] reordered Hlen Hfixed
                  (Permutation_length Hperm)).
    apply generateReorderings_complete; assumption.
Qed.

Lemma generateReorderings_NoDup (appointments : list T) :
  filter isInflexible appointments <> [] ->
  NoDup (filter (fun apt => negb (isInflexible apt)) appointments) ->
  NoDup (generateReorderings appointments).
Proof.
  intros Hanchors Hdistinct.
  apply (NoDup_map_inv (filter (fun apt => negb (isInflexible apt)))).
  rewrite generateReorderings_flexible_parts by exact Hanchors.
  apply (permute_NoDup (List.length (filter (fun apt => negb (isInflexible apt)) appointments)));
    [lia | exact Hdistinct].
Qed.

(** C6.  With [k >= 1] flexible and [m >= 1] inflexible appointments,
    [generateReorderings] returns [k!] orderings.  A list is one of them
    exactly when it is as long as the original, has every inflexible
    appointment at its original position, and its flexible members, read
    in order, are a rearrangement of the original flexible appointments;
    so every way of placing the flexible appointments into the flexible
    positions is returned.  When the flexible appointments are pairwise
    different the [k!] orderings are pairwise different.  With [k = 0] or
    [m = 0] the original list alone is returned. *)
Theorem generateReorderings_count (appointments : list T) :
  let flexible := filter (fun apt => negb (isInflexible apt)) appointments in
  let k := List.length flexible in
  let m := List.length (filter isInflexible appointments) in
  ((1 <= m)%nat -> (1 <= k)%nat ->
     List.length (generateReorderings appointments) = fact k
     /\ (forall reordered,
           In reordered (generateReorderings appointments)
           <-> List.length reordered = List.length appointments
               /\ (forall i orig, nth_error appointments i = Some orig ->
                     isInflexible orig = true -> nth_error reordered i = Some orig)
               /\ Permutation
                    (filter (fun apt => negb (isInflexible apt)) reordered) flexible)
     /\ (NoDup flexible -> NoDup (generateReorderings appointments)))
  /\ (k = 0%nat \/ m = 0%nat -> generateReorderings appointments = [appointments]).
Proof.
  intros flexible k m. split.
  - intros Hm Hk.
    assert (Hanchors : filter isInflexible appointments <> []).
    { intros E. unfold m in Hm. rewrite E in Hm. simpl in Hm. lia. }
    split; [|split].
    + unfold generateReorderings. fold flexible k m.
      destruct (Nat.eqb_spec m 0) as [|_]; [lia|].
      destruct (Nat.eqb_spec k 0) as [|_]; [lia|]. simpl.
      rewrite length_map. apply permute_length.
    + intros reordered. apply generateReorderings_members. exact Hanchors.
    + apply generateReorderings_NoDup. exact Hanchors.
  - intros Hzero. unfold generateReorderings. fold flexible k m.
    destruct Hzero as [-> | ->]; simpl; [rewrite orb_true_r|]; reflexivity.
Qed.

(** X8.  The orderings of [generateReorderings].  Each is a rearrangement
    of the input that has every inflexible appointment at its original
    position, the inflexible ones thus in their original order.  The first
    is the input itself.  When at least one appointment is inflexible, the
    flexible appointments of the [n]-th ordering, read in order, are the
    [n]-th permutation that [permute] lists for the flexible appointments
    of the input: the orderings are those permutations, one after the
    other, written into the positions of the flexible appointments. *)
Theorem generateReorderings_orderings (appointments : list T) :
  (forall reordered, In reordered (generateReorderings appointments) ->
     Permutation reordered appointments
     /\ (forall i orig, nth_error appointments i = Some orig ->
           isInflexible orig = true -> nth_error reordered i = Some orig)
     /\ filter isInflexible reordered = filter isInflexible appointments)
  /\ (exists others, generateReorderings appointments = appointments :: others)
  /\ (filter isInflexible appointments <> [] ->
      map (filter (fun apt => negb (isInflexible apt))) (generateReorderings appointments)
      = permute (filter (fun apt => negb (isInflexible apt)) appointments)).
Proof.
  split; [|split].
  - intros reordered Hin. split; [|split].
    + apply generateReorderings_perm. exact Hin.
    + apply generateReorderings_keeps_inflexible. exact Hin.
    + apply generateReorderings_inflexible_parts. exact Hin.
  - apply generateReorderings_first.
  - apply generateReorderings_flexible_parts.
Qed.
End ReorderingFacts.

(* ================================================================== *)
(** ** Gaps and the range of the scores *)
(* ================================================================== *)

Section GapFacts.
Context {T : Type} `{AppointmentLike T}.

Lemma calculateGapMinutes_by_minutes (a b : T) ta tb :
  startMinutes a = Some ta -> startMinutes b = Some tb ->
  calculateGapMinutes a b
  = Minutes (Some (tb - (ta + visitDurationMinutes (asAppointment a)))).
Proof.
  unfold startMinutes, calculateGapMinutes.
  destruct (truthyStr (startTime (asAppointment a))) as [sa|]; [|discriminate].
  destruct (truthyStr (startTime (asAppointment b))) as [sb|]; [|discriminate].
  intros -> ->. reflexivity.
Qed.

(** X9.  [calculateGapMinutes] agrees with [detectConflict].  For a reported
    conflict the gap from the end of its first appointment to the start of
    its second is the reported gap less the required minutes, a negative
    number; for two appointments of which the first starts earlier and
    that do not conflict it is not negative; and without a start time the
    gap is [Infinity] and no conflict is reported. *)
Theorem calculateGapMinutes_negative_for_conflicts (a b : T) :
  (forall c, detectConflict a b = Some c ->
     calculateGapMinutes (fst (appointments c)) (snd (appointments c))
     = Minutes (Some (gapMinutes c - requiredMinutes c))
     /\ gapMinutes c - requiredMinutes c < 0)
  /\ (forall ta tb,
        startMinutes a = Some ta -> startMinutes b = Some tb -> ta < tb ->
        detectConflict a b = None ->
        exists g, calculateGapMinutes a b = Minutes (Some g) /\ 0 <= g)
  /\ (truthyStr (startTime (asAppointment a)) = None
      \/ truthyStr (startTime (asAppointment b)) = None ->
      calculateGapMinutes a b = Infinity /\ detectConflict a b = None).
Proof.
  split; [|split].
  - intros c. rewrite detectConflict_by_minutes.
    destruct (startMinutes a) as [ta|] eqn:Ea; [|discriminate].
    destruct (startMinutes b) as [tb|] eqn:Eb; [|discriminate].
    destruct (Z.ltb_spec ta tb).
    + destruct (Z.ltb_spec (tb - ta) (visitDurationMinutes (asAppointment a)));
        [|discriminate].
      intros [= <-]. simpl. rewrite (calculateGapMinutes_by_minutes a b ta tb Ea Eb).
      split; [do 2 f_equal|]; lia.
    + destruct (Z.ltb_spec (ta - tb) (visitDurationMinutes (asAppointment b)));
        [|discriminate].
      intros [= <-]. simpl. rewrite (calculateGapMinutes_by_minutes b a tb ta Eb Ea).
      split; [do 2 f_equal|]; lia.
  - intros ta tb Ea Eb Hlt. rewrite detectConflict_by_minutes, Ea, Eb.
    destruct (Z.ltb_spec ta tb); [|lia].
    destruct (Z.ltb_spec (tb - ta) (visitDurationMinutes (asAppointment a)));
      [discriminate|].
    intros _. eexists. split; [apply (calculateGapMinutes_by_minutes a b ta tb Ea Eb)|]. lia.
  - unfold calculateGapMinutes, detectConflict.
    intros [-> | ->].
    + split; reflexivity.
    + destruct (truthyStr (startTime (asAppointment a))); split; reflexivity.
Qed.
End GapFacts.


Lemma Math_round_bounds (x : Q) (lo hi : Z) :
  (inject_Z lo <= x <= inject_Z hi)%Q -> lo <= Math_round x <= hi.
Proof.
  intros [Hlo Hhi]. split.
  - rewrite <- (Math_round_whole lo). apply Math_round_monotone. exact Hlo.
  - rewrite <- (Math_round_whole hi). apply Math_round_monotone. exact Hhi.
Qed.

Lemma fold_impact_nonneg (cs : list ScheduleChange) :
  Forall (fun change => (0 <= impactMinutes change)%Q) cs ->
  (0 <= fold_right Qplus 0 (map impactMinutes cs))%Q.
Proof.
  induction 1 as [|c cs Hc _ IH]; simpl.
  - apply Qle_refl.
  - simpl in Hc. lra.
Qed.

Lemma calculateDisruptionScore_bounds (solution : Solution) orig :
  Forall (fun change => (0 <= impactMinutes change)%Q) (changes solution) ->
  (0 <= calculateDisruptionScore solution orig <= 100)%Q.
Proof.
  intros Hpos. rewrite calculateDisruptionScore_formula.
  unfold ScoreFormula.disruption.
  destruct (changes solution) as [|c cs] eqn:E.
  - split; [apply Qle_refl | discriminate].
  - pose proof (Math_min_spec 100
      (ScoreFormula.round1 (100 * ScoreFormula.sumImpactMinutes solution
                            / (480 * ScoreFormula.numChanges solution)))) as (Hle & _ & Hcase).
    split; [|exact Hle].
    assert (Hround : (0 <= ScoreFormula.round1 (100 * ScoreFormula.sumImpactMinutes solution
                            / (480 * ScoreFormula.numChanges solution)))%Q).
    { unfold ScoreFormula.round1.
      apply Qle_shift_div_l; [reflexivity|]. rewrite Qmult_0_l.
      change 0%Q with (inject_Z 0). rewrite <- Zle_Qle.
      apply Math_round_nonneg.
      apply Qmult_le_0_compat; [|discriminate].
      apply Qle_shift_div_l.
      - unfold ScoreFormula.numChanges. rewrite E. simpl List.length.
        apply Qmult_lt_0_compat; [reflexivity|].
        change 0%Q with (inject_Z 0). rewrite <- Zlt_Qlt. lia.
      - rewrite Qmult_0_l. apply Qmult_le_0_compat; [discriminate|].
        unfold ScoreFormula.sumImpactMinutes. apply fold_impact_nonneg.
        rewrite E. exact Hpos. }
    destruct Hcase as [-> | ->]; [discriminate | exact Hround].
Qed.

Lemma calculateBufferDeviationScore_values (solution : Solution) config :
  let score := calculateBufferDeviationScore solution config in
  score = 0%Q \/ score = 25%Q \/ score = 60%Q \/ score = 100%Q.
Proof.
  unfold calculateBufferDeviationScore.
  destruct (statistics solution); [|auto].
  destruct (Qeq_bool _ 0); [auto|].
  destruct (quotient_leb _ 1); [auto|].
  destruct (quotient_leb _ (15 # 10)); [auto|].
  destruct (quotient_leb _ 2); auto.
Qed.

Lemma calculateImpactScore_bounds (solution : Solution) orig config :
  wellFormedSolution solution ->
  (0 <= calculateImpactScore solution orig config <= 100)%Q.
Proof.
  intros [Hchanges [Hrate0 Hrate1]]. unfold calculateImpactScore.
  pose proof (calculateDisruptionScore_bounds solution orig Hchanges) as [Hd0 Hd1].
  set (d := calculateDisruptionScore solution orig) in *.
  set (b := calculateBufferDeviationScore solution _).
  assert (Hb : (0 <= b <= 100)%Q).
  { pose proof (calculateBufferDeviationScore_values solution
       (Some match config with Some c => c | None => DEFAULT_BUFFER_CONFIG end)) as Hv.
    fold b in Hv. simpl in Hv.
    destruct Hv as [-> | [-> | [-> | ->]]]; split; discriminate. }
  destruct Hb as [Hb0 Hb1].
  set (r := successRate solution) in *.
  assert (Hsum : (inject_Z 0 <= (d * (4 # 10) + (1 - r) * 100 * (3 # 10) + b * (3 # 10)) * 100
                  <= inject_Z 10000)%Q).
  { change (inject_Z 0) with 0%Q. change (inject_Z 10000) with 10000%Q. split; nra. }
  apply Math_round_bounds in Hsum. destruct Hsum as [H0 H1].
  split.
  - apply Qle_shift_div_l; [reflexivity|]. rewrite Qmult_0_l.
    change 0%Q with (inject_Z 0). rewrite <- Zle_Qle. exact H0.
  - apply Qle_shift_div_r; [reflexivity|].
    change (100 * 100)%Q with (inject_Z 10000). rewrite <- Zle_Qle. exact H1.
Qed.

(** X10.  The range of the scores.  For a solution whose changes move
    appointments by no negative number of minutes and whose success rate
    lies between 0 and 1, the disruption score and the impact score lie
    between 0 and 100, and the buffer deviation score is one of 0, 25, 60
    and 100. *)
Theorem calculateImpactScore_between_0_and_100
    (solution : Solution) (originalAppointments : option (list Appointment))
    (config : option BufferConfiguration) :
  wellFormedSolution solution ->
  (0 <= calculateDisruptionScore solution originalAppointments <= 100)%Q
  /\ In (calculateBufferDeviationScore solution config) [0; 25; 60; 100]%Q
  /\ (0 <= calculateImpactScore solution originalAppointments config <= 100)%Q.
Proof.
  intros Hwf. split; [|split].
  - apply calculateDisruptionScore_bounds. apply Hwf.
  - pose proof (calculateBufferDeviationScore_values solution config) as Hv.
    simpl in *. intuition.
  - apply calculateImpactScore_bounds. exact Hwf.
Qed.

(* ================================================================== *)
(** ** Ranking and the scorecard *)
(* ================================================================== *)

Section SortedByKey.
Context {A : Type} (key : A -> Q).

Lemma sortQ_insert_sorted (x : A) (l : list A) :
  StronglySorted (fun a b => (key a <= key b)%Q) l ->
  StronglySorted (fun a b => (key a <= key b)%Q)
    (sortQ_insert (fun a b => (key a - key b)%Q) x l).
Proof.
  induction 1 as [|y l Hsorted IH Hy]; simpl.
  - constructor; constructor.
  - destruct (Qle_bool (key x - key y) 0) eqn:E.
    + apply Qle_bool_iff in E.
      constructor; [constructor; assumption|].
      constructor; [lra|].
      eapply Forall_impl; [|exact Hy]. simpl. intros a Ha. lra.
    + assert (Hlt : ~ (key x - key y <= 0)%Q).
      { intros Hle. apply Qle_bool_iff in Hle. congruence. }
      constructor; [exact IH|].
      eapply Permutation_Forall.
      * symmetry. apply sortQ_insert_perm.
      * constructor; [lra | exact Hy].
Qed.

Lemma sortQ_sorted (l : list A) :
  StronglySorted (fun a b => (key a <= key b)%Q)
    (sortQ (fun a b => (key a - key b)%Q) l).
Proof.
  induction l as [|x l IH]; simpl.
  - constructor.
  - apply sortQ_insert_sorted. exact IH.
Qed.
End SortedByKey.

Lemma StronglySorted_map {A B} (f : A -> B) (R : B -> B -> Prop) (l : list A) :
  StronglySorted (fun a b => R (f a) (f b)) l -> StronglySorted R (map f l).
Proof.
  induction 1 as [|x l _ IH Hx]; simpl; constructor.
  - exact IH.
  - apply Forall_map. exact Hx.
Qed.

Lemma StronglySorted_ext {A} (R R' : A -> A -> Prop) (l : list A) :
  (forall a b, In a l -> In b l -> R a b -> R' a b) ->
  StronglySorted R l -> StronglySorted R' l.
Proof.
  intros Himp Hs. induction Hs as [|x l _ IH Hx]; constructor.
  - apply IH. intros a b Ha Hb. apply Himp; right; assumption.
  - rewrite Forall_forall in *. intros b Hb.
    apply Himp; [left; reflexivity | right; exact Hb | apply Hx; exact Hb].
Qed.

Lemma rankSolutions_perm solutions orig config :
  Permutation (rankSolutions solutions orig config) solutions.
Proof.
  unfold rankSolutions. rewrite sortQ_perm, map_map. simpl. rewrite map_id. reflexivity.
Qed.

Lemma rankSolutions_sorted solutions orig config :
  StronglySorted
    (fun a b => (rankingScore orig config a <= rankingScore orig config b)%Q)
    (rankSolutions solutions orig config).
Proof.
  unfold rankSolutions. apply StronglySorted_map.
  set (scored := map _ solutions).
  assert (Hscored : forall p, In p scored -> fst p = rankingScore orig config (snd p)).
  { intros p Hp. apply in_map_iff in Hp. destruct Hp as (s & <- & _). reflexivity. }
  pose proof (sortQ_sorted (fst : Q * Solution -> Q) scored) as Hsorted.
  eapply StronglySorted_ext; [|exact Hsorted].
  intros a b Ha Hb Hab. simpl in Hab.
  rewrite <- (Hscored a), <- (Hscored b); [exact Hab | |].
  - eapply Permutation_in; [apply sortQ_perm | exact Hb].
  - eapply Permutation_in; [apply sortQ_perm | exact Ha].
Qed.

(** X11.  [rankSolutions] returns the same solutions in ascending order of
    impact score, and [selectBestSolution] returns a solution of the list
    whose impact score no other solution of the list undercuts; it answers
    [null] for the empty list only. *)
Theorem rankSolutions_sorted_and_best_first
    (solutions : list Solution) (originalAppointments : option (list Appointment))
    (config : option BufferConfiguration) :
  Permutation (rankSolutions solutions originalAppointments config) solutions
  /\ StronglySorted
       (fun a b => (calculateImpactScore a originalAppointments config
                    <= calculateImpactScore b originalAppointments config)%Q)
       (rankSolutions solutions originalAppointments config)
  /\ (selectBestSolution solutions originalAppointments config = None <-> solutions = [])
  /\ (forall best,
        selectBestSolution solutions originalAppointments config = Some best ->
        In best solutions
        /\ forall other, In other solutions ->
             (calculateImpactScore best originalAppointments config
              <= calculateImpactScore other originalAppointments config)%Q).
Proof.
  pose proof (rankSolutions_perm solutions originalAppointments config) as Hperm.
  pose proof (rankSolutions_sorted solutions originalAppointments config) as Hsorted.
  split; [exact Hperm|]. split; [exact Hsorted|].
  unfold selectBestSolution.
  destruct solutions as [|s rest] eqn:E.
  - split; [split; reflexivity | discriminate].
  - rewrite <- E in *.
    destruct (rankSolutions solutions originalAppointments config) as [|b ranked].
    + apply Permutation_nil in Hperm. congruence.
    + simpl. split; [split; [discriminate | congruence]|].
      intros best [= <-]. split.
      * eapply Permutation_in; [exact Hperm | left; reflexivity].
      * intros other Hother.
        apply (Permutation_in _ (Permutation_sym Hperm)) in Hother.
        inversion Hsorted as [|? ? _ Hall]; subst.
        destruct Hother as [<- | Hother]; [apply Qle_refl|].
        rewrite Forall_forall in Hall. apply Hall. exact Hother.
Qed.

Section ScorecardFacts.
Import ScoringRest.

(** X12.  The grade and the impact category of a scorecard agree: an A is
    always of low impact and an F of high impact; low impact is graded A
    or B, medium impact B, C or D, and high impact D or F.  The total
    impact of the scorecard of a well-formed solution lies between 0 and
    100. *)
Theorem generateScorecard_grade_and_category
    (solution : Solution) (originalAppointments : option (list Appointment))
    (config : option BufferConfiguration) :
  let card := generateScorecard solution originalAppointments config in
  (grade card = A -> impactCategory card = low)
  /\ (impactCategory card = low -> grade card = A \/ grade card = B)
  /\ (impactCategory card = medium -> grade card = B \/ grade card = C \/ grade card = D)
  /\ (impactCategory card = high -> grade card = D \/ grade card = F)
  /\ (grade card = F -> impactCategory card = high)
  /\ (wellFormedSolution solution -> (0 <= totalImpact card <= 100)%Q).
Proof.
  unfold generateScorecard, categorizeImpact. simpl.
  set (total := calculateImpactScore solution originalAppointments config).
  assert (Hb : forall q, Qle_bool total q = true <-> (total <= q)%Q)
    by (intros q; apply Qle_bool_iff).
  destruct (Qle_bool total 25) eqn:E25; destruct (Qle_bool total 30) eqn:E30;
    destruct (Qle_bool total 40) eqn:E40; destruct (Qle_bool total 55) eqn:E55;
    destruct (Qle_bool total 60) eqn:E60; destruct (Qle_bool total 70) eqn:E70;
    repeat match goal with
           | E : Qle_bool total _ = true |- _ => apply Hb in E
           | E : Qle_bool total _ = false |- _ =>
               let H := fresh in
               assert (H := E); apply not_true_iff_false in H; rewrite Hb in H; clear E
           end;
    try (exfalso; lra);
    repeat split; intros; try discriminate; auto;
    try (apply calculateImpactScore_bounds; assumption).
Qed.
End ScorecardFacts.

(* ================================================================== *)
(** ** The reordering simulator, further *)
(* ================================================================== *)

Lemma testReorderings_grows reorderings dayAppointments maxReorderingScenarios :
  forall p, exists added,
    solutionsSoFar (testReorderings reorderings dayAppointments maxReorderingScenarios p)
    = solutionsSoFar p ++ added.
Proof.
  induction reorderings as [|reordered rest IH]; intros p; simpl.
  - exists []. symmetry. apply app_nil_r.
  - destruct (scenariosTested p <? maxReorderingScenarios).
    + destruct (IH (mkProgress
                      (solutionsSoFar p ++
                       [createReorderingSolution reordered dayAppointments
                          (findAllConflicts reordered) (scenariosTested p + 1)
                          (List.length (findAllConflicts reordered) =? 0)%nat])
                      (scenariosTested p + 1)
                      (if (List.length (findAllConflicts reordered) =? 0)%nat
                       then feasibleScenariosSoFar p + 1
                       else feasibleScenariosSoFar p))) as (added & ->).
      simpl. rewrite <- app_assoc. eexists. reflexivity.
    + exists []. symmetry. apply app_nil_r.
Qed.

Lemma reorderDay_grows maxReorderingScenarios p entry :
  exists added,
    solutionsSoFar (reorderDay maxReorderingScenarios p entry) = solutionsSoFar p ++ added.
Proof.
  unfold reorderDay.
  destruct (_ <? 2)%nat; [exists []; symmetry; apply app_nil_r|].
  destruct (_ =? 0)%nat; [exists []; symmetry; apply app_nil_r|].
  apply testReorderings_grows.
Qed.

Lemma reorderDays_grow maxReorderingScenarios byDate :
  forall p, exists added,
    solutionsSoFar (fold_left (reorderDay maxReorderingScenarios) byDate p)
    = solutionsSoFar p ++ added.
Proof.
  induction byDate as [|entry rest IH]; intros p; simpl.
  - exists []. symmetry. apply app_nil_r.
  - destruct (IH (reorderDay maxReorderingScenarios p entry)) as (added & ->).
    destruct (reorderDay_grows maxReorderingScenarios p entry) as (added' & ->).
    rewrite <- app_assoc. eexists. reflexivity.
Qed.

Lemma reorderable_spec (dayAppointments : list GeocodedAppointment) :
  reorderable dayAppointments = false
  <-> (List.length dayAppointments <? 2)%nat = true
      \/ (List.length (filter (fun apt => negb (isInflexible apt)) dayAppointments)
          =? 0)%nat = true.
Proof.
  unfold reorderable. rewrite andb_false_iff.
  assert (Hex : existsb (fun apt => negb (isInflexible apt)) dayAppointments = false
                <-> (List.length (filter (fun apt => negb (isInflexible apt)) dayAppointments)
                     =? 0)%nat = true).
  { induction dayAppointments as [|a l IH]; simpl.
    - split; reflexivity.
    - destruct (negb (isInflexible a)); simpl.
      + split; discriminate.
      + exact IH. }
  rewrite Hex.
  destruct (Nat.leb_spec 2 (List.length dayAppointments));
    destruct (Nat.ltb_spec (List.length dayAppointments) 2); try lia;
    intuition discriminate.
Qed.

Lemma reorderDay_skips maxReorderingScenarios p entry :
  reorderable (snd entry) = false -> reorderDay maxReorderingScenarios p entry = p.
Proof.
  intros Hskip. apply reorderable_spec in Hskip. unfold reorderDay.
  destruct Hskip as [-> | Hnone]; [reflexivity|].
  destruct (_ <? 2)%nat; [reflexivity|]. rewrite Hnone. reflexivity.
Qed.

Lemma reorderDay_capped maxReorderingScenarios p entry :
  maxReorderingScenarios <= scenariosTested p ->
  reorderDay maxReorderingScenarios p entry = p.
Proof.
  intros Hcap. unfold reorderDay.
  destruct (_ <? 2)%nat; [reflexivity|].
  destruct (_ =? 0)%nat; [reflexivity|].
  destruct (generateReorderings (snd entry)); simpl; [reflexivity|].
  destruct (Z.ltb_spec (scenariosTested p) maxReorderingScenarios); [lia | reflexivity].
Qed.

Lemma reorderDay_tests maxReorderingScenarios p entry :
  reorderable (snd entry) = true ->
  scenariosTested p < maxReorderingScenarios ->
  exists solution added,
    solutionsSoFar (reorderDay maxReorderingScenarios p entry)
    = solutionsSoFar p ++ solution :: added.
Proof.
  intros Hday Hcap. unfold reorderDay.
  destruct (_ <? 2)%nat eqn:E2.
  { assert (reorderable (snd entry) = false) by (apply reorderable_spec; auto). congruence. }
  destruct (_ =? 0)%nat eqn:E0.
  { assert (reorderable (snd entry) = false) by (apply reorderable_spec; auto). congruence. }
  destruct (generateReorderings_first (snd entry)) as (others & ->).
  simpl. destruct (Z.ltb_spec (scenariosTested p) maxReorderingScenarios); [|lia].
  match goal with
  | |- context [testReorderings others ?d ?m ?q] =>
      destruct (testReorderings_grows others d m q) as (added & ->)
  end.
  simpl. rewrite <- app_assoc. simpl. eexists. eexists. reflexivity.
Qed.

Lemma reorderDays_empty maxReorderingScenarios byDate :
  forall p,
    maxReorderingScenarios <= scenariosTested p
    \/ (forall entry, In entry byDate -> reorderable (snd entry) = false) ->
    fold_left (reorderDay maxReorderingScenarios) byDate p = p.
Proof.
  induction byDate as [|entry rest IH]; intros p Hcase; simpl.
  - reflexivity.
  - assert (E : reorderDay maxReorderingScenarios p entry = p).
    { destruct Hcase as [Hcap | Hskip].
      - apply reorderDay_capped. exact Hcap.
      - apply reorderDay_skips. apply Hskip. left. reflexivity. }
    rewrite E. apply IH.
    destruct Hcase as [Hcap | Hskip]; [left; exact Hcap | right].
    intros e He. apply Hskip. right. exact He.
Qed.

Lemma reorderDays_keep maxReorderingScenarios byDate p :
  solutionsSoFar p <> [] ->
  solutionsSoFar (fold_left (reorderDay maxReorderingScenarios) byDate p) <> [].
Proof.
  intros Hp. destruct (reorderDays_grow maxReorderingScenarios byDate p) as (added & ->).
  destruct (solutionsSoFar p); [contradiction | discriminate].
Qed.

Lemma reorderDays_test maxReorderingScenarios byDate :
  forall p entry,
    counted maxReorderingScenarios p -> 0 < maxReorderingScenarios ->
    In entry byDate -> reorderable (snd entry) = true ->
    solutionsSoFar (fold_left (reorderDay maxReorderingScenarios) byDate p) <> [].
Proof.
  induction byDate as [|e rest IH]; intros p entry Hcounted Hmax Hin Hday; simpl.
  - destruct Hin.
  - destruct Hin as [-> | Hin].
    + apply reorderDays_keep.
      destruct (Z.lt_ge_cases (scenariosTested p) maxReorderingScenarios) as [Hlt | Hge].
      * destruct (reorderDay_tests maxReorderingScenarios p entry Hday Hlt)
          as (solution & added & ->).
        destruct (solutionsSoFar p); discriminate.
      * destruct (reorderDay_grows maxReorderingScenarios p entry) as (added & ->).
        pose proof (counted_tested _ _ Hcounted) as Htested.
        destruct (solutionsSoFar p); [simpl in Htested; lia | discriminate].
    + apply (IH _ entry); auto. apply reorderDay_counted. exact Hcounted.
Qed.

Lemma simulateReordering_length appointments maxReorderingScenarios config :
  List.length (simulateReordering appointments maxReorderingScenarios config)
  = List.length
      (solutionsSoFar
         (fold_left (reorderDay maxReorderingScenarios)
            (groupAppointmentsByDate appointments) (mkProgress [] 0 0))).
Proof.
  unfold simulateReordering.
  rewrite length_map. rewrite (Permutation_length (sortQ_perm _ _)).
  rewrite !length_map. reflexivity.
Qed.

Lemma onDate_member (d : string) (appointments : list GeocodedAppointment) :
  onDate d appointments <> [] -> In d (datesInOrder appointments).
Proof.
  intros Hne. apply datesInOrder_In.
  destruct (onDate d appointments) as [|apt rest] eqn:E; [contradiction|].
  assert (Hin : In apt (onDate d appointments)) by (rewrite E; left; reflexivity).
  unfold onDate in Hin. apply filter_In in Hin. destruct Hin as [Hin Hd].
  apply String.eqb_eq in Hd. exists apt. auto.
Qed.

(** X13.  [simulateReordering] answers no solution exactly when the cap on the
    scenarios is not positive or no date has at least two appointments of
    which one is flexible. *)
Theorem simulateReordering_empty_iff
    (appointments : list GeocodedAppointment) (maxReorderingScenarios : Z)
    (config : BufferConfiguration) :
  simulateReordering appointments maxReorderingScenarios config = []
  <-> maxReorderingScenarios <= 0
      \/ forall d, reorderable (onDate d appointments) = false.
Proof.
  assert (Hstart : counted maxReorderingScenarios (mkProgress [] 0 0)
                   \/ maxReorderingScenarios < 0).
  { destruct (Z.lt_ge_cases maxReorderingScenarios 0); [right; assumption | left].
    constructor; simpl; [reflexivity | reflexivity | lia]. }
  split.
  - intros Hempty.
    destruct (Z.lt_ge_cases 0 maxReorderingScenarios) as [Hmax | Hmax]; [right | left; lia].
    intros d. destruct (reorderable (onDate d appointments)) eqn:Hday; [exfalso | reflexivity].
    destruct Hstart as [Hstart | ?]; [|lia].
    apply (f_equal (@List.length _)) in Hempty.
    rewrite simulateReordering_length, groupAppointmentsByDate_groups in Hempty.
    apply length_zero_iff_nil in Hempty. revert Hempty.
    apply (reorderDays_test _ _ _ (d, onDate d appointments) Hstart Hmax).
    + apply in_map_iff. exists d. split; [reflexivity|].
      apply onDate_member. intros E. rewrite E in Hday. discriminate.
    + exact Hday.
  - intros Hcase. apply length_zero_iff_nil.
    rewrite simulateReordering_length, reorderDays_empty; [reflexivity|].
    destruct Hcase as [Hmax | Hdays]; [left; simpl; exact Hmax | right].
    intros entry Hentry. rewrite groupAppointmentsByDate_groups in Hentry.
    apply in_map_iff in Hentry. destruct Hentry as (d & <- & _). apply Hdays.
Qed.

Lemma positiveGaps_none (field : SimulationStats -> Q) (solutions : list Solution) :
  (forall s stats, In s solutions -> statistics s = Some stats -> field stats = 0%Q) ->
  positiveGaps field solutions = [].
Proof.
  intros Hzero. unfold positiveGaps.
  induction solutions as [|s rest IH]; simpl.
  - reflexivity.
  - rewrite filter_app, IH by (intros; eapply Hzero; [right|]; eassumption).
    destruct (statistics s) as [stats|] eqn:E; simpl; [|reflexivity].
    rewrite (Hzero s stats (or_introl eq_refl) E). reflexivity.
Qed.

Lemma createReorderingSolution_unscored reordered original conflicts tested isFeasible :
  unscored (createReorderingSolution reordered original conflicts tested isFeasible).
Proof.
  unfold unscored, createReorderingSolution. simpl. split; [reflexivity|]. split.
  - eexists. split; [reflexivity|]. simpl. repeat split.
  - apply Forall_forall. intros change Hchange.
    apply in_flat_map in Hchange. destruct Hchange as ([index apt] & _ & Hchange).
    destruct (negb _); [|destruct Hchange].
    destruct Hchange as [<- | []]. simpl. split; reflexivity.
Qed.

Lemma testReorderings_unscored reorderings dayAppointments maxReorderingScenarios :
  forall p, Forall unscored (solutionsSoFar p) ->
  Forall unscored
    (solutionsSoFar (testReorderings reorderings dayAppointments maxReorderingScenarios p)).
Proof.
  induction reorderings as [|reordered rest IH]; intros p Hp; simpl.
  - exact Hp.
  - destruct (scenariosTested p <? maxReorderingScenarios); [|exact Hp].
    apply IH. simpl. apply Forall_app. split; [exact Hp|].
    constructor; [apply createReorderingSolution_unscored | constructor].
Qed.

Lemma reorderDays_unscored maxReorderingScenarios byDate :
  forall p, Forall unscored (solutionsSoFar p) ->
  Forall unscored (solutionsSoFar (fold_left (reorderDay maxReorderingScenarios) byDate p)).
Proof.
  induction byDate as [|entry rest IH]; intros p Hp; simpl.
  - exact Hp.
  - apply IH. unfold reorderDay.
    destruct (_ <? 2)%nat; [exact Hp|].
    destruct (_ =? 0)%nat; [exact Hp|].
    apply testReorderings_unscored. exact Hp.
Qed.

(** X14.  What the reordering simulation never fills in.  In every solution it
    returns the [impactScore] is 0, the best, worst and average gap of the
    statistics are 0, no buffer counts as tested, and every change is a
    [reorder] whose proposed time is the time it gives as the original
    one. *)
Theorem simulateReordering_leaves_scores_unset
    (appointments : list GeocodedAppointment) (maxReorderingScenarios : Z)
    (config : BufferConfiguration) :
  Forall unscored (simulateReordering appointments maxReorderingScenarios config).
Proof.
  unfold simulateReordering.
  set (p := fold_left _ _ _).
  assert (Hp : Forall unscored (solutionsSoFar p)).
  { apply reorderDays_unscored. constructor. }
  assert (Hgaps : forall field,
             (forall s, unscored s -> forall stats, statistics s = Some stats ->
                                                    field stats = 0%Q) ->
             positiveGaps field (solutionsSoFar p) = []).
  { intros field Hfield. apply positiveGaps_none. intros s stats Hs.
    rewrite Forall_forall in Hp. apply Hfield. apply Hp. exact Hs. }
  assert (Hbest : calculateBestGap (solutionsSoFar p) = 0%Q).
  { unfold calculateBestGap. rewrite Hgaps; [reflexivity|].
    intros s (_ & (st & E & ? & ? & ? & ?) & _) stats E'. congruence. }
  assert (Hworst : calculateWorstGap (solutionsSoFar p) = 0%Q).
  { unfold calculateWorstGap. rewrite Hgaps; [reflexivity|].
    intros s (_ & (st & E & ? & ? & ? & ?) & _) stats E'. congruence. }
  assert (Haverage : calculateAverageGap (solutionsSoFar p) = 0%Q).
  { unfold calculateAverageGap. rewrite Hgaps; [reflexivity|].
    intros s (_ & (st & E & ? & ? & ? & ?) & _) stats E'. congruence. }
  apply Forall_forall. intros s Hs.
  apply in_map_iff in Hs. destruct Hs as ([score s'] & <- & Hs). simpl.
  apply (Permutation_in _ (sortQ_perm _ _)) in Hs.
  apply in_map_iff in Hs. destruct Hs as (updated & [= _ <-] & Hs).
  apply in_map_iff in Hs. destruct Hs as (s0 & <- & Hs0).
  rewrite Forall_forall in Hp. destruct (Hp s0 Hs0) as (Hscore & _ & Hchanges).
  unfold unscored. simpl. split; [exact Hscore|]. split; [|exact Hchanges].
  eexists. split; [reflexivity|]. simpl. auto.
Qed.

(* ================================================================== *)
(** ** The changes of a reordering *)
(* ================================================================== *)

Section FindIndexFacts.
Context {A : Type} (p : A -> bool).

Lemma findIndex_from_spec (arr : list A) :
  forall k,
    (findIndex_from p arr k = -1 /\ forall a, In a arr -> p a = false)
    \/ (exists i a, findIndex_from p arr k = k + Z.of_nat i
                    /\ nth_error arr i = Some a /\ p a = true
                    /\ forall j b, (j < i)%nat -> nth_error arr j = Some b -> p b = false).
Proof.
  induction arr as [|x rest IH]; intros k; simpl.
  - left. split; [reflexivity | intros a []].
  - destruct (p x) eqn:Hx.
    + right. exists 0%nat, x. repeat split; auto; [lia|]. intros j b Hj. lia.
    + destruct (IH (k + 1)) as [[Hnone Hall] | (i & a & Hfound & Hi & Hpa & Hbefore)].
      * left. split; [exact Hnone|]. intros a [<- | Ha]; auto.
      * right. exists (S i), a. repeat split; auto; [lia|].
        intros [|j] b Hj Hb; simpl in Hb; [congruence|].
        apply (Hbefore j b); [lia | exact Hb].
Qed.

Lemma findIndex_spec (arr : list A) :
  (findIndex p arr = -1 /\ forall a, In a arr -> p a = false)
  \/ (exists i a, findIndex p arr = Z.of_nat i
                  /\ nth_error arr i = Some a /\ p a = true
                  /\ forall j b, (j < i)%nat -> nth_error arr j = Some b -> p b = false).
Proof. apply (findIndex_from_spec arr 0). Qed.
End FindIndexFacts.

Section IdFacts.
Context {T : Type} `{AppointmentLike T}.

Lemma ids_nth_error (appointments : list T) (i : nat) (apt : T) :
  nth_error appointments i = Some apt ->
  nth_error (ids appointments) i = Some (id (asAppointment apt)).
Proof. intros Hi. unfold ids. rewrite nth_error_map, Hi. reflexivity. Qed.

Lemma same_id_same_place (appointments : list T) (i j : nat) (a b : T) :
  NoDup (ids appointments) ->
  nth_error appointments i = Some a -> nth_error appointments j = Some b ->
  id (asAppointment a) = id (asAppointment b) -> i = j.
Proof.
  intros Hnodup Hi Hj Hid.
  rewrite NoDup_nth_error in Hnodup. apply Hnodup.
  - apply nth_error_Some. rewrite (ids_nth_error _ _ _ Hi). discriminate.
  - rewrite (ids_nth_error _ _ _ Hi), (ids_nth_error _ _ _ Hj). congruence.
Qed.

Lemma findIndex_by_id (appointments : list T) (i : nat) (apt : T) :
  NoDup (ids appointments) -> nth_error appointments i = Some apt ->
  findIndex (fun a => String.eqb (id (asAppointment a)) (id (asAppointment apt)))
            appointments
  = Z.of_nat i.
Proof.
  intros Hnodup Hi.
  destruct (findIndex_spec
              (fun a => String.eqb (id (asAppointment a)) (id (asAppointment apt)))
              appointments) as [[_ Hall] | (j & a & -> & Hj & Hpa & _)].
  - specialize (Hall apt (nth_error_In _ _ Hi)). simpl in Hall.
    rewrite String.eqb_refl in Hall. discriminate.
  - apply String.eqb_eq in Hpa.
    rewrite (same_id_same_place appointments j i a apt Hnodup Hj Hi Hpa). reflexivity.
Qed.
End IdFacts.

Lemma combine_positions {A} (l : list A) :
  forall (start : nat) (index : Z) (x : A),
    In (index, x) (combine (map Z.of_nat (seq start (List.length l))) l)
    <-> exists i, index = Z.of_nat (start + i) /\ nth_error l i = Some x.
Proof.
  induction l as [|y l IH]; intros start index x; simpl.
  - split; [intros [] | intros ([|i] & _ & Hi); discriminate].
  - rewrite IH. split.
    + intros [[= <- <-] | (i & -> & Hi)].
      * exists 0%nat. split; [f_equal; lia | reflexivity].
      * exists (S i). split; [f_equal; lia | exact Hi].
    + intros ([|i] & -> & Hi); simpl in Hi.
      * left. injection Hi as ->. f_equal. f_equal. lia.
      * right. exists i. split; [f_equal; lia | exact Hi].
Qed.

Lemma createReorderingSolution_changes reordered original conflicts tested isFeasible :
  changes (createReorderingSolution reordered original conflicts tested isFeasible) = []
  <-> forall i apt, nth_error reordered i = Some apt ->
        findIndex (fun a => String.eqb (id (asAppointment a)) (id (asAppointment apt)))
                  original
        = Z.of_nat i.
Proof.
  unfold createReorderingSolution. simpl. split.
  - intros Hnone i apt Hi.
    assert (Hin : In (Z.of_nat i, apt)
                     (combine (map Z.of_nat (seq 0 (List.length reordered))) reordered)).
    { apply combine_positions. exists i. auto. }
    match type of Hnone with
    | flat_map ?f _ = [] => assert (Hf : f (Z.of_nat i, apt) = [])
    end.
    { match type of Hnone with
      | flat_map ?f ?l = [] =>
          destruct (f (Z.of_nat i, apt)) as [|c cs] eqn:E; [reflexivity|];
          assert (Hc : In c (flat_map f l))
            by (apply in_flat_map; exists (Z.of_nat i, apt); split;
                [exact Hin | rewrite E; left; reflexivity]);
          rewrite Hnone in Hc; destruct Hc
      end. }
    simpl in Hf. destruct (Z.eqb_spec (findIndex
      (fun a => String.eqb (id (asAppointment a)) (id (asAppointment apt))) original)
      (Z.of_nat i)) as [E | _]; [exact E | discriminate].
  - intros Hsame.
    match goal with
    | |- flat_map ?f ?l = [] =>
        destruct (flat_map f l) as [|c cs] eqn:E; [reflexivity|];
        assert (Hc : In c (flat_map f l)) by (rewrite E; left; reflexivity)
    end.
    apply in_flat_map in Hc. destruct Hc as ([index apt] & Hin & Hc).
    apply combine_positions in Hin. destruct Hin as (i & -> & Hi). simpl in Hc.
    rewrite (Hsame i apt Hi), Z.eqb_refl in Hc. destruct Hc.
Qed.

(** X15.  For appointments with distinct identifiers,
    [createReorderingSolution] records no change exactly when the
    reordering is the original order. *)
Theorem createReorderingSolution_reports_moves
    (reordered original : list GeocodedAppointment)
    (conflicts : list (SchedulingConflict GeocodedAppointment))
    (scenariosTested : Z) (isFeasible : bool) :
  NoDup (ids original) -> Permutation reordered original ->
  (changes (createReorderingSolution reordered original conflicts scenariosTested isFeasible)
   = [] <-> reordered = original).
Proof.
  intros Hnodup Hperm. rewrite createReorderingSolution_changes. split.
  - intros Hsame. apply nth_error_ext. intros i.
    destruct (nth_error reordered i) as [apt|] eqn:Hi.
    + specialize (Hsame i apt Hi).
      assert (Hin : In apt original)
        by (eapply Permutation_in; [exact Hperm | eapply nth_error_In; exact Hi]).
      apply In_nth_error in Hin. destruct Hin as (j & Hj).
      rewrite (findIndex_by_id original j apt Hnodup Hj) in Hsame.
      assert (j = i) by lia. subst j. symmetry. exact Hj.
    + symmetry. apply nth_error_None. apply nth_error_None in Hi.
      rewrite <- (Permutation_length Hperm). exact Hi.
  - intros -> i apt Hi. apply findIndex_by_id; assumption.
Qed.

(* ================================================================== *)
(** ** The conflict resolution orchestrator, further *)
(* ================================================================== *)

Lemma truthyStr_Some (o : option string) (s : string) :
  truthyStr o = Some s -> o = Some s.
Proof.
  unfold truthyStr. destruct o as [s'|]; [|discriminate].
  destruct (String.eqb s' EmptyString); congruence.
Qed.

Lemma detectConflict_bothTimed (a b : GeocodedAppointment) c :
  detectConflict a b = Some c -> bothTimed c.
Proof.
  unfold detectConflict, bothTimed.
  destruct (truthyStr (startTime (asAppointment a))) as [sa|] eqn:Ea; [|discriminate].
  destruct (truthyStr (startTime (asAppointment b))) as [sb|] eqn:Eb; [|discriminate].
  destruct (nltb (timeToMinutes sa) (timeToMinutes sb));
    (destruct (nsub _ _) as [g|]; [|discriminate]);
    (destruct (g <? _); [|discriminate]); intros [= <-]; simpl;
    rewrite Ea, Eb; split; discriminate.
Qed.

Lemma findAllConflicts_bothTimed (appointments : list GeocodedAppointment) :
  Forall bothTimed (findAllConflicts appointments).
Proof.
  apply Forall_forall. intros c Hc. unfold findAllConflicts in Hc.
  apply in_flat_map in Hc. destruct Hc as ([x y] & _ & Hc).
  destruct (negb _); [destruct Hc|].
  destruct (detectConflict x y) as [c'|] eqn:E; [|destruct Hc].
  destruct Hc as [<- | []]. eapply detectConflict_bothTimed. exact E.
Qed.

Section OrchestratorFacts.
Context {geo : Geodesy} {clock : Clock}.
Variable simulateBufferVariation :
  list GeocodedAppointment -> list Q -> BufferConfiguration -> option (list Solution).
Variable generateExplanation : Solution -> list string.

Lemma simulateRescheduling_two c allAppointments config :
  bothTimed c ->
  exists later nextDay laterChange nextDayChange,
    simulateRescheduling c allAppointments config = [later; nextDay]
    /\ changes later = [laterChange] /\ changes nextDay = [nextDayChange]
    /\ appointmentId laterChange = id (asAppointment (snd (appointments c)))
    /\ appointmentId nextDayChange = id (asAppointment (snd (appointments c)))
    /\ startTime (asAppointment (snd (appointments c))) = Some (originalTime laterChange)
    /\ proposedTime laterChange = originalTime laterChange
    /\ proposedTime nextDayChange = "09:00"
    /\ feasibility later = feasible /\ feasibility nextDay = feasible.
Proof.
  unfold bothTimed, simulateRescheduling, createRescheduleSolution.
  destruct (appointments c) as [apt1 apt2]. simpl. intros [H1 H2].
  destruct (truthyStr (startTime (asAppointment apt1))) as [s1|] eqn:E1; [|contradiction].
  destruct (truthyStr (startTime (asAppointment apt2))) as [s2|] eqn:E2; [|contradiction].
  apply truthyStr_Some in E2.
  simpl. do 4 eexists. split; [reflexivity|]. simpl.
  repeat split; try reflexivity. exact E2.
Qed.

Lemma resolveConflict_returns c allAppointments options w :
  exists resolution events candidates,
    resolveConflict simulateBufferVariation generateExplanation c allAppointments options w
    = (inr resolution, mkRuntime (clockReads w) (log w ++ events))
    /\ conflict resolution = c
    /\ solutions resolution = rankSolutions candidates None None
    /\ recommendedSolution resolution = selectBestSolution candidates None None
    /\ Forall (fun e => e <> timeLimitWarning) events
    /\ (opt_runRescheduling options = true -> bothTimed c ->
        (2 <= List.length candidates)%nat).
Proof.
  unfold resolveConflict, bind, record, ret. simpl.
  destruct (simulateBufferVariation allAppointments (opt_testBufferSizes options)
              (opt_config options)) as [bufferSolutions|]; simpl;
    destruct (opt_runRescheduling options) eqn:Erun; simpl;
    rewrite <- ?app_assoc; simpl;
    (eexists; eexists; eexists; split; [reflexivity|]; simpl;
     split; [reflexivity|]; split; [reflexivity|]; split; [reflexivity|];
     split; [repeat constructor; discriminate|]);
    intros Hrun Htimed; try discriminate;
    destruct (simulateRescheduling_two c allAppointments (Some (opt_config options)) Htimed)
      as (later & nextDay & ? & ? & -> & _);
    rewrite length_map, !length_app; simpl; lia.
Qed.

Lemma resolveEach_spec appointments opts start :
  forall conflicts acc w,
  exists resolved unresolved events reads,
    resolveEach simulateBufferVariation generateExplanation
      conflicts appointments opts start acc w
    = (inr (acc ++ resolved), mkRuntime reads (log w ++ events))
    /\ conflicts = map conflict resolved ++ unresolved
    /\ (In timeLimitWarning events <-> unresolved <> [])
    /\ (withinTimeLimit start (opt_timeLimitMs opts) -> unresolved = [])
    /\ Forall (fun r => opt_runRescheduling opts = true -> bothTimed (conflict r) ->
                        recommendedSolution r <> None
                        /\ (2 <= List.length (solutions r))%nat) resolved.
Proof.
  induction conflicts as [|c rest IH]; intros acc w; simpl.
  - exists [], [], [], (clockReads w). rewrite !app_nil_r.
    split; [destruct w; reflexivity|]. split; [reflexivity|].
    split; [split; [intros [] | congruence]|]. split; [reflexivity | constructor].
  - unfold bind at 1. unfold Date_now at 1. simpl.
    destruct (Z.gtb_spec (wallClock (clockReads w) - start) (opt_timeLimitMs opts))
      as [Hover | Hwithin].
    + exists [], (c :: rest), [timeLimitWarning], (S (clockReads w)).
      rewrite app_nil_r. split; [reflexivity|]. split; [reflexivity|].
      split; [split; [discriminate | intros _; left; reflexivity]|].
      split; [|constructor].
      intros Hlimit. specialize (Hlimit (clockReads w)). lia.
    + unfold bind at 1.
      destruct (resolveConflict_returns c appointments opts
                  (mkRuntime (S (clockReads w)) (log w)))
        as (resolution & events & candidates & -> & Hc & Hsolutions & Hbest & Hquiet & Htwo).
      simpl.
      destruct (IH (acc ++ [resolution]) (mkRuntime (S (clockReads w)) (log w ++ events)))
        as (resolved & unresolved & events' & reads & -> & -> & Hwarn & Hall & Hrec).
      simpl. exists (resolution :: resolved), unresolved, (events ++ events'), reads.
      rewrite <- !app_assoc. simpl. split; [reflexivity|].
      split; [rewrite Hc; reflexivity|].
      split; [|split; [exact Hall|]].
      * rewrite <- Hwarn, in_app_iff. split; [|auto].
        intros [Hin | Hin]; [|exact Hin].
        rewrite Forall_forall in Hquiet. exfalso. exact (Hquiet _ Hin eq_refl).
      * constructor; [|exact Hrec].
        intros Hrun Htimed. rewrite Hc in Htimed. specialize (Htwo Hrun Htimed).
        rewrite Hsolutions, Hbest. split.
        -- unfold selectBestSolution.
           destruct candidates as [|s0 candidates0] eqn:E; [simpl in Htwo; lia|].
           rewrite <- E.
           pose proof (rankSolutions_perm candidates None None) as Hperm.
           destruct (rankSolutions candidates None None); simpl; [|discriminate].
           apply Permutation_nil in Hperm. congruence.
        -- rewrite (Permutation_length (rankSolutions_perm candidates None None)).
           exact Htwo.
Qed.

Lemma runConflictSimulations_spec appointments options w :
  exists resolutions unresolved events reads,
    runConflictSimulations simulateBufferVariation generateExplanation
      appointments options w
    = (inr resolutions, mkRuntime reads (log w ++ events))
    /\ findAllConflicts appointments = map conflict resolutions ++ unresolved
    /\ (In timeLimitWarning events <-> unresolved <> [])
    /\ (withinTimeLimit (wallClock (clockReads w)) (opt_timeLimitMs (mergeOptions options)) ->
        unresolved = [])
    /\ Forall (fun r => opt_runRescheduling (mergeOptions options) = true ->
                        recommendedSolution r <> None
                        /\ (2 <= List.length (solutions r))%nat) resolutions.
Proof.
  unfold runConflictSimulations. unfold bind at 1. unfold Date_now at 1. simpl.
  pose proof (findAllConflicts_bothTimed appointments) as Htimed.
  destruct (findAllConflicts appointments) as [|c conflicts] eqn:E.
  - simpl. exists [], [], [], (S (clockReads w)). rewrite app_nil_r.
    split; [reflexivity|]. split; [reflexivity|].
    split; [split; [intros [] | congruence]|]. split; [reflexivity | constructor].
  - rewrite <- E in *. clear E.
    destruct (List.length (findAllConflicts appointments) =? 0)%nat eqn:Elen.
    + apply Nat.eqb_eq, length_zero_iff_nil in Elen. rewrite Elen. simpl.
      exists [], [], [], (S (clockReads w)). rewrite app_nil_r.
      split; [reflexivity|]. split; [reflexivity|].
      split; [split; [intros [] | congruence]|]. split; [reflexivity | constructor].
    + destruct (resolveEach_spec appointments (mergeOptions options)
                  (wallClock (clockReads w)) (findAllConflicts appointments) []
                  (mkRuntime (S (clockReads w)) (log w)))
        as (resolved & unresolved & events & reads & -> & Hprefix & Hwarn & Hall & Hrec).
      simpl. exists resolved, unresolved, events, reads.
      split; [reflexivity|]. split; [exact Hprefix|]. split; [exact Hwarn|].
      split; [exact Hall|].
      rewrite Forall_forall in *. intros r Hr Hrun. apply (Hrec r Hr Hrun).
      apply Htimed. rewrite Hprefix. apply in_app_iff. left.
      apply in_map. exact Hr.
Qed.

(** X16.  [runConflictSimulations] never throws.  It answers one resolution for
    each conflict of a prefix of the conflicts that [findAllConflicts]
    reports, in their order; it stops before the end exactly when it has
    written the warning about the time limit to the console; and when the
    clock never shows more than the time limit past the start, every
    conflict is resolved.  This holds for any buffer simulator and any
    explanation engine. *)
Theorem runConflictSimulations_resolves_in_order
    (appointments : list GeocodedAppointment) (options : SimulationOptions) (w : Runtime) :
  exists resolutions unresolved events reads,
    runConflictSimulations simulateBufferVariation generateExplanation
      appointments options w
    = (inr resolutions, mkRuntime reads (log w ++ events))
    /\ findAllConflicts appointments = map conflict resolutions ++ unresolved
    /\ (In timeLimitWarning events <-> unresolved <> [])
    /\ (withinTimeLimit (wallClock (clockReads w)) (opt_timeLimitMs (mergeOptions options)) ->
        unresolved = []).
Proof.
  destruct (runConflictSimulations_spec appointments options w)
    as (resolutions & unresolved & events & reads & Hrun & Hprefix & Hwarn & Hall & _).
  exists resolutions, unresolved, events, reads. auto.
Qed.

Lemma summary_fully_recommended (resolutions : list ConflictResolution) :
  Forall (fun r => recommendedSolution r <> None) resolutions ->
  conflictsWithoutSolutions (getSimulationSummary resolutions) = 0
  /\ fst (getBestOverallSolution resolutions) = hd_error resolutions.
Proof.
  intros Hall. unfold getSimulationSummary. simpl. split.
  - assert (E : filter (fun r => match recommendedSolution r with
                                 | Some _ => true | None => false end) resolutions
                = resolutions).
    { induction Hall as [|r rest Hr _ IH]; simpl; [reflexivity|].
      destruct (recommendedSolution r); [|contradiction]. rewrite IH. reflexivity. }
    rewrite E. lia.
  - destruct Hall as [|r rest Hr _]; simpl; [reflexivity|].
    destruct (recommendedSolution r); [reflexivity | contradiction].
Qed.

(** X17.  With rescheduling enabled (the default), every resolution that
    [runConflictSimulations] answers has a recommended solution and at
    least two solutions; so the summary of [getSimulationSummary] counts
    no conflict without solution, and the resolution that
    [getBestOverallSolution] picks is the one of the first conflict. *)
Theorem runConflictSimulations_always_recommends
    (appointments : list GeocodedAppointment) (options : SimulationOptions) (w : Runtime) :
  opt_runRescheduling (mergeOptions options) = true ->
  exists resolutions w',
    runConflictSimulations simulateBufferVariation generateExplanation
      appointments options w
    = (inr resolutions, w')
    /\ Forall (fun r => recommendedSolution r <> None
                        /\ (2 <= List.length (solutions r))%nat) resolutions
    /\ conflictsWithoutSolutions (getSimulationSummary resolutions) = 0
    /\ fst (getBestOverallSolution resolutions) = hd_error resolutions.
Proof.
  intros Hrun.
  destruct (runConflictSimulations_spec appointments options w)
    as (resolutions & unresolved & events & reads & -> & _ & _ & _ & Hrec).
  exists resolutions, (mkRuntime reads (log w ++ events)).
  assert (Hall : Forall (fun r => recommendedSolution r <> None
                                  /\ (2 <= List.length (solutions r))%nat) resolutions).
  { eapply Forall_impl; [|exact Hrec]. simpl. intros r Hr. apply Hr. exact Hrun. }
  split; [reflexivity|]. split; [exact Hall|].
  apply summary_fully_recommended.
  eapply Forall_impl; [|exact Hall]. simpl. intros r Hr. apply Hr.
Qed.

(** X18.  For a conflict that [detectConflict] reports, [simulateRescheduling]
    proposes exactly two solutions, both marked feasible, each with one
    change for the later appointment of the conflict: one to a later time
    of the same day, whose proposed time is the start time the appointment
    already has, and one to 09:00 of the next day. *)
Theorem simulateRescheduling_proposals
    (a b : GeocodedAppointment) (c : SchedulingConflict GeocodedAppointment)
    (allAppointments : list GeocodedAppointment) (config : option BufferConfiguration) :
  detectConflict a b = Some c ->
  exists later nextDay laterChange nextDayChange,
    simulateRescheduling c allAppointments config = [later; nextDay]
    /\ changes later = [laterChange] /\ changes nextDay = [nextDayChange]
    /\ appointmentId laterChange = id (asAppointment (snd (appointments c)))
    /\ appointmentId nextDayChange = id (asAppointment (snd (appointments c)))
    /\ startTime (asAppointment (snd (appointments c))) = Some (originalTime laterChange)
    /\ proposedTime laterChange = originalTime laterChange
    /\ proposedTime nextDayChange = "09:00"
    /\ feasibility later = feasible /\ feasibility nextDay = feasible.
Proof.
  intros Hc. apply simulateRescheduling_two. eapply detectConflict_bothTimed. exact Hc.
Qed.
End OrchestratorFacts.

(* ================================================================== *)
(** ** The schedule checks *)
(* ================================================================== *)

Section OrderedPairs.
Context {A : Type} (R : A -> A -> Prop).

Lemma ForallOrdPairs_perm (l l' : list A) :
  (forall x y, R x y -> R y x) ->
  Permutation l l' -> ForallOrdPairs R l -> ForallOrdPairs R l'.
Proof.
  intros Hsym Hperm. induction Hperm as [|x l l' Hperm IH|x y l|l l' l'' _ IH1 _ IH2];
    intros Hl.
  - exact Hl.
  - inversion Hl as [|? ? Hx Hrest]; subst. constructor.
    + eapply Permutation_Forall; eassumption.
    + apply IH. exact Hrest.
  - inversion Hl as [|? ? Hy Hrest]; subst.
    inversion Hrest as [|? ? Hx Hrest']; subst.
    inversion Hy as [|? ? Hyx Hy']; subst.
    constructor; [constructor; [apply Hsym; exact Hyx | exact Hx]|].
    constructor; assumption.
  - auto.
Qed.

Lemma ForallOrdPairs_filter (p : A -> bool) (l : list A) :
  ForallOrdPairs R l -> ForallOrdPairs R (filter p l).
Proof.
  induction 1 as [|x l Hx _ IH]; simpl; [constructor|].
  destruct (p x); [|exact IH]. constructor; [|exact IH].
  rewrite Forall_forall in *. intros y Hy. apply Hx.
  apply filter_In in Hy. apply Hy.
Qed.
End OrderedPairs.

Section FeasibilityFacts.
Context {T : Type} `{AppointmentLike T}.

Lemma findAllConflicts_none (appointments : list T) :
  findAllConflicts appointments = []
  <-> ForallOrdPairs
        (fun x y => date (asAppointment x) = date (asAppointment y) ->
                    detectConflict x y = None)
        appointments.
Proof.
  unfold findAllConflicts. induction appointments as [|a rest IH]; simpl.
  - split; [constructor | reflexivity].
  - rewrite flat_map_app. split.
    + intros Hnone. apply app_eq_nil in Hnone. destruct Hnone as [Hhead Htail].
      constructor; [|apply IH; exact Htail].
      apply Forall_forall. intros y Hy Hdate.
      destruct (detectConflict a y) as [c|] eqn:E; [exfalso | reflexivity].
      assert (Hin : In c (flat_map
                (fun '(apt1, apt2) =>
                   if negb (String.eqb (date (asAppointment apt1)) (date (asAppointment apt2)))
                   then []
                   else match detectConflict apt1 apt2 with
                        | Some conflict => [conflict]
                        | None => []
                        end) (map (pair a) rest))).
      { apply in_flat_map. exists (a, y). split; [apply in_map; exact Hy|].
        rewrite Hdate, String.eqb_refl, E. left. reflexivity. }
      rewrite Hhead in Hin. destruct Hin.
    + intros Hall. inversion Hall as [|? ? Ha Hrest]; subst.
      apply IH in Hrest. rewrite Hrest, app_nil_r.
      rewrite Forall_forall in Ha.
      clear IH Hall Hrest. induction rest as [|y rest IH]; simpl; [reflexivity|].
      rewrite IH by (intros z Hz; apply Ha; right; exact Hz). rewrite app_nil_r.
      destruct (String.eqb_spec (date (asAppointment a)) (date (asAppointment y)))
        as [Hdate | _]; simpl; [|reflexivity].
      rewrite (Ha y (or_introl eq_refl) Hdate). reflexivity.
Qed.

Lemma startMinutes_minutesOf (apt : T) t : startMinutes apt = Some t -> minutesOf apt = t.
Proof. unfold minutesOf. intros ->. reflexivity. Qed.

Lemma detectConflict_none_apart (a b : T) :
  (exists t, startMinutes a = Some t) -> (exists t, startMinutes b = Some t) ->
  0 < visitDurationMinutes (asAppointment a) ->
  0 < visitDurationMinutes (asAppointment b) ->
  (detectConflict a b = None <-> apart a b).
Proof.
  intros (ta & Ha) (tb & Hb) Hda Hdb.
  rewrite detectConflict_by_minutes. unfold apart, minutesOf. rewrite Ha, Hb.
  destruct (Z.ltb_spec ta tb).
  - destruct (Z.ltb_spec (tb - ta) (visitDurationMinutes (asAppointment a)));
      split; intros; try discriminate; try reflexivity; lia.
  - destruct (Z.ltb_spec (ta - tb) (visitDurationMinutes (asAppointment b)));
      split; intros; try discriminate; try reflexivity; lia.
Qed.

Lemma apart_sym (a b : T) : apart a b -> apart b a.
Proof. unfold apart. tauto. Qed.

(** Pairs of one date, date by date. *)
Lemma ForallOrdPairs_by_date (R : T -> T -> Prop) (l : list T) :
  ForallOrdPairs (fun x y => date (asAppointment x) = date (asAppointment y) -> R x y) l
  <-> forall d, ForallOrdPairs R (onDate d l).
Proof.
  induction l as [|x l IH]; simpl.
  - split; constructor.
  - split.
    + intros Hall d. inversion Hall as [|? ? Hx Hrest]; subst.
      destruct IH as [IH _]. specialize (IH Hrest d).
      destruct (String.eqb_spec d (date (asAppointment x))) as [-> | _]; [|exact IH].
      constructor; [|exact IH].
      apply Forall_forall. intros y Hy. unfold onDate in Hy.
      apply filter_In in Hy. destruct Hy as [Hy Hd]. apply String.eqb_eq in Hd.
      rewrite Forall_forall in Hx. apply Hx; assumption.
    + intros Hdays. constructor.
      * apply Forall_forall. intros y Hy Hdate.
        specialize (Hdays (date (asAppointment x))).
        rewrite String.eqb_refl in Hdays.
        inversion Hdays as [|? ? Hx _]; subst.
        rewrite Forall_forall in Hx. apply Hx. unfold onDate.
        apply filter_In. split; [exact Hy|]. apply String.eqb_eq. exact Hdate.
      * apply IH. intros d. specialize (Hdays d).
        destruct (String.eqb d (date (asAppointment x))); [|exact Hdays].
        inversion Hdays; assumption.
Qed.

Lemma ForallOrdPairs_ext (R R' : T -> T -> Prop) (l : list T) :
  (forall x y, In x l -> In y l -> (R x y <-> R' x y)) ->
  (ForallOrdPairs R l <-> ForallOrdPairs R' l).
Proof.
  induction l as [|a l IH]; intros Hext.
  - split; constructor.
  - assert (IH' : ForallOrdPairs R l <-> ForallOrdPairs R' l).
    { apply IH. intros x y Hx Hy. apply Hext; right; assumption. }
    split; intros Hall; inversion Hall as [|? ? Ha Hrest]; subst; constructor;
      try (apply IH'; exact Hrest);
      rewrite Forall_forall in *; intros y Hy;
      apply (Hext a y (or_introl eq_refl) (or_intror Hy)); apply Ha; exact Hy.
Qed.

(** The sort by start time puts timed appointments in the order of their
    start. *)
Lemma byStartTimeOf_timed (a b : T) ta tb :
  startMinutes a = Some ta -> startMinutes b = Some tb ->
  byStartTimeOf a b = Some (ta - tb).
Proof.
  unfold startMinutes, byStartTimeOf.
  destruct (truthyStr (startTime (asAppointment a))) as [sa|]; [|discriminate].
  destruct (truthyStr (startTime (asAppointment b))) as [sb|]; [|discriminate].
  intros -> ->. reflexivity.
Qed.

Lemma sort_insert_by_start (x : T) (l : list T) :
  (forall apt, In apt (x :: l) -> exists t, startMinutes apt = Some t) ->
  StronglySorted (fun a b => minutesOf a <= minutesOf b) l ->
  StronglySorted (fun a b => minutesOf a <= minutesOf b) (sort_insert byStartTimeOf x l).
Proof.
  intros Htimed Hsorted. induction Hsorted as [|y l Hsorted IH Hy]; simpl.
  - constructor; constructor.
  - destruct (Htimed x (or_introl eq_refl)) as (tx & Hx).
    destruct (Htimed y (or_intror (or_introl eq_refl))) as (ty & Hty).
    unfold goes_before. rewrite (byStartTimeOf_timed x y tx ty Hx Hty).
    pose proof (startMinutes_minutesOf _ _ Hx) as Ex.
    pose proof (startMinutes_minutesOf _ _ Hty) as Ey.
    destruct (Z.leb_spec (tx - ty) 0).
    + constructor; [constructor; assumption|].
      constructor; [lia|].
      eapply Forall_impl; [|exact Hy]. simpl. intros a Ha. lia.
    + constructor.
      * apply IH. intros apt [<- | Hin]; apply Htimed; [left | right; right]; auto.
      * eapply Permutation_Forall; [symmetry; apply sort_insert_perm|].
        constructor; [lia | exact Hy].
Qed.

Lemma sort_by_start (l : list T) :
  (forall apt, In apt l -> exists t, startMinutes apt = Some t) ->
  StronglySorted (fun a b => minutesOf a <= minutesOf b) (sort byStartTimeOf l).
Proof.
  induction l as [|x l IH]; intros Htimed; simpl.
  - constructor.
  - apply sort_insert_by_start.
    + intros apt [<- | Hin]; apply Htimed; [left; reflexivity | right].
      eapply Permutation_in; [apply sort_perm | exact Hin].
    + apply IH. intros apt Hin. apply Htimed. right. exact Hin.
Qed.

(** In a list sorted by start, the visits are pairwise apart as soon as
    each is over when the next starts. *)
Lemma sorted_apart (l : list T) :
  StronglySorted (fun a b => minutesOf a <= minutesOf b) l ->
  (forall apt, In apt l -> 0 < visitDurationMinutes (asAppointment apt)) ->
  (ForallOrdPairs apart l
   <-> forall current next, In (current, next) (consecutive l) ->
         minutesOf current + visitDurationMinutes (asAppointment current)
         <= minutesOf next).
Proof.
  intros Hsorted. induction Hsorted as [|x l Hsorted IH Hx]; intros Hpos.
  - split; [intros _ ? ? [] | constructor].
  - assert (Hpos' : forall apt, In apt l -> 0 < visitDurationMinutes (asAppointment apt))
      by (intros apt Hin; apply Hpos; right; exact Hin).
    specialize (IH Hpos'). rewrite Forall_forall in Hx. split.
    + intros Hall current next Hin. inversion Hall as [|? ? Hfirst Hrest]; subst.
      destruct l as [|y l']; [destruct Hin|]. simpl in Hin.
      destruct Hin as [[= <- <-] | Hin].
      * rewrite Forall_forall in Hfirst.
        destruct (Hfirst y (or_introl eq_refl)) as [Hok | Hbad]; [exact Hok|].
        specialize (Hx y (or_introl eq_refl)).
        specialize (Hpos' y (or_introl eq_refl)). lia.
      * destruct IH as [IH _]. apply (IH Hrest). exact Hin.
    + intros Hchain. destruct l as [|y l'].
      * constructor; constructor.
      * assert (Hxy : minutesOf x + visitDurationMinutes (asAppointment x) <= minutesOf y)
          by (apply Hchain; left; reflexivity).
        constructor.
        -- apply Forall_forall. intros z Hz. left.
           inversion Hsorted as [|? ? _ Hy]; subst. rewrite Forall_forall in Hy.
           destruct Hz as [<- | Hz]; [exact Hxy|]. specialize (Hy z Hz). lia.
        -- apply IH. intros current next Hin. apply Hchain. right. exact Hin.
Qed.

Lemma validateDay_none (d : string) (dayAppointments : list T) :
  (forall apt, In apt dayAppointments -> isInflexible apt = true ->
               exists t, startMinutes apt = Some t) ->
  (validateDay (d, dayAppointments) = []
   <-> forall current next,
         In (current, next)
            (consecutive (sort byStartTimeOf (filter isInflexible dayAppointments))) ->
         minutesOf current + visitDurationMinutes (asAppointment current)
         <= minutesOf next).
Proof.
  intros Htimed. unfold validateDay.
  set (anchors := sort byStartTimeOf (filter isInflexible dayAppointments)).
  assert (Hanchors : forall apt, In apt anchors -> exists t, startMinutes apt = Some t).
  { intros apt Hin. apply (Permutation_in _ (sort_perm _ _)) in Hin.
    apply filter_In in Hin. apply Htimed; apply Hin. }
  assert (Hpairs : forall current next, In (current, next) (consecutive anchors) ->
                     In current anchors /\ In next anchors).
  { clear. induction anchors as [|x [|y l] IH]; simpl; intros current next Hin;
      try destruct Hin as [[= <- <-] | Hin]; try contradiction.
    - split; [left | right; left]; reflexivity.
    - destruct (IH current next Hin). split; right; assumption. }
  induction (consecutive anchors) as [|[current next] pairs IH]; simpl.
  - split; [intros _ ? ? [] | reflexivity].
  - destruct (Hpairs current next (or_introl eq_refl)) as [Hc Hn].
    destruct (Hanchors current Hc) as (tc & Htc).
    destruct (Hanchors next Hn) as (tn & Htn).
    pose proof (startMinutes_minutesOf _ _ Htc) as Ec.
    pose proof (startMinutes_minutesOf _ _ Htn) as En.
    assert (IH' := IH (fun c n Hin => Hpairs c n (or_intror Hin))). clear IH.
    unfold startMinutes in Htc, Htn.
    destruct (truthyStr (startTime (asAppointment current))) as [sc|]; [|discriminate].
    destruct (truthyStr (startTime (asAppointment next))) as [sn|]; [|discriminate].
    rewrite Htc, Htn. simpl.
    destruct (Z.ltb_spec (tn - tc) (visitDurationMinutes (asAppointment current))).
    + split; [discriminate|]. intros Hall.
      specialize (Hall current next (or_introl eq_refl)). lia.
    + simpl. rewrite IH'. split.
      * intros Hall c n [[= <- <-] | Hin]; [|apply Hall; exact Hin].
        lia.
      * intros Hall c n Hin. apply Hall. right. exact Hin.
Qed.

Lemma flat_map_nil {X Y} (f : X -> list Y) (l : list X) :
  flat_map f l = [] <-> forall x, In x l -> f x = [].
Proof.
  induction l as [|a l IH]; simpl.
  - split; [intros _ x [] | reflexivity].
  - split.
    + intros Hnil. apply app_eq_nil in Hnil. destruct Hnil as [Ha Hl].
      intros x [<- | Hx]; [exact Ha | apply IH; assumption].
    + intros Hall. rewrite (Hall a (or_introl eq_refl)). simpl.
      apply IH. intros x Hx. apply Hall. right. exact Hx.
Qed.

Lemma onDate_filter (d : string) (p : T -> bool) (l : list T) :
  onDate d (filter p l) = filter p (onDate d l).
Proof.
  unfold onDate. induction l as [|x l IH]; simpl; [reflexivity|].
  destruct (p x) eqn:Hp, (String.eqb d (date (asAppointment x))) eqn:Hd; simpl;
    rewrite ?Hp, ?Hd, IH; reflexivity.
Qed.

Lemma anchors_of_day_apart (d : string) (appointments : list T) :
  anchorsTimed appointments -> visitsTakeTime appointments ->
  (validateDay (d, onDate d appointments) = []
   <-> ForallOrdPairs (fun x y => detectConflict x y = None)
         (onDate d (filter isInflexible appointments))).
Proof.
  intros Htimed Hpos.
  assert (Hmember : forall apt, In apt (filter isInflexible (onDate d appointments)) ->
            In apt appointments /\ isInflexible apt = true).
  { intros apt Hin. apply filter_In in Hin. destruct Hin as [Hin Hfix].
    unfold onDate in Hin. apply filter_In in Hin. split; [apply Hin | exact Hfix]. }
  rewrite validateDay_none.
  2:{ intros apt Hin Hfix. apply Htimed; [|exact Hfix].
      unfold onDate in Hin. apply filter_In in Hin. apply Hin. }
  rewrite <- sorted_apart.
  2:{ apply sort_by_start. intros apt Hin. apply Htimed; apply Hmember; exact Hin. }
  2:{ intros apt Hin. apply (Permutation_in _ (sort_perm _ _)) in Hin.
      apply Hpos. apply Hmember. exact Hin. }
  rewrite onDate_filter.
  transitivity (ForallOrdPairs apart (filter isInflexible (onDate d appointments))).
  - split; apply ForallOrdPairs_perm; try (intros x y; apply apart_sym).
    + apply sort_perm.
    + symmetry. apply sort_perm.
  - apply ForallOrdPairs_ext. intros x y Hx Hy. symmetry.
    apply detectConflict_none_apart.
    + apply Htimed; apply Hmember; exact Hx.
    + apply Htimed; apply Hmember; exact Hy.
    + apply Hpos. apply Hmember. exact Hx.
    + apply Hpos. apply Hmember. exact Hy.
Qed.

Lemma onDate_absent (d : string) (appointments : list T) :
  ~ In d (datesInOrder appointments) -> onDate d appointments = [].
Proof.
  intros Hout. unfold onDate.
  destruct (filter _ appointments) as [|apt rest] eqn:E; [reflexivity|].
  exfalso. apply Hout. apply datesInOrder_In.
  assert (Hin : In apt (filter (fun apt => String.eqb d (date (asAppointment apt)))
                          appointments)) by (rewrite E; left; reflexivity).
  apply filter_In in Hin. destruct Hin as [Hin Hd]. apply String.eqb_eq in Hd.
  exists apt. auto.
Qed.

(** X19.  The schedule check and the conflict detection agree.  When every
    inflexible appointment has a start time that reads as a time of day
    and every visit takes some time, [validateScheduleFeasibility] reports
    no error if and only if [findAllConflicts] finds no conflict among the
    inflexible appointments. *)
Theorem validateScheduleFeasibility_iff_no_conflicts (appointments : list T) :
  anchorsTimed appointments -> visitsTakeTime appointments ->
  (validateScheduleFeasibility appointments = []
   <-> findAllConflicts (filter isInflexible appointments) = []).
Proof.
  intros Htimed Hpos.
  rewrite findAllConflicts_none, ForallOrdPairs_by_date.
  unfold validateScheduleFeasibility.
  rewrite flat_map_nil, groupAppointmentsByDate_groups. split.
  - intros Hdays d.
    apply (anchors_of_day_apart d appointments Htimed Hpos).
    destruct (in_dec string_dec d (datesInOrder appointments)) as [Hin | Hout].
    + apply Hdays. apply in_map_iff. exists d. auto.
    + rewrite (onDate_absent d appointments Hout). reflexivity.
  - intros Hclear entry Hentry. apply in_map_iff in Hentry.
    destruct Hentry as (d & <- & _).
    apply (anchors_of_day_apart d appointments Htimed Hpos). apply Hclear.
Qed.
End FeasibilityFacts.

Lemma consecutive_members {A} (l : list A) :
  forall current next, In (current, next) (consecutive l) -> In current l /\ In next l.
Proof.
  induction l as [|a [|b l] IH]; intros current next Hin; simpl in Hin; try contradiction.
  destruct Hin as [[= <- <-] | Hin].
  - split; [left; reflexivity | right; left; reflexivity].
  - destruct (IH current next Hin) as [Hc Hn]. split; right; assumption.
Qed.

Lemma flat_map_map_each {X Y Z} (f : X -> list Y) (g : X -> list Z) (h : Z -> Y)
    (l : list X) :
  (forall x, In x l -> f x = map h (g x)) ->
  flat_map f l = map h (flat_map g l).
Proof.
  induction l as [|x l IH]; intros Hsame; simpl; [reflexivity|].
  rewrite map_app, Hsame, IH; [reflexivity | | left; reflexivity].
  intros y Hy. apply Hsame. right. exact Hy.
Qed.

(** The reports of the two checks for one date: the "too close" reports
    are the same but for the words [Inflexible appointments]; the second
    check adds its "too far" reports. *)
Lemma validateDay_checkDay_reports {geo : Geodesy}
    (d : string) (day : list GeocodedAppointment) :
  exists tooClose tooFar : list string,
    validateDay (d, day)
    = map (fun report => "Date " ++ d ++ ": Inflexible appointments " ++ report)%string
          tooClose
    /\ checkDay (d, day)
       = map (fun report => "Date " ++ d ++ ": " ++ report)%string tooClose ++ tooFar
    /\ ((forall a b, In a day -> In b day ->
           isInflexible a = true -> isInflexible b = true ->
           (haversineDistance (latitude a) (longitude a) (latitude b) (longitude b)
            <= 200)%Q) ->
        tooFar = []).
Proof.
  unfold validateDay, checkDay.
  set (anchors := sort byStartTime (filter isInflexible day)).
  exists (flat_map
            (fun '(current, next) =>
               match truthyStr (startTime (asAppointment current)),
                     truthyStr (startTime (asAppointment next)) with
               | Some currentStart, Some nextStart =>
                   if nltb (nsub (timeToMinutes nextStart) (timeToMinutes currentStart))
                           (Some (visitDurationMinutes (asAppointment current)))
                   then [ (appName (asAppointment current)
                           ++ " (at " ++ currentStart ++ ") and "
                           ++ appName (asAppointment next) ++ " (at " ++ nextStart
                           ++ ") are too close. Need at least "
                           ++ toString (visitDurationMinutes (asAppointment current))
                           ++ " minutes between them.")%string ]
                   else []
               | _, _ => []
               end)
            (consecutive anchors)).
  eexists. split; [|split; [f_equal|]].
  - apply flat_map_map_each. intros [current next] _.
    destruct (truthyStr (startTime (asAppointment current))); [|reflexivity].
    destruct (truthyStr (startTime (asAppointment next))); [|reflexivity].
    simpl. destruct (nltb _ _); reflexivity.
  - apply flat_map_map_each. intros [current next] _.
    destruct (truthyStr (startTime (asAppointment current))); [|reflexivity].
    destruct (truthyStr (startTime (asAppointment next))); [|reflexivity].
    simpl. destruct (nltb _ _); reflexivity.
  - intros Hnear. apply flat_map_nil. intros [current next] Hpair.
    destruct (truthyStr (startTime (asAppointment current))); [|reflexivity].
    destruct (truthyStr (startTime (asAppointment next))); [|reflexivity].
    apply consecutive_members in Hpair. destruct Hpair as [Hc Hn].
    apply (Permutation_in _ (sort_perm _ _)) in Hc, Hn.
    apply filter_In in Hc, Hn.
    assert (E : Qltb 200 (haversineDistance (latitude current) (longitude current)
                             (latitude next) (longitude next)) = false)
      by (apply Qltb_false; apply Hnear; tauto).
    simpl. rewrite E. reflexivity.
Qed.

(** X20.  The two schedule checks agree on the appointments that are too
    close.  Date by date, [validateScheduleFeasibility] and
    [checkScheduleFeasibility] report the same pairs as too close, in the
    same order and with the same text but for the words [Inflexible
    appointments]; [checkScheduleFeasibility] adds, after those of each
    date, its reports of appointments too far apart.  So it reports at
    least as many errors, and a schedule it accepts is accepted by both.
    When the inflexible appointments of each date of the list lie within
    200 km of each other, it reports nothing else, and the two checks
    report equally many errors. *)
Theorem validateScheduleFeasibility_within_checkScheduleFeasibility
    {geo : Geodesy} (appointments : list GeocodedAppointment) :
  (exists days : list (string * list string * list string),
     validateScheduleFeasibility appointments
     = flat_map
         (fun '(d, tooClose, _) =>
            map (fun report => "Date " ++ d ++ ": Inflexible appointments " ++ report)%string
                tooClose)
         days
     /\ checkScheduleFeasibility appointments
        = flat_map
            (fun '(d, tooClose, tooFar) =>
               map (fun report => "Date " ++ d ++ ": " ++ report)%string tooClose
               ++ tooFar)
            days
     /\ (anchorsWithin 200 appointments ->
         forall d tooClose tooFar, In (d, tooClose, tooFar) days -> tooFar = []))
  /\ (List.length (validateScheduleFeasibility appointments)
      <= List.length (checkScheduleFeasibility appointments))%nat
  /\ (checkScheduleFeasibility appointments = [] ->
      validateScheduleFeasibility appointments = [])
  /\ (anchorsWithin 200 appointments ->
      List.length (validateScheduleFeasibility appointments)
      = List.length (checkScheduleFeasibility appointments)).
Proof.
  assert (Hdays : exists days : list (string * list string * list string),
     validateScheduleFeasibility appointments
     = flat_map
         (fun '(d, tooClose, _) =>
            map (fun report => "Date " ++ d ++ ": Inflexible appointments " ++ report)%string
                tooClose)
         days
     /\ checkScheduleFeasibility appointments
        = flat_map
            (fun '(d, tooClose, tooFar) =>
               map (fun report => "Date " ++ d ++ ": " ++ report)%string tooClose
               ++ tooFar)
            days
     /\ (anchorsWithin 200 appointments ->
         forall d tooClose tooFar, In (d, tooClose, tooFar) days -> tooFar = [])).
  { unfold validateScheduleFeasibility, checkScheduleFeasibility.
    assert (Hgroups : forall d day, In (d, day) (groupAppointmentsByDate appointments) ->
              forall apt, In apt day ->
                In apt appointments /\ date (asAppointment apt) = d).
    { intros d day Hin apt Hapt.
      rewrite groupAppointmentsByDate_groups in Hin. apply in_map_iff in Hin.
      destruct Hin as (d' & [= -> <-] & _). apply filter_In in Hapt.
      destruct Hapt as [Hmember Hdate]. apply String.eqb_eq in Hdate. auto. }
    induction (groupAppointmentsByDate appointments) as [|[d day] rest IH].
    - exists []. repeat split. intros _ d tooClose tooFar [].
    - destruct IH as (days & Hv & Hc & Hfar).
      { intros d' day' Hin. apply Hgroups. right. exact Hin. }
      destruct (validateDay_checkDay_reports d day) as (tooClose & tooFar & Ev & Ec & Efar).
      exists ((d, tooClose, tooFar) :: days). cbn [flat_map]. rewrite Hv, Hc, Ev, Ec.
      repeat split.
      intros Hnear d' tooClose' tooFar' [[= <- <- <-] | Hin];
        [|eapply Hfar; eassumption].
      apply Efar. intros a b Ha Hb Hainf Hbinf.
      destruct (Hgroups d day (or_introl eq_refl) a Ha) as [Ha' Hda].
      destruct (Hgroups d day (or_introl eq_refl) b Hb) as [Hb' Hdb].
      apply Hnear; congruence. }
  split; [exact Hdays|].
  destruct Hdays as (days & -> & -> & Hfar).
  assert (Hcount : forall l : list (string * list string * list string),
            exists extra,
              List.length (flat_map
                (fun '(d, tooClose, tooFar) =>
                   map (fun report => "Date " ++ d ++ ": " ++ report)%string tooClose
                   ++ tooFar) l)
              = (List.length (flat_map
                  (fun '(d, tooClose, _) =>
                     map (fun report =>
                            "Date " ++ d ++ ": Inflexible appointments " ++ report)%string
                         tooClose) l) + extra)%nat
              /\ ((forall d tooClose tooFar, In (d, tooClose, tooFar) l -> tooFar = []) ->
                  extra = 0%nat)).
  { induction l as [|[[d tooClose] tooFar] l IH].
    - exists 0%nat. split; [reflexivity | auto].
    - destruct IH as (extra & Hlen & Hzero).
      exists (List.length tooFar + extra)%nat. cbn [flat_map].
      rewrite !length_app, !length_map.
      split; [lia|]. intros Hall.
      rewrite (Hall d tooClose tooFar (or_introl eq_refl)). simpl.
      apply Hzero. intros d' c' f' Hin. eapply Hall. right. exact Hin. }
  destruct (Hcount days) as (extra & Hlen & Hzero).
  split; [lia|]. split.
  - intros Hnil. rewrite Hnil in Hlen. cbn [List.length] in Hlen.
    apply length_zero_iff_nil. lia.
  - intros Hnear. rewrite Hlen, (Hzero (Hfar Hnear)). lia.
Qed.

(* ================================================================== *)
(** ** Penalty and tightness *)
(* ================================================================== *)

(** X21.  The time penalty, for a grace period that is not negative.  Without
    a preferred time it is 0.  When both times read as times of day it is
    the square of the minutes beyond the grace period, over 100: never
    negative, and 0 exactly when [isWithinGracePeriod] holds.  When one of
    the times does not read as a time of day it is [NaN]. *)
Theorem calculateTimePenalty_zero_iff_within_grace
    (arrivalTime : string) (preferredTime : option string) (gracePeriod : Z) :
  0 <= gracePeriod ->
  (truthyStr preferredTime = None ->
   calculateTimePenalty arrivalTime preferredTime gracePeriod = Some 0%Q)
  /\ (forall preferred arrival target,
        truthyStr preferredTime = Some preferred ->
        timeToMinutes arrivalTime = Some arrival ->
        timeToMinutes preferred = Some target ->
        exists penalty,
          calculateTimePenalty arrivalTime preferredTime gracePeriod = Some penalty
          /\ (penalty ==
              inject_Z (Z.max 0 (Z.abs (arrival - target) - gracePeriod) ^ 2) / 100)%Q
          /\ (0 <= penalty)%Q
          /\ ((penalty == 0)%Q
              <-> isWithinGracePeriod arrivalTime preferred gracePeriod = true))
  /\ (forall preferred,
        truthyStr preferredTime = Some preferred ->
        timeToMinutes arrivalTime = None \/ timeToMinutes preferred = None ->
        calculateTimePenalty arrivalTime preferredTime gracePeriod = None).
Proof.
  intros Hgrace. unfold calculateTimePenalty, isWithinGracePeriod, timeDifference.
  split; [|split].
  - intros ->. reflexivity.
  - intros preferred arrival target -> -> ->. simpl.
    destruct (Z.leb_spec (Z.abs (arrival - target)) gracePeriod) as [Hin | Hout].
    + exists 0%Q. split; [reflexivity|].
      replace (Z.max 0 (Z.abs (arrival - target) - gracePeriod)) with 0 by lia.
      repeat split; try reflexivity. apply Qle_refl.
    + eexists. split; [reflexivity|].
      replace (Z.max 0 (Z.abs (arrival - target) - gracePeriod))
        with (Z.abs (arrival - target) - gracePeriod) by lia.
      split; [reflexivity|].
      assert (Hpos : 0 < (Z.abs (arrival - target) - gracePeriod) ^ 2)
        by (apply Z.pow_pos_nonneg; lia).
      assert (HposQ : (0 < inject_Z ((Z.abs (arrival - target) - gracePeriod) ^ 2))%Q).
      { change 0%Q with (inject_Z 0). rewrite <- Zlt_Qlt. exact Hpos. }
      split.
      * apply Qle_shift_div_l; [reflexivity|]. rewrite Qmult_0_l.
        apply Qlt_le_weak. exact HposQ.
      * split; [|discriminate]. intros Hzero. exfalso.
        assert (Hq : (0 < inject_Z ((Z.abs (arrival - target) - gracePeriod) ^ 2) / 100)%Q).
        { apply Qlt_shift_div_l; [reflexivity|]. rewrite Qmult_0_l. exact HposQ. }
        rewrite Hzero in Hq. apply (Qlt_irrefl 0). exact Hq.
  - intros preferred -> [-> | ->]; simpl.
    + reflexivity.
    + destruct (timeToMinutes arrivalTime); reflexivity.
Qed.

Lemma filter_length_le {A} (p : A -> bool) (l : list A) :
  (List.length (filter p l) <= List.length l)%nat.
Proof. induction l as [|x l IH]; simpl; [lia|]. destruct (p x); simpl; lia. Qed.

Lemma dayTightness_bounds (day : list GeocodedAppointment) :
  (0 <= inject_Z (Z.of_nat (List.length (filter isInflexible day)))
        / Math_max (inject_Z (Z.of_nat (List.length day))) 1 <= 1)%Q.
Proof.
  pose proof (filter_length_le isInflexible day) as Hle.
  pose proof (Math_max_spec (inject_Z (Z.of_nat (List.length day))) 1) as (Hm1 & Hm2 & _).
  set (m := Math_max _ _) in *.
  assert (Hpos : (0 < m)%Q) by lra.
  split.
  - apply Qle_shift_div_l; [exact Hpos|]. rewrite Qmult_0_l.
    change 0%Q with (inject_Z 0). rewrite <- Zle_Qle. lia.
  - apply Qle_shift_div_r; [exact Hpos|]. rewrite Qmult_1_l.
    eapply Qle_trans; [|exact Hm1]. rewrite <- Zle_Qle. lia.
Qed.

Lemma tightness_totals (byDate : list (string * list GeocodedAppointment)) :
  forall (total : Q) (count : Z),
    0 <= count -> (0 <= total <= inject_Z count)%Q ->
    let '(totalTightness, dayCount) :=
      fold_left
        (fun '(totalTightness, dayCount) (entry : string * list GeocodedAppointment) =>
           let dayAppointments := snd entry in
           let inflexibleCount :=
             Z.of_nat (List.length (filter isInflexible dayAppointments)) in
           let totalCount := Z.of_nat (List.length dayAppointments) in
           let tightness :=
             (inject_Z inflexibleCount / Math_max (inject_Z totalCount) 1)%Q in
           ((totalTightness + tightness)%Q, dayCount + 1))
        byDate (total, count) in
    0 <= dayCount /\ (0 <= totalTightness <= inject_Z dayCount)%Q.
Proof.
  induction byDate as [|entry rest IH]; intros total count Hcount Htotal; simpl.
  - auto.
  - apply IH; [lia|].
    pose proof (dayTightness_bounds (snd entry)) as Hday.
    rewrite inject_Z_plus. change (inject_Z 1) with 1%Q. lra.
Qed.

Lemma tightness_uniform (r : Q) (byDate : list (string * list GeocodedAppointment)) :
  (forall entry, In entry byDate ->
     (inject_Z (Z.of_nat (List.length (filter isInflexible (snd entry))))
      / Math_max (inject_Z (Z.of_nat (List.length (snd entry)))) 1 == r)%Q) ->
  forall (total : Q) (count : Z),
    (total == r * inject_Z count)%Q ->
    let '(totalTightness, dayCount) :=
      fold_left
        (fun '(totalTightness, dayCount) (entry : string * list GeocodedAppointment) =>
           let dayAppointments := snd entry in
           let inflexibleCount :=
             Z.of_nat (List.length (filter isInflexible dayAppointments)) in
           let totalCount := Z.of_nat (List.length dayAppointments) in
           let tightness :=
             (inject_Z inflexibleCount / Math_max (inject_Z totalCount) 1)%Q in
           ((totalTightness + tightness)%Q, dayCount + 1))
        byDate (total, count) in
    (totalTightness == r * inject_Z dayCount)%Q
    /\ dayCount = count + Z.of_nat (List.length byDate).
Proof.
  induction byDate as [|entry rest IH]; intros Hdays total count Htotal; simpl.
  - split; [exact Htotal | lia].
  - specialize (IH (fun e He => Hdays e (or_intror He))
                   (total + inject_Z (Z.of_nat (List.length (filter isInflexible (snd entry))))
                            / Math_max (inject_Z (Z.of_nat (List.length (snd entry)))) 1)%Q
                   (count + 1)).
    simpl in IH.
    destruct (fold_left _ rest _) as [totalTightness dayCount].
    assert (Hstep : (total + inject_Z (Z.of_nat (List.length (filter isInflexible (snd entry))))
                             / Math_max (inject_Z (Z.of_nat (List.length (snd entry)))) 1
                     == r * inject_Z (count + 1))%Q).
    { rewrite (Hdays entry (or_introl eq_refl)), Htotal, inject_Z_plus.
      change (inject_Z 1) with 1%Q. ring. }
    destruct (IH Hstep) as [Ht Hc]. split; [exact Ht | lia].
Qed.

Lemma filter_all {A} (p : A -> bool) (l : list A) :
  (forall x, In x l -> p x = true) -> filter p l = l.
Proof.
  induction l as [|x l IH]; intros Hall; simpl; [reflexivity|].
  rewrite (Hall x (or_introl eq_refl)), IH; [reflexivity|].
  intros y Hy. apply Hall. right. exact Hy.
Qed.

Lemma filter_none {A} (p : A -> bool) (l : list A) :
  (forall x, In x l -> p x = false) -> filter p l = [].
Proof.
  induction l as [|x l IH]; intros Hall; simpl; [reflexivity|].
  rewrite (Hall x (or_introl eq_refl)), IH; [reflexivity|].
  intros y Hy. apply Hall. right. exact Hy.
Qed.

(** X22.  The tightness of a schedule lies between 0 and 1; it is 0 when no
    appointment is inflexible, and 1 when there are appointments and all
    are inflexible. *)
Theorem calculateScheduleTightness_between_0_and_1
    (appointments : list GeocodedAppointment) :
  (0 <= calculateScheduleTightness appointments <= 1)%Q
  /\ ((forall apt, In apt appointments -> isInflexible apt = false) ->
      (calculateScheduleTightness appointments == 0)%Q)
  /\ (appointments <> [] ->
      (forall apt, In apt appointments -> isInflexible apt = true) ->
      (calculateScheduleTightness appointments == 1)%Q).
Proof.
  assert (Hmembers : forall entry, In entry (groupAppointmentsByDate appointments) ->
            snd entry <> [] /\ forall apt, In apt (snd entry) -> In apt appointments).
  { intros [d group] Hentry. split.
    - eapply groupAppointmentsByDate_nonempty. exact Hentry.
    - intros apt Hapt.
      exact (groupAppointmentsByDate_drawnFrom appointments d group apt Hentry Hapt). }
  unfold calculateScheduleTightness. split; [|split].
  - pose proof (tightness_totals (groupAppointmentsByDate appointments) 0 0
                  (Z.le_refl 0) (conj (Qle_refl 0) (Qle_refl 0))) as Htotals.
    destruct (fold_left _ _ _) as [totalTightness dayCount].
    destruct Htotals as [Hcount [H0 H1]].
    destruct (Z.gtb_spec dayCount 0) as [Hpos | _]; [|split; discriminate].
    assert (HposQ : (0 < inject_Z dayCount)%Q).
    { change 0%Q with (inject_Z 0). rewrite <- Zlt_Qlt. lia. }
    split.
    + apply Qle_shift_div_l; [exact HposQ|]. rewrite Qmult_0_l. exact H0.
    + apply Qle_shift_div_r; [exact HposQ|]. rewrite Qmult_1_l. exact H1.
  - intros Hflexible.
    assert (Hdays : forall entry, In entry (groupAppointmentsByDate appointments) ->
              (inject_Z (Z.of_nat (List.length (filter isInflexible (snd entry))))
               / Math_max (inject_Z (Z.of_nat (List.length (snd entry)))) 1 == 0)%Q).
    { intros entry Hentry. rewrite filter_none; [reflexivity|].
      intros apt Hapt. apply Hflexible. apply (Hmembers entry Hentry). exact Hapt. }
    pose proof (tightness_uniform 0 _ Hdays 0%Q 0 (Qeq_refl _)) as Huniform.
    destruct (fold_left _ _ _) as [totalTightness dayCount].
    destruct Huniform as [Ht _].
    destruct (dayCount >? 0); [|reflexivity]. rewrite Ht. reflexivity.
  - intros Hne Hfixed.
    assert (Hdays : forall entry, In entry (groupAppointmentsByDate appointments) ->
              (inject_Z (Z.of_nat (List.length (filter isInflexible (snd entry))))
               / Math_max (inject_Z (Z.of_nat (List.length (snd entry)))) 1 == 1)%Q).
    { intros entry Hentry. destruct (Hmembers entry Hentry) as [Hday Hin].
      rewrite filter_all by (intros apt Hapt; apply Hfixed, Hin, Hapt).
      assert (Hlen : (1 <= inject_Z (Z.of_nat (List.length (snd entry))))%Q).
      { change 1%Q with (inject_Z 1). rewrite <- Zle_Qle.
        destruct (snd entry); [contradiction | simpl List.length; lia]. }
      unfold Math_max.
      destruct (Qle_bool (inject_Z (Z.of_nat (List.length (snd entry)))) 1) eqn:E.
      - apply Qle_bool_iff in E.
        assert (E1 : (inject_Z (Z.of_nat (List.length (snd entry))) == 1)%Q)
          by (apply Qle_antisym; assumption).
        rewrite E1. reflexivity.
      - field. intros Hzero. rewrite Hzero in Hlen. lra. }
    pose proof (tightness_uniform 1 _ Hdays 0%Q 0 (Qeq_refl _)) as Huniform.
    destruct (fold_left _ _ _) as [totalTightness dayCount].
    destruct Huniform as [Ht Hc].
    assert (Hgroups : groupAppointmentsByDate appointments <> []).
    { intros Hnil.
      pose proof (groupAppointmentsByDate_concat appointments) as Hperm.
      rewrite Hnil in Hperm. simpl in Hperm.
      apply Permutation_nil in Hperm. contradiction. }
    assert (Hpos : 0 < dayCount).
    { destruct (groupAppointmentsByDate appointments); [contradiction|].
      simpl List.length in Hc. lia. }
    destruct (Z.gtb_spec dayCount 0); [|lia].
    rewrite Ht. field. intros Hzero.
    assert (Hq : (0 < inject_Z dayCount)%Q)
      by (change 0%Q with (inject_Z 0); rewrite <- Zlt_Qlt; exact Hpos).
    rewrite Hzero in Hq. apply (Qlt_irrefl 0). exact Hq.
Qed.

(* ================================================================== *)
(** ** The routes of the optimizer *)
(* ================================================================== *)

Section RouteAccounts.
Context {geo : Geodesy} {service : DistanceService}.

(** X23.  A schedule without a flexible appointment is never routed:
    [optimizeRoute] answers a failed route with no stops and the totals at
    zero, with the message that nothing can be optimized (or, for no
    appointments at all, that there are none), and does not ask the
    distance service. *)
Theorem optimizeRoute_refuses_without_flexible
    (geocodedAppointments : list GeocodedAppointment) (w : World) :
  (forall apt, In apt geocodedAppointments -> isInflexible apt = true) ->
  optimizeRoute geocodedAppointments w
  = (failedRoute geocodedAppointments
       (match geocodedAppointments with
        | [] => "No appointments to optimize"
        | _ => "All appointments are inflexible. No optimization possible."
        end), w).
Proof.
  intros Hfixed. unfold optimizeRoute, tryOptimizeRoute.
  destruct geocodedAppointments as [|first others] eqn:E; [reflexivity|].
  rewrite <- E in *.
  unfold canOptimizeRoute.
  rewrite (filter_none (fun apt => negb (isInflexible apt)) geocodedAppointments).
  - simpl. rewrite E. reflexivity.
  - intros apt Hapt. rewrite (Hfixed apt Hapt). reflexivity.
Qed.

Lemma sumDriveTime_snoc stops stop :
  sumDriveTime (stops ++ [stop]) = sumDriveTime stops + travelTimeFromPrevious stop.
Proof.
  unfold sumDriveTime. induction stops as [|s l IH]; simpl; [lia|].
  rewrite IH. lia.
Qed.

Lemma sumVisitTime_snoc stops stop :
  sumVisitTime (stops ++ [stop])
  = sumVisitTime stops + visitDurationMinutes (asAppointment (appointment stop)).
Proof.
  unfold sumVisitTime. induction stops as [|s l IH]; simpl; [lia|].
  rewrite IH. lia.
Qed.

Lemma sumDistance_snoc stops stop :
  (sumDistance (stops ++ [stop]) == sumDistance stops + distanceFromPrevious stop)%Q.
Proof.
  unfold sumDistance. induction stops as [|s l IH]; simpl; [ring|].
  rewrite IH. ring.
Qed.

Lemma sumDriveTime_app l1 l2 :
  sumDriveTime (l1 ++ l2) = sumDriveTime l1 + sumDriveTime l2.
Proof.
  unfold sumDriveTime. induction l1 as [|s l IH]; simpl; [lia|]. rewrite IH. lia.
Qed.

Lemma sumVisitTime_app l1 l2 :
  sumVisitTime (l1 ++ l2) = sumVisitTime l1 + sumVisitTime l2.
Proof.
  unfold sumVisitTime. induction l1 as [|s l IH]; simpl; [lia|]. rewrite IH. lia.
Qed.

Lemma sumDistance_app l1 l2 :
  (sumDistance (l1 ++ l2) == sumDistance l1 + sumDistance l2)%Q.
Proof.
  unfold sumDistance. induction l1 as [|s l IH]; simpl; [ring|]. rewrite IH. ring.
Qed.

Lemma routeFrom_accounted (remaining : list GeocodedAppointment) :
  forall prevApt i currentTime acc result w w',
    routeFrom prevApt remaining i currentTime acc w = (inr result, w') ->
    accounted acc ->
    accounted result
    /\ map appointment (rd_stops result) = map appointment (rd_stops acc) ++ remaining.
Proof.
  induction remaining as [|currentApt rest IH];
    intros prevApt i currentTime acc result w w' Hrun Hacc.
  - simpl in Hrun. unfold ret in Hrun. injection Hrun as <- _.
    split; [exact Hacc | symmetry; apply app_nil_r].
  - cbn [routeFrom] in Hrun. unfold bind at 1 in Hrun.
    destruct (getDistanceMatrix (pointOf prevApt) [pointOf currentApt] w)
      as [[e | distanceResult] w1]; [discriminate|].
    destruct Hacc as (Hdrive & Hvisit & Hdist).
    destruct distanceResult as [|first others];
      (apply IH in Hrun;
       [destruct Hrun as [Hres Hmap]; split; [exact Hres|];
        rewrite Hmap; cbn [rd_stops]; rewrite map_app, <- app_assoc; reflexivity
       | unfold accounted; cbn [rd_stops rd_totalDriveTime rd_totalVisitTime rd_totalDistance];
         rewrite sumDriveTime_snoc, sumVisitTime_snoc, sumDistance_snoc;
         cbn [travelTimeFromPrevious appointment distanceFromPrevious];
         rewrite Hdrive, Hvisit, Hdist; repeat split; reflexivity]).
Qed.

Lemma calculateRoute_accounted (orderedAppointments : list GeocodedAppointment) :
  forall result w w',
    calculateRoute orderedAppointments w = (inr result, w') ->
    accounted result /\ map appointment (rd_stops result) = orderedAppointments.
Proof.
  intros result w w' Hrun. destruct orderedAppointments as [|firstApt rest].
  - simpl in Hrun. unfold ret in Hrun. injection Hrun as <- _.
    split; [|reflexivity]. unfold accounted, sumDriveTime, sumVisitTime, sumDistance.
    simpl. repeat split; reflexivity.
  - unfold calculateRoute in Hrun. apply routeFrom_accounted in Hrun.
    + exact Hrun.
    + unfold accounted, sumDriveTime, sumVisitTime, sumDistance. simpl.
      repeat split; lia.
Qed.

Lemma optimizeDay_ordered (appointments : list GeocodedAppointment) w day w' :
  optimizeDay appointments w = (inr day, w') ->
  exists ordered w1,
    insertAll (filter (fun apt => negb (isInflexible apt)) appointments)
              (sort byStartTime (filter isInflexible appointments)) w
    = (inr ordered, w1)
    /\ calculateRoute ordered w1 = (inr (day_route day), w').
Proof.
  unfold optimizeDay. unfold bind at 1.
  destruct (insertAll _ _ w) as [[e | ordered] w1]; [discriminate|].
  unfold bind at 1. unfold optimizeInflexiblePositions, ret at 1.
  unfold bind.
  destruct (calculateRoute ordered w1) as [[e | result] w2] eqn:Hroute; [discriminate|].
  unfold ret. intros [= <- <-]. exists ordered, w1. auto.
Qed.

Lemma optimizeDay_accounted (appointments : list GeocodedAppointment) w day w' :
  optimizeDay appointments w = (inr day, w') ->
  accounted (day_route day)
  /\ Permutation (map appointment (rd_stops (day_route day))) appointments.
Proof.
  intros Hday. destruct (optimizeDay_ordered _ _ _ _ Hday) as (ordered & w1 & Hins & Hroute).
  apply calculateRoute_accounted in Hroute. destruct Hroute as [Hacc Hmap].
  split; [exact Hacc|]. rewrite Hmap.
  destruct (insertAll_spec (filter (fun apt => negb (isInflexible apt)) appointments)
              (sort byStartTime (filter isInflexible appointments)) w)
    as (final & w2 & Hrun & Hperm).
  rewrite Hins in Hrun. injection Hrun as <- <-.
  eapply perm_trans; [exact Hperm|].
  eapply perm_trans; [apply Permutation_app_head, sort_perm|].
  apply partition_perm.
Qed.

(** C3.  The route of a day.  Every route that [optimizeDay] returns visits
    the input appointments, each as often as it occurs in the input: the
    identities of the stops are a permutation of the input identities,
    without repetition when the input has none.  When visits and travel
    take no negative time and the start time of every inflexible
    appointment that has one reads as a time of day, every stop is reached
    no earlier than the arrival at the stop before it plus the visit
    there.  A route is returned whenever the distance service answers. *)
Theorem optimizeDay_permutation_and_schedule
    (appointments : list GeocodedAppointment) (w : World) :
  (forall day w', optimizeDay appointments w = (inr day, w') ->
     let stops := rd_stops (day_route day) in
     Permutation (map appointment stops) appointments
     /\ Permutation (map (fun stop => id (asAppointment (appointment stop))) stops)
                    (map (fun apt => id (asAppointment apt)) appointments)
     /\ (NoDup (map (fun apt => id (asAppointment apt)) appointments) ->
         NoDup (map (fun stop => id (asAppointment (appointment stop))) stops))
     /\ (durationsValid appointments -> anchorStartsValid appointments ->
         travelTimesValid ->
         forall i s1 s2,
           nth_error stops i = Some s1 -> nth_error stops (S i) = Some s2 ->
           arrivesAfter s1 s2))
  /\ (serviceAnswers -> exists day w', optimizeDay appointments w = (inr day, w')).
Proof.
  split.
  - intros day w' Hday stops.
    destruct (optimizeDay_accounted appointments w day w' Hday) as [_ P].
    assert (Pid : Permutation
                    (map (fun stop => id (asAppointment (appointment stop))) stops)
                    (map (fun apt => id (asAppointment apt)) appointments)).
    { rewrite <- (map_map appointment (fun apt => id (asAppointment apt))).
      apply Permutation_map. exact P. }
    split; [exact P|]. split; [exact Pid|]. split.
    + intros Hnodup. eapply Permutation_NoDup; [symmetry; exact Pid | exact Hnodup].
    + intros Hdur Hstart Htravel.
      exact (optimizeDay_schedule appointments w day w' Hday Hdur Hstart Htravel).
  - apply optimizeDay_returns.
Qed.

Lemma optimizeDates_accounted (byDate : list (string * list GeocodedAppointment)) :
  forall acc warnings totals finalWarnings w w',
    optimizeDates byDate acc warnings w = (inr (totals, finalWarnings), w') ->
    accounted acc ->
    accounted totals
    /\ Permutation (map appointment (rd_stops totals))
                   (map appointment (rd_stops acc) ++ List.concat (map snd byDate)).
Proof.
  induction byDate as [|[d group] rest IH];
    intros acc warnings totals finalWarnings w w' Hrun Hacc.
  - simpl in Hrun. unfold ret in Hrun. injection Hrun as <- _ _.
    split; [exact Hacc|]. simpl. rewrite app_nil_r. reflexivity.
  - cbn [optimizeDates] in Hrun. unfold bind at 1 in Hrun.
    destruct (optimizeDay group w) as [[e | day] w1] eqn:Hday; [discriminate|].
    apply optimizeDay_accounted in Hday. destruct Hday as [(Hd & Hv & Hq) Hperm].
    destruct Hacc as (Hd0 & Hv0 & Hq0).
    apply IH in Hrun.
    + destruct Hrun as [Htotals Hstops]. split; [exact Htotals|].
      rewrite Hstops. cbn [rd_stops]. rewrite map_app, <- app_assoc. simpl.
      apply Permutation_app_head. apply Permutation_app_tail. exact Hperm.
    + unfold accounted.
      cbn [rd_stops rd_totalDriveTime rd_totalVisitTime rd_totalDistance].
      rewrite sumDriveTime_app, sumVisitTime_app, sumDistance_app, Hd, Hv, Hq, Hd0, Hv0, Hq0.
      repeat split; reflexivity.
Qed.

(** X24.  The route that [optimizeRoute] answers.  With success it has no
    error message, its stops visit the appointments given, each as often
    as it was given, over all dates, and the total drive time, visit time
    and distance are the sums over the stops.  Without success it has no
    stops, zero totals and an error message. *)
Theorem optimizeRoute_accounts_for_every_appointment
    (geocodedAppointments : list GeocodedAppointment) (w : World) :
  let route := fst (optimizeRoute geocodedAppointments w) in
  (success route = true ->
     error route = None
     /\ Permutation (map appointment (stops route)) geocodedAppointments
     /\ totalDriveTime route = sumDriveTime (stops route)
     /\ totalVisitTime route = sumVisitTime (stops route)
     /\ (totalDistance route == sumDistance (stops route))%Q)
  /\ (success route = false ->
      exists message, route = failedRoute geocodedAppointments message).
Proof.
  unfold optimizeRoute.
  destruct (tryOptimizeRoute geocodedAppointments w) as [[message | route] w1] eqn:Htry;
    simpl.
  - split; [discriminate|]. intros _. exists message. reflexivity.
  - unfold tryOptimizeRoute in Htry.
    destruct geocodedAppointments as [|first others] eqn:E; [discriminate|].
    rewrite <- E in *.
    destruct (negb (canOptimize (canOptimizeRoute geocodedAppointments))); [discriminate|].
    unfold bind in Htry.
    destruct (optimizeDates (groupAppointmentsByDate geocodedAppointments)
                (mkRouteDetails [] 0 0 0) [] w)
      as [[e | [totals dayWarnings]] w2] eqn:Hdates; [discriminate|].
    unfold ret in Htry. injection Htry as <- _. simpl.
    apply optimizeDates_accounted in Hdates.
    + destruct Hdates as [(Hd & Hv & Hq) Hperm]. simpl in Hperm.
      split; [|discriminate]. intros _. split; [reflexivity|].
      split; [|auto].
      rewrite Hperm. apply groupAppointmentsByDate_concat.
    + unfold accounted, sumDriveTime, sumVisitTime, sumDistance. simpl.
      repeat split; reflexivity.
Qed.

Lemma spliceIn_filter (p : GeocodedAppointment -> bool) position x arr :
  p x = false -> filter p (spliceIn position x arr) = filter p arr.
Proof.
  intros Hx. unfold spliceIn. rewrite filter_app. simpl. rewrite Hx.
  rewrite <- filter_app, firstn_skipn. reflexivity.
Qed.

Lemma insertAll_keeps_anchors (flexibleAppointments : list GeocodedAppointment) :
  forall orderedAppointments final w w',
    (forall apt, In apt flexibleAppointments -> isInflexible apt = false) ->
    insertAll flexibleAppointments orderedAppointments w = (inr final, w') ->
    filter isInflexible final = filter isInflexible orderedAppointments.
Proof.
  induction flexibleAppointments as [|flexibleApt rest IH];
    intros orderedAppointments final w w' Hflex Hrun.
  - simpl in Hrun. unfold ret in Hrun. injection Hrun as <- _. reflexivity.
  - cbn [insertAll] in Hrun. unfold bind at 1 in Hrun.
    destruct (insertFlexibleAppointment flexibleApt orderedAppointments w)
      as [[e | updated] w1] eqn:Hins; [discriminate|].
    apply IH in Hrun; [|intros apt Hapt; apply Hflex; right; exact Hapt].
    rewrite Hrun. clear Hrun IH.
    assert (Hx : isInflexible flexibleApt = false) by (apply Hflex; left; reflexivity).
    unfold insertFlexibleAppointment in Hins.
    destruct (List.length orderedAppointments =? 0)%nat.
    + unfold ret in Hins. injection Hins as <- _.
      rewrite filter_app. simpl. rewrite Hx. apply app_nil_r.
    + unfold bind in Hins.
      destruct (tryPositions _ _ _ _ _ w) as [[e | [bestPosition bestCost]] w2];
        [discriminate|].
      unfold ret in Hins. injection Hins as <- _.
      apply spliceIn_filter. exact Hx.
Qed.

(** X25.  In the route of a day, the inflexible appointments come in the order
    in which the sort by start time has put them, whatever is inserted
    between them; when each has a start time that reads as a time of day,
    that is the order of their start times. *)
Theorem optimizeDay_keeps_anchors_in_start_order
    (appointments : list GeocodedAppointment) (w : World) (day : DayResult) (w' : World) :
  optimizeDay appointments w = (inr day, w') ->
  filter isInflexible (map appointment (rd_stops (day_route day)))
  = sort byStartTime (filter isInflexible appointments)
  /\ (anchorsTimed appointments ->
      StronglySorted (fun a b => minutesOf a <= minutesOf b)
        (filter isInflexible (map appointment (rd_stops (day_route day))))).
Proof.
  intros Hday.
  destruct (optimizeDay_ordered _ _ _ _ Hday) as (ordered & w1 & Hins & Hroute).
  apply calculateRoute_accounted in Hroute. destruct Hroute as [_ Hmap].
  apply insertAll_keeps_anchors in Hins.
  2:{ intros apt Hapt. apply filter_In in Hapt. destruct Hapt as [_ Hflex].
      destruct (isInflexible apt); [discriminate | reflexivity]. }
  assert (Hanchors : filter isInflexible (map appointment (rd_stops (day_route day)))
                     = sort byStartTime (filter isInflexible appointments)).
  { rewrite Hmap, Hins. apply filter_all.
    intros apt Hapt. apply (Permutation_in _ (sort_perm _ _)) in Hapt.
    apply filter_In in Hapt. apply Hapt. }
  split; [exact Hanchors|].
  intros Htimed. rewrite Hanchors.
  apply (sort_by_start (filter isInflexible appointments)).
  intros apt Hapt. apply filter_In in Hapt. apply Htimed; apply Hapt.
Qed.
End RouteAccounts.

(* ================================================================== *)
(** ** The validator on the routes of the optimizer *)
(* ================================================================== *)

Lemma getArrivalStatus_on_time_iff (arrivalTime preferredTime : string) (grace a p : Z) :
  timeToMinutes arrivalTime = Some a -> timeToMinutes preferredTime = Some p ->
  (getArrivalStatus arrivalTime preferredTime grace = on_time <-> Z.abs (a - p) <= grace).
Proof.
  intros Ha Hp. unfold getArrivalStatus, timeDifference. rewrite Ha, Hp. simpl.
  destruct (Z.leb_spec (Z.abs (a - p)) grace).
  - split; auto.
  - destruct (a <? p); split; intros; try discriminate; lia.
Qed.

Lemma validateStops_timeline (gracePeriod : Z) (stops : list VisitStop) :
  forall i clock errors,
    timeline gracePeriod stops i clock ->
    List.length (validateStops stops i (Some clock) gracePeriod errors)
    = (List.length errors + List.length (offSchedule stops))%nat.
Proof.
  induction stops as [|stop rest IH]; intros i clock errors Hline.
  - simpl. lia.
  - destruct Hline as [[Harrival Hstatus] Hrest].
    cbn [validateStops]. 
    set (reached := if i >? 0 then clock + travelTimeFromPrevious stop else clock) in *.
    assert (Eclock : (if i >? 0 then nadd (Some clock) (Some (travelTimeFromPrevious stop))
                      else Some clock) = Some reached).
    { unfold reached. destruct (i >? 0); reflexivity. }
    rewrite Eclock, Harrival.
    assert (Esame : ngtb (nabs (nsub (Some reached) (Some reached))) (Some 1) = false).
    { simpl. unfold ngtb, nltb. rewrite Z.sub_diag. reflexivity. }
    rewrite Esame. simpl nadd.
    unfold offSchedule. cbn [filter]. fold (offSchedule rest).
    destruct (isInflexible (appointment stop)) eqn:Efix.
    + destruct (truthyStr (startTime (asAppointment (appointment stop)))) as [start|] eqn:Es.
      * destruct Hstatus as (target & Htarget & Hon). rewrite Htarget. simpl nabs.
        unfold ngtb, nltb.
        destruct (Z.ltb_spec gracePeriod (Z.abs (reached - target))) as [Hout | Hin].
        -- rewrite (IH _ _ _ Hrest), length_app. simpl.
           destruct (status stop) eqn:Estatus; simpl; try lia.
           exfalso. assert (Z.abs (reached - target) <= gracePeriod) by (apply Hon; reflexivity).
           lia.
        -- rewrite (IH _ _ _ Hrest).
           rewrite (proj2 Hon Hin). simpl. lia.
      * rewrite (IH _ _ _ Hrest), Hstatus. simpl. lia.
    + rewrite (IH _ _ _ Hrest).
      assert (Hon : status stop = on_time)
        by (destruct (truthyStr (startTime (asAppointment (appointment stop)))); exact Hstatus).
      rewrite Hon. simpl. lia.
Qed.

Section RouteTimeline.
Context {geo : Geodesy} {service : DistanceService}.

Lemma routeFrom_timeline (remaining : list GeocodedAppointment) :
  forall prevApt i t acc result w w' k,
    routeFrom prevApt remaining i (Some t) acc w = (inr result, w') ->
    travelTimesValid -> 0 <= t -> 0 < k ->
    0 <= visitDurationMinutes (asAppointment prevApt) ->
    durationsValid remaining -> startTimesValid remaining -> flexibleUntimed remaining ->
    exists newStops,
      rd_stops result = rd_stops acc ++ newStops
      /\ timeline GRACE_PERIOD_MINUTES newStops k
           (t + visitDurationMinutes (asAppointment prevApt)).
Proof.
  induction remaining as [|currentApt rest IH];
    intros prevApt i t acc result w w' k Hrun Htravel Ht Hk Hprev Hdur Hstart Hflex.
  - simpl in Hrun. unfold ret in Hrun. injection Hrun as <- _.
    exists []. split; [symmetry; apply app_nil_r | exact I].
  - cbn [routeFrom] in Hrun. unfold bind at 1 in Hrun.
    destruct (getDistanceMatrix (pointOf prevApt) [pointOf currentApt] w)
      as [[e | distanceResult] w1] eqn:Hask; [discriminate|].
    assert (Htravel' := Htravel). destruct Htravel' as [Hservice Hgeo].
    assert (Hanswer := Hservice _ _ _ _ _ Hask).
    set (leg := match distanceResult with
                | first :: _ => (duration first, Types.distance first)
                | [] => (Math_round (geodesicBetween prevApt currentApt * (12 # 10)),
                         (geodesicBetween prevApt currentApt * 1000)%Q)
                end) in *.
    assert (Hleg : 0 <= fst leg).
    { unfold leg. destruct distanceResult as [|first others]; simpl.
      - apply Math_round_nonneg. unfold geodesicBetween.
        specialize (Hgeo (latitude prevApt) (longitude prevApt)
                         (latitude currentApt) (longitude currentApt)). lra.
      - inversion Hanswer; assumption. }
    destruct leg as [travelTime distance] eqn:Eleg. simpl in Hleg.
    simpl nadd in Hrun.
    set (t' := t + (visitDurationMinutes (asAppointment prevApt) + travelTime)) in *.
    match type of Hrun with
    | routeFrom _ _ _ _ {| rd_stops := _ ++ [?s] |} _ = _ => set (stop := s) in *
    end.
    assert (Ht' : 0 <= t') by (unfold t'; lia).
    eapply (IH _ _ _ _ _ _ _ (k + 1)) in Hrun; try assumption; try lia.
    + destruct Hrun as (newStops & Hstops & Hline).
      exists (stop :: newStops). split.
      * rewrite Hstops. cbn [rd_stops]. rewrite <- app_assoc. reflexivity.
      * cbn [timeline].
        destruct (Z.gtb_spec k 0) as [_ | ?]; [|lia].
        assert (Ereached : t + visitDurationMinutes (asAppointment prevApt)
                           + travelTimeFromPrevious stop = t')
          by (unfold stop, t'; simpl; lia).
        rewrite Ereached. split; [|exact Hline].
        split.
        -- unfold stop. simpl arrivalTime. apply timeToMinutes_minutesToTime. exact Ht'.
        -- unfold stop. cbn [appointment status].
           destruct (isInflexible currentApt) eqn:Efix.
           ++ destruct (truthyStr (startTime (asAppointment currentApt))) as [start|] eqn:Es.
              ** destruct (Hstart currentApt start (or_introl eq_refl)
                             (truthyStr_Some _ _ Es)) as (target & Htarget & _).
                 exists target. split; [exact Htarget|].
                 unfold orElse. rewrite Es.
                 apply getArrivalStatus_on_time_iff; [|exact Htarget].
                 apply timeToMinutes_minutesToTime. exact Ht'.
              ** unfold orElse. rewrite Es.
                 eapply getArrivalStatus_same.
                 --- apply timeToMinutes_minutesToTime. exact Ht'.
                 --- unfold GRACE_PERIOD_MINUTES. lia.
           ++ rewrite (Hflex currentApt (or_introl eq_refl) Efix). simpl.
              unfold orElse. simpl.
              eapply getArrivalStatus_same.
              ** apply timeToMinutes_minutesToTime. exact Ht'.
              ** unfold GRACE_PERIOD_MINUTES. lia.
    + apply Hdur. left. reflexivity.
    + intros apt Hin. apply Hdur. right. exact Hin.
    + intros apt start Hin. apply Hstart. right. exact Hin.
    + intros apt Hin. apply Hflex. right. exact Hin.
Qed.

Lemma calculateRoute_timeline (orderedAppointments : list GeocodedAppointment) :
  forall result w w',
    calculateRoute orderedAppointments w = (inr result, w') ->
    travelTimesValid -> durationsValid orderedAppointments ->
    startTimesValid orderedAppointments -> flexibleUntimed orderedAppointments ->
    List.length (validateRoute (rd_stops result) GRACE_PERIOD_MINUTES)
    = List.length (offSchedule (rd_stops result)).
Proof.
  intros result w w' Hrun Htravel Hdur Hstart Hflex.
  destruct orderedAppointments as [|firstApt rest].
  - simpl in Hrun. unfold ret in Hrun. injection Hrun as <- _. reflexivity.
  - cbn [calculateRoute] in Hrun.
    destruct (dayStart_valid firstApt) as (t & Ht & Ecur).
    { intros start Hs. eapply Hstart; [left; reflexivity | exact Hs]. }
    rewrite Ecur in Hrun.
    match type of Hrun with
    | routeFrom _ _ _ _ {| rd_stops := [?s] |} _ = _ => set (firstStop := s) in *
    end.
    eapply (routeFrom_timeline _ _ _ _ _ _ _ _ 1) in Hrun; try assumption; try lia.
    2:{ apply Hdur. left. reflexivity. }
    2:{ intros apt Hin. apply Hdur. right. exact Hin. }
    2:{ intros apt start Hin. apply Hstart. right. exact Hin. }
    2:{ intros apt Hin. apply Hflex. right. exact Hin. }
    destruct Hrun as (newStops & Hstops & Hline).
    cbn [rd_stops] in Hstops. simpl in Hstops. rewrite Hstops.
    unfold validateRoute.
    assert (Estart : match truthyStr (startTime (asAppointment (appointment firstStop))) with
                     | Some start => timeToMinutes start
                     | None => Some (9 * 60)
                     end = Some t).
    { unfold firstStop. cbn [appointment]. rewrite <- Ecur.
      destruct (truthyStr (startTime (asAppointment firstApt))) as [start|] eqn:Es;
        [|reflexivity].
      destruct (isInflexible firstApt) eqn:Efix; [reflexivity|].
      rewrite (Hflex firstApt (or_introl eq_refl) Efix) in Es. discriminate. }
    rewrite Estart.
    rewrite (validateStops_timeline GRACE_PERIOD_MINUTES (firstStop :: newStops) 0 t []).
    + reflexivity.
    + cbn [timeline]. simpl (0 >? 0). cbv iota. split; [|exact Hline].
      split.
      * unfold firstStop. simpl arrivalTime. apply timeToMinutes_minutesToTime. exact Ht.
      * unfold firstStop. cbn [appointment status].
        destruct (isInflexible firstApt) eqn:Efix.
        -- destruct (truthyStr (startTime (asAppointment firstApt))) as [start|] eqn:Es.
           ++ exists t. split; [exact Ecur|].
              unfold orElse. rewrite Es.
              apply getArrivalStatus_on_time_iff; [|exact Ecur].
              apply timeToMinutes_minutesToTime. exact Ht.
           ++ injection Ecur as <-. unfold orElse. rewrite Es. reflexivity.
        -- rewrite (Hflex firstApt (or_introl eq_refl) Efix) in *.
           simpl in Ecur. injection Ecur as <-. reflexivity.
Qed.

(** X26.  [validateRoute] and [calculateRoute] agree.  For appointments with
    valid start times and durations, of which the flexible ones carry no
    start time, and a service whose travel times are not negative: the
    route that [calculateRoute] builds draws one error from
    [validateRoute] for each stop that is not [on_time] and none else, so
    it is accepted exactly when every stop is [on_time]. *)
Theorem validateRoute_accepts_iff_every_stop_on_time
    (orderedAppointments : list GeocodedAppointment) (w : World)
    (result : RouteDetails) (w' : World) :
  calculateRoute orderedAppointments w = (inr result, w') ->
  travelTimesValid -> durationsValid orderedAppointments ->
  startTimesValid orderedAppointments -> flexibleUntimed orderedAppointments ->
  List.length (validateRoute (rd_stops result) GRACE_PERIOD_MINUTES)
  = List.length (offSchedule (rd_stops result))
  /\ (validateRoute (rd_stops result) GRACE_PERIOD_MINUTES = []
      <-> Forall (fun stop => status stop = on_time) (rd_stops result)).
Proof.
  intros Hrun Htravel Hdur Hstart Hflex.
  pose proof (calculateRoute_timeline _ _ _ _ Hrun Htravel Hdur Hstart Hflex) as Hlen.
  split; [exact Hlen|].
  rewrite <- length_zero_iff_nil, Hlen, length_zero_iff_nil.
  unfold offSchedule. clear Hlen.
  induction (rd_stops result) as [|stop stops IH]; simpl.
  - split; [constructor | reflexivity].
  - destruct (status stop) eqn:E; simpl.
    + rewrite IH. split; [intros Hall; constructor; assumption|].
      intros Hall. inversion Hall; assumption.
    + split; [discriminate|]. intros Hall. inversion Hall; congruence.
    + split; [discriminate|]. intros Hall. inversion Hall; congruence.
Qed.
End RouteTimeline.

(* ================================================================== *)
(** ** Insertion at the cheapest position *)
(* ================================================================== *)

Section InsertionFacts.
Context {geo : Geodesy} {service : DistanceService}.

Lemma routeCostFrom_stateless (appointments : list GeocodedAppointment) :
  serviceStateless ->
  forall totalCost w w',
    fst (routeCostFrom appointments totalCost w)
    = fst (routeCostFrom appointments totalCost w').
Proof.
  intros Hstateless.
  induction appointments as [|from rest IH]; intros totalCost w w'; [reflexivity|].
  destruct rest as [|to rest']; [reflexivity|].
  cbn [routeCostFrom]. unfold bind at 1 3. unfold catch, bind, ret.
  specialize (Hstateless (pointOf from) [pointOf to] w w').
  destruct (getDistanceMatrix (pointOf from) [pointOf to] w) as [[e | d] w1];
    destruct (getDistanceMatrix (pointOf from) [pointOf to] w') as [[e' | d'] w1'];
    simpl in Hstateless; try discriminate.
  - apply IH.
  - injection Hstateless as <-. destruct d; apply IH.
Qed.

Lemma calculateRouteCost_stateless (appointments : list GeocodedAppointment) :
  serviceStateless ->
  forall w, exists cost,
    fst (calculateRouteCost appointments w) = inr cost /\ costs appointments cost.
Proof.
  intros Hstateless w.
  destruct (calculateRouteCost_returns appointments w) as (cost & w1 & Hrun).
  exists cost. split; [rewrite Hrun; reflexivity|].
  intros w0. unfold calculateRouteCost in *.
  destruct (List.length appointments <=? 1)%nat.
  - unfold ret in *. injection Hrun as <- _. reflexivity.
  - rewrite (routeCostFrom_stateless appointments Hstateless 0 w0 w), Hrun. reflexivity.
Qed.

Lemma costs_unique (appointments : list GeocodedAppointment) (c1 c2 : Q) (w : World) :
  costs appointments c1 -> costs appointments c2 -> c1 = c2.
Proof. intros H1 H2. specialize (H1 w). rewrite (H2 w) in H1. congruence. Qed.

Lemma tryPositions_cheapest flexibleApt orderedAppointments :
  serviceStateless ->
  forall positions bestPosition bestCost w chosen chosenCost w',
    tryPositions flexibleApt orderedAppointments positions bestPosition bestCost w
    = (inr (chosen, chosenCost), w') ->
    match bestCost with
    | Some best => costs (spliceIn bestPosition flexibleApt orderedAppointments) best
    | None => positions <> []
    end ->
    exists cost,
      chosenCost = Some cost
      /\ costs (spliceIn chosen flexibleApt orderedAppointments) cost
      /\ (chosen = bestPosition /\ bestCost <> None \/ In chosen positions)
      /\ (forall best, bestCost = Some best -> (cost <= best)%Q)
      /\ (forall position other, In position positions ->
            costs (spliceIn position flexibleApt orderedAppointments) other ->
            (cost <= other)%Q).
Proof.
  intros Hstateless.
  induction positions as [|position rest IH];
    intros bestPosition bestCost w chosen chosenCost w' Hrun Hbest.
  - simpl in Hrun. unfold ret in Hrun. injection Hrun as <- <- _.
    destruct bestCost as [best|]; [|contradiction].
    exists best. split; [reflexivity|]. split; [exact Hbest|].
    split; [left; split; [reflexivity | discriminate]|].
    split; [intros b [= <-]; apply Qle_refl | intros p other []].
  - cbn [tryPositions] in Hrun. unfold bind at 1 in Hrun.
    destruct (calculateRouteCost_stateless
                (spliceIn position flexibleApt orderedAppointments) Hstateless w)
      as (cost & Hcost & Hcosts).
    destruct (calculateRouteCost (spliceIn position flexibleApt orderedAppointments) w)
      as [[e | cost'] w1]; simpl in Hcost; [discriminate|].
    injection Hcost as ->.
    assert (Hhere : forall other,
              costs (spliceIn position flexibleApt orderedAppointments) other ->
              other = cost)
      by (intros other Hother; exact (costs_unique _ _ _ w Hother Hcosts)).
    destruct bestCost as [best|].
    + destruct (Qltb cost best) eqn:Hlt.
      * apply IH in Hrun; [|exact Hcosts].
        destruct Hrun as (c & -> & Hc & Hwhere & Hle & Hall).
        exists c. split; [reflexivity|]. split; [exact Hc|].
        apply Qltb_true in Hlt. specialize (Hle cost eq_refl).
        split; [right; destruct Hwhere as [[-> _] | Hin]; [left | right]; auto|].
        split; [intros b [= <-]; lra|].
        intros p other [<- | Hin] Hother; [rewrite (Hhere other Hother); exact Hle|].
        eapply Hall; eassumption.
      * apply IH in Hrun; [|exact Hbest].
        destruct Hrun as (c & -> & Hc & Hwhere & Hle & Hall).
        exists c. split; [reflexivity|]. split; [exact Hc|].
        apply Qltb_false in Hlt. specialize (Hle best eq_refl).
        split; [destruct Hwhere as [Hkept | Hin]; [left; exact Hkept | right; right; exact Hin]|].
        split; [intros b [= <-]; exact Hle|].
        intros p other [<- | Hin] Hother; [rewrite (Hhere other Hother); lra|].
        eapply Hall; eassumption.
    + apply IH in Hrun; [|exact Hcosts].
      destruct Hrun as (c & -> & Hc & Hwhere & Hle & Hall).
      exists c. split; [reflexivity|]. split; [exact Hc|].
      specialize (Hle cost eq_refl).
      split; [right; destruct Hwhere as [[-> _] | Hin]; [left | right]; auto|].
      split; [discriminate|].
      intros p other [<- | Hin] Hother; [rewrite (Hhere other Hother); exact Hle|].
      eapply Hall; eassumption.
Qed.

(** X27.  When the distance service answers a request the same way whenever
    it is asked, [insertFlexibleAppointment] puts the appointment at a
    position of least route cost: no other position gives a route that
    costs less. *)
Theorem insertFlexibleAppointment_cheapest_position
    (flexibleApt : GeocodedAppointment) (orderedAppointments : list GeocodedAppointment)
    (w : World) (updated : list GeocodedAppointment) (w' : World) :
  serviceStateless ->
  orderedAppointments <> [] ->
  insertFlexibleAppointment flexibleApt orderedAppointments w = (inr updated, w') ->
  exists position cost,
    (position <= List.length orderedAppointments)%nat
    /\ updated = spliceIn position flexibleApt orderedAppointments
    /\ costs updated cost
    /\ forall other otherCost,
         (other <= List.length orderedAppointments)%nat ->
         costs (spliceIn other flexibleApt orderedAppointments) otherCost ->
         (cost <= otherCost)%Q.
Proof.
  intros Hstateless Hne Hrun. unfold insertFlexibleAppointment in Hrun.
  destruct orderedAppointments as [|a rest] eqn:E; [contradiction|].
  rewrite <- E in *. assert (Hlen : (List.length orderedAppointments =? 0)%nat = false)
    by (rewrite E; reflexivity).
  rewrite Hlen in Hrun. unfold bind in Hrun.
  destruct (tryPositions flexibleApt orderedAppointments
              (seq 0 (S (List.length orderedAppointments))) 0%nat None w)
    as [[e | [chosen chosenCost]] w1] eqn:Htry; [discriminate|].
  unfold ret in Hrun. injection Hrun as <- <-.
  apply (tryPositions_cheapest flexibleApt orderedAppointments Hstateless) in Htry;
    [|discriminate].
  destruct Htry as (cost & _ & Hcost & Hwhere & _ & Hall).
  exists chosen, cost.
  assert (Hchosen : In chosen (seq 0 (S (List.length orderedAppointments)))).
  { destruct Hwhere as [[_ Hnone] | Hin]; [contradiction | exact Hin]. }
  apply in_seq in Hchosen.
  split; [lia|]. split; [reflexivity|]. split; [exact Hcost|].
  intros other otherCost Hother Hcosts. apply (Hall other otherCost); [|exact Hcosts].
  apply in_seq. lia.
Qed.

Lemma routeCostFrom_fallback (appointments : list GeocodedAppointment) :
  serviceDown ->
  forall totalCost w, exists cost w',
    routeCostFrom appointments totalCost w = (inr cost, w')
    /\ (cost == totalCost + geodesicLength appointments)%Q.
Proof.
  intros Hdown.
  induction appointments as [|from rest IH]; intros totalCost w.
  - eexists _, _. split; [reflexivity|]. simpl. ring.
  - destruct rest as [|to rest'].
    + eexists _, _. split; [reflexivity|]. simpl. ring.
    + cbn [routeCostFrom]. unfold bind at 1. unfold catch, bind, ret.
      destruct (Hdown (pointOf from) [pointOf to] w) as (message & w1 & ->).
      destruct (IH (totalCost + geodesicBetween from to * 1000)%Q w1)
        as (cost & w' & Hrun & Hcost).
      exists cost, w'. split; [exact Hrun|]. rewrite Hcost.
      cbn [geodesicLength]. ring.
Qed.

(** X28.  [calculateRouteCost] never throws, whatever the distance service
    does.  A route of at most one appointment costs 0 and the service is
    not asked; when the service fails at every request the cost is the
    geodesic length of the route in metres. *)
Theorem calculateRouteCost_never_fails
    (appointments : list GeocodedAppointment) (w : World) :
  (exists cost w', calculateRouteCost appointments w = (inr cost, w'))
  /\ ((List.length appointments <= 1)%nat ->
      calculateRouteCost appointments w = (inr 0%Q, w))
  /\ (serviceDown ->
      exists cost w',
        calculateRouteCost appointments w = (inr cost, w')
        /\ (cost == geodesicLength appointments)%Q).
Proof.
  split; [apply calculateRouteCost_returns|]. split.
  - intros Hshort. unfold calculateRouteCost.
    destruct (Nat.leb_spec (List.length appointments) 1); [reflexivity | lia].
  - intros Hdown. unfold calculateRouteCost.
    destruct (List.length appointments <=? 1)%nat eqn:Hshort.
    + eexists _, _. split; [reflexivity|].
      destruct appointments as [|a [|b rest]]; simpl in *; try discriminate; reflexivity.
    + destruct (routeCostFrom_fallback appointments Hdown 0 w) as (cost & w' & Hrun & Hcost).
      exists cost, w'. split; [exact Hrun|]. rewrite Hcost. ring.
Qed.
End InsertionFacts.

(* ================================================================== *)
(** ** The reordering for one conflict and the feasibility test *)
(* ================================================================== *)

Section ConflictSymmetry.
Context {T : Type} `{AppointmentLike T}.

Lemma detectConflict_some_sym (a b : T) :
  0 < visitDurationMinutes (asAppointment a) ->
  0 < visitDurationMinutes (asAppointment b) ->
  detectConflict a b <> None -> detectConflict b a <> None.
Proof.
  intros Ha Hb. rewrite !detectConflict_by_minutes.
  destruct (startMinutes a) as [ta|], (startMinutes b) as [tb|]; auto.
  destruct (Z.ltb_spec ta tb), (Z.ltb_spec tb ta); try lia.
  - destruct (Z.ltb_spec (tb - ta) (visitDurationMinutes (asAppointment a))); auto.
  - destruct (Z.ltb_spec (ta - tb) (visitDurationMinutes (asAppointment b))); auto.
  - assert (ta = tb) by lia. subst tb. rewrite Z.sub_diag.
    destruct (Z.ltb_spec 0 (visitDurationMinutes (asAppointment a))); [|lia].
    discriminate.
Qed.

Lemma detectConflict_appointments (a b : T) c :
  detectConflict a b = Some c ->
  appointments c = (a, b) \/ appointments c = (b, a).
Proof.
  rewrite detectConflict_by_minutes.
  destruct (startMinutes a) as [ta|]; [|discriminate].
  destruct (startMinutes b) as [tb|]; [|discriminate].
  destruct (ta <? tb).
  - destruct (_ <? _); [|discriminate]. intros [= <-]. left. reflexivity.
  - destruct (_ <? _); [|discriminate]. intros [= <-]. right. reflexivity.
Qed.

Lemma findAllConflicts_finds (appointments : list T) (a b : T) :
  In a appointments -> In b appointments -> a <> b ->
  date (asAppointment a) = date (asAppointment b) ->
  0 < visitDurationMinutes (asAppointment a) ->
  0 < visitDurationMinutes (asAppointment b) ->
  detectConflict a b <> None ->
  exists c, In c (findAllConflicts appointments)
            /\ (Types.appointments c = (a, b) \/ Types.appointments c = (b, a)).
Proof.
  intros Ha Hb Hne Hdate Hda Hdb Hconflict.
  apply In_nth_error in Ha. destruct Ha as (i & Hi).
  apply In_nth_error in Hb. destruct Hb as (j & Hj).
  assert (Hij : i <> j) by (intros ->; congruence).
  assert (Hpair : exists x y, In (x, y) (getAppointmentPairs appointments)
                              /\ (x = a /\ y = b \/ x = b /\ y = a)).
  { destruct (Nat.lt_ge_cases i j).
    - exists a, b. split; [|left; auto].
      apply getAppointmentPairs_positions. exists i, j. auto.
    - exists b, a. split; [|right; auto].
      apply getAppointmentPairs_positions. exists j, i. repeat split; auto. lia. }
  destruct Hpair as (x & y & Hin & Hxy).
  assert (Hxy' : detectConflict x y <> None
                 /\ date (asAppointment x) = date (asAppointment y)).
  { destruct Hxy as [[-> ->] | [-> ->]]; split; auto.
    apply detectConflict_some_sym; assumption. }
  destruct Hxy' as [Hsome Hsame].
  destruct (detectConflict x y) as [c|] eqn:Hc; [|contradiction].
  exists c. split.
  - unfold findAllConflicts. apply in_flat_map. exists (x, y). split; [exact Hin|].
    rewrite Hsame, String.eqb_refl, Hc. left. reflexivity.
  - apply detectConflict_appointments in Hc.
    destruct Hxy as [[-> ->] | [-> ->]]; destruct Hc; auto.
Qed.
End ConflictSymmetry.

Lemma ids_filter_NoDup (p : GeocodedAppointment -> bool) (l : list GeocodedAppointment) :
  NoDup (ids l) -> NoDup (ids (filter p l)).
Proof.
  unfold ids. induction l as [|x l IH]; simpl; intros Hnodup; [constructor|].
  inversion Hnodup as [|? ? Hx Hrest]; subst.
  destruct (p x); simpl; [|apply IH; exact Hrest].
  constructor; [|apply IH; exact Hrest].
  intros Hin. apply Hx. apply in_map_iff in Hin. destruct Hin as (y & Hy & Hin).
  apply in_map_iff. exists y. split; [exact Hy|]. apply filter_In in Hin. apply Hin.
Qed.

(** X29.  [findBestReorderingForConflict] cannot resolve a conflict that
    [detectConflict] reports.  For two different appointments of the same
    date, out of a list with distinct identifiers, whose visits take some
    time and which are in conflict, it answers [null]: moving one after
    the other changes no start time, and the conflict is found again. *)
Theorem findBestReorderingForConflict_never_resolves
    (apt1 apt2 : GeocodedAppointment) (allAppointments : list GeocodedAppointment) :
  NoDup (ids allAppointments) ->
  In apt1 allAppointments -> In apt2 allAppointments -> apt1 <> apt2 ->
  date (asAppointment apt1) = date (asAppointment apt2) ->
  0 < visitDurationMinutes (asAppointment apt1) ->
  0 < visitDurationMinutes (asAppointment apt2) ->
  detectConflict apt1 apt2 <> None ->
  findBestReorderingForConflict [apt1; apt2] allAppointments = Returns None.
Proof.
  intros Hnodup H1 H2 Hne Hdate Hd1 Hd2 Hconflict.
  unfold findBestReorderingForConflict. cbn [nth_error].
  set (sameDateApps := filter _ allAppointments).
  assert (Hs1 : In apt1 sameDateApps)
    by (apply filter_In; split; [exact H1 | apply String.eqb_refl]).
  assert (Hs2 : In apt2 sameDateApps)
    by (apply filter_In; split; [exact H2 | apply String.eqb_eq; symmetry; exact Hdate]).
  assert (Hids : NoDup (ids sameDateApps)) by (apply ids_filter_NoDup; exact Hnodup).
  assert (Hlen : (List.length sameDateApps <? 2)%nat = false).
  { apply Nat.ltb_ge.
    destruct sameDateApps as [|x [|y l]]; simpl; try lia.
    - destruct Hs1.
    - destruct Hs1 as [<- | []]. destruct Hs2 as [<- | []]. contradiction. }
  rewrite Hlen.
  apply In_nth_error in Hs2. destruct Hs2 as (i2 & Hi2).
  rewrite (findIndex_by_id sameDateApps i2 apt2 Hids Hi2).
  assert (Hout : spliceOut (Z.of_nat i2) sameDateApps = removeAt i2 sameDateApps).
  { unfold spliceOut. destruct (Z.ltb_spec (Z.of_nat i2) 0); [lia|].
    rewrite Nat2Z.id. reflexivity. }
  rewrite Hout.
  set (reordered := spliceIn _ apt2 (removeAt i2 sameDateApps)).
  assert (Hperm : Permutation reordered sameDateApps).
  { unfold reordered. rewrite spliceIn_perm. apply removeAt_perm. exact Hi2. }
  destruct (findAllConflicts_finds reordered apt1 apt2) as (c & Hc & Happ); auto.
  - eapply Permutation_in; [symmetry; exact Hperm | exact Hs1].
  - eapply Permutation_in; [symmetry; exact Hperm | eapply nth_error_In; exact Hi2].
  - match goal with
    | |- context [existsb ?p (findAllConflicts reordered)] =>
        assert (Hhas : existsb p (findAllConflicts reordered) = true)
    end.
    { apply existsb_exists. exists c. split; [exact Hc|].
      destruct Happ as [-> | ->]; simpl; rewrite !String.eqb_refl; simpl;
        [reflexivity | apply orb_true_r]. }
    rewrite Hhas. reflexivity.
Qed.


Lemma consecutive_ordered {A} (R : A -> A -> Prop) (l : list A) :
  ForallOrdPairs R l -> forall x y, In (x, y) (consecutive l) -> R x y.
Proof.
  induction 1 as [|a l Ha _ IH]; intros x y Hin; [destruct Hin|].
  destruct l as [|b l']; [destruct Hin|].
  destruct Hin as [[= <- <-] | Hin].
  - rewrite Forall_forall in Ha. apply Ha. left. reflexivity.
  - apply IH. exact Hin.
Qed.

(** X30.  A schedule in which [findAllConflicts] finds no conflict, and whose
    visits all take some time, is feasible for [isScheduleFeasible] under
    every buffer configuration. *)
Theorem isScheduleFeasible_without_conflicts {geo : Geodesy}
    (appointments : list GeocodedAppointment) (config : BufferConfiguration) :
  visitsTakeTime appointments ->
  findAllConflicts appointments = [] ->
  isScheduleFeasible appointments config = true.
Proof.
  intros Hpos Hnone.
  apply findAllConflicts_none in Hnone.
  rewrite ForallOrdPairs_by_date in Hnone.
  unfold isScheduleFeasible. rewrite groupAppointmentsByDate_groups.
  apply forallb_forall. intros entry Hentry.
  apply in_map_iff in Hentry. destruct Hentry as (d & <- & _). cbn [snd].
  apply forallb_forall. intros [current next] Hpair.
  assert (Hclear : ForallOrdPairs
                     (fun x y => In x appointments /\ In y appointments
                                 -> detectConflict x y = None /\ detectConflict y x = None)
                     (sortByStartTime (onDate d appointments))).
  { eapply ForallOrdPairs_perm.
    - intros x y Hxy [Hy Hx]. destruct (Hxy (conj Hx Hy)). auto.
    - symmetry. apply sort_perm.
    - specialize (Hnone d).
      clear Hpair. induction Hnone as [|x l Hx _ IH]; constructor; [|exact IH].
      eapply Forall_impl; [|exact Hx]. simpl. intros y Hxy [Hinx Hiny].
      split; [exact Hxy|].
      destruct (detectConflict y x) as [c|] eqn:E; [exfalso | reflexivity].
      apply (detectConflict_some_sym y x (Hpos y Hiny) (Hpos x Hinx)); [|exact Hxy].
      rewrite E. discriminate. }
  assert (Hmember : forall apt, In apt (sortByStartTime (onDate d appointments)) ->
                                In apt appointments).
  { intros apt Hin. apply (Permutation_in _ (sort_perm _ _)) in Hin.
    unfold onDate in Hin. apply filter_In in Hin. apply Hin. }
  assert (Hends : In current (sortByStartTime (onDate d appointments))
                  /\ In next (sortByStartTime (onDate d appointments))).
  { clear Hclear Hmember. revert Hpair.
    induction (sortByStartTime (onDate d appointments)) as [|x [|y l] IH]; simpl;
      intros Hin; try destruct Hin as [[= <- <-] | Hin]; try contradiction.
    - split; [left | right; left]; reflexivity.
    - destruct (IH Hin). split; right; assumption. }
  destruct (consecutive_ordered _ _ Hclear current next Hpair) as [Hcn _].
  - split; apply Hmember; apply Hends.
  - rewrite Hcn. reflexivity.
Qed.

(* ================================================================== *)
(** ** The properties at the sample data *)
(* ================================================================== *)

Lemma detectConflict_none_iff_witness :
  detectConflict delivery pickup = None <-> 30 <= 560 - 540.
Proof.
  apply (proj2 (@detectConflict_none_iff GeocodedAppointment Geocoded_like delivery pickup)
           "09:00" "09:20" 540 560
           eq_refl eq_refl eq_refl eq_refl ltac:(reflexivity) ltac:(reflexivity)
           delivery 540 560).
  apply first_is_earlier. lia.
Defined.

(** The sample service and the sample day meet the assumptions. *)
Lemma steadyService_answers : @serviceAnswers steadyService.
Proof. intros from tos w. eexists _, _. reflexivity. Qed.

Lemma steadyService_travelTimesValid : @travelTimesValid gridGeodesy steadyService.
Proof.
  split.
  - intros from tos w results w' Hask. simpl in Hask. injection Hask as <- _.
    apply Forall_forall. intros r Hr. apply in_map_iff in Hr.
    destruct Hr as (destination & <- & _). simpl. lia.
  - intros lat1 lng1 lat2 lng2. unfold haversineDistance, gridGeodesy.
    assert (H1 := Qabs_nonneg (lat2 - lat1)). assert (H2 := Qabs_nonneg (lng2 - lng1)).
    nra.
Qed.

Lemma morningRound_durationsValid : durationsValid morningRound.
Proof.
  intros apt [<- | [<- | [<- | []]]]; simpl; lia.
Qed.

Lemma morningRound_startTimesValid : startTimesValid morningRound.
Proof.
  intros apt start [<- | [<- | [<- | []]]] Hs; simpl in Hs; try discriminate;
    injection Hs as <-; eexists; (split; [vm_compute; reflexivity | lia]).
Qed.

Lemma morningRound_anchorStartsValid : anchorStartsValid morningRound.
Proof. apply startTimesValid_anchors. exact morningRound_startTimesValid. Qed.

Lemma optimizeDay_permutation_and_schedule_witness :
  exists day w',
    @optimizeDay gridGeodesy steadyService morningRound 0%nat = (inr day, w')
    /\ Permutation (map appointment (rd_stops (day_route day))) morningRound
    /\ scheduleRespected (rd_stops (day_route day)).
Proof.
  destruct (@optimizeDay_permutation_and_schedule gridGeodesy steadyService
              morningRound 0%nat)
    as [Hroute Hreturns].
  destruct (Hreturns steadyService_answers) as (day & w' & Hday).
  exists day, w'. split; [exact Hday|].
  destruct (Hroute day w' Hday) as (Hperm & _ & _ & Hsched).
  split; [exact Hperm|].
  exact (Hsched morningRound_durationsValid morningRound_anchorStartsValid
                steadyService_travelTimesValid).
Defined.

(** The street round on the road service: visits and travel take no
    negative time. *)
Lemma roadService_travelTimesValid : @travelTimesValid gridGeodesy roadService.
Proof.
  assert (Hgrid : forall lat1 lng1 lat2 lng2,
             (0 <= gridGeodesy lat1 lng1 lat2 lng2)%Q).
  { intros lat1 lng1 lat2 lng2. unfold gridGeodesy.
    assert (H1 := Qabs_nonneg (lat2 - lat1)). assert (H2 := Qabs_nonneg (lng2 - lng1)).
    nra. }
  split; [|exact Hgrid].
  intros from tos w results w' Hask. simpl in Hask. injection Hask as <- _.
  apply Forall_forall. intros r Hr. apply in_map_iff in Hr.
  destruct Hr as (destination & <- & _). simpl.
  apply Math_round_nonneg.
  specialize (Hgrid (lat from) (lng from) (lat destination) (lng destination)). nra.
Qed.

Lemma streetRound_durationsValid : durationsValid streetRound.
Proof.
  intros apt [<- | [<- | [<- | []]]]; simpl; lia.
Qed.

(** An inflexible appointment whose start time is the word [flexible] comes
    first in the route of its day; the clock of the day is then not a
    number, and no arrival reads as a time of day: no stop is reached
    after the stop before it. *)
Lemma optimizeDay_arrivals_are_not_times :
  durationsValid streetRound
  /\ @travelTimesValid gridGeodesy roadService
  /\ exists day w',
       @optimizeDay gridGeodesy roadService streetRound 0%nat = (inr day, w')
       /\ map (fun stop => (appName (asAppointment (appointment stop)), arrivalTime stop))
              (rd_stops (day_route day))
          = [("mislabelled", "NaN:NaN"); ("checkup", "NaN:NaN"); ("dropIn", "NaN:NaN")]
       /\ ~ (forall i s1 s2,
               nth_error (rd_stops (day_route day)) i = Some s1 ->
               nth_error (rd_stops (day_route day)) (S i) = Some s2 ->
               arrivesAfter s1 s2).
Proof.
  split; [exact streetRound_durationsValid|].
  split; [exact roadService_travelTimesValid|].
  destruct (@optimizeDay gridGeodesy roadService streetRound 0%nat) as [[e | day] w']
    eqn:Hday; [vm_compute in Hday; discriminate|].
  exists day, w'. split; [reflexivity|].
  vm_compute in Hday. injection Hday as <- _.
  split; [reflexivity|].
  intros Hresp.
  destruct (Hresp 0%nat _ _ eq_refl eq_refl) as (t1 & t2 & H1 & _).
  vm_compute in H1. discriminate.
Qed.

Lemma calculateSmartBuffer_within_bounds_witness :
  (15 <= inject_Z (@calculateSmartBuffer gridGeodesy delivery pickup DEFAULT_BUFFER_CONFIG)
     <= 120)%Q.
Proof.
  destruct (@calculateSmartBuffer_within_bounds gridGeodesy delivery pickup
              DEFAULT_BUFFER_CONFIG ltac:(vm_compute; discriminate))
    as (_ & _ & Hmin & Hmax).
  split.
  - apply Hmin. vm_compute. split; reflexivity.
  - apply Hmax. vm_compute. split; reflexivity.
Defined.

(** With a maximum of 100.5 minutes the buffer is clamped to 100.5 and then
    rounded to 101: above the maximum. *)
Lemma calculateSmartBuffer_above_fractional_maximum :
  (minimumBufferMinutes fractionalCap <= maximumBufferMinutes fractionalCap)%Q
  /\ @calculateSmartBuffer gridGeodesy delivery pickup fractionalCap = 101
  /\ ~ (inject_Z (@calculateSmartBuffer gridGeodesy delivery pickup fractionalCap)
        <= maximumBufferMinutes fractionalCap)%Q.
Proof.
  split; [vm_compute; discriminate|]. split; [vm_compute; reflexivity|].
  vm_compute. intros Hle. apply Hle. reflexivity.
Qed.

Lemma calculateSmartBuffer_distance_surcharge_witness :
  (50 < @haversineDistance gridGeodesy (latitude delivery) (longitude delivery)
                           (latitude survey) (longitude survey))%Q
  /\ @calculateSmartBuffer gridGeodesy delivery survey DEFAULT_BUFFER_CONFIG
     = Math_round (clampBuffer DEFAULT_BUFFER_CONFIG
                     (bufferBeforeSurcharge delivery survey DEFAULT_BUFFER_CONFIG + 15)%Q).
Proof.
  assert (Hfar : (50 < @haversineDistance gridGeodesy (latitude delivery)
                         (longitude delivery) (latitude survey) (longitude survey))%Q)
    by (vm_compute; reflexivity).
  split; [exact Hfar|].
  exact (proj1 (proj2 (@calculateSmartBuffer_distance_surcharge gridGeodesy
                         delivery survey DEFAULT_BUFFER_CONFIG eq_refl)) Hfar).
Defined.

Lemma generateReorderings_count_witness :
  List.length (generateReorderings [errand; clinic; survey]) = fact 2
  /\ In [survey; clinic; errand] (generateReorderings [errand; clinic; survey])
  /\ NoDup (generateReorderings [errand; clinic; survey]).
Proof.
  destruct (proj1 (@generateReorderings_count GeocodedAppointment Geocoded_like
                     [errand; clinic; survey]))
    as (Hcount & Hmembers & Hdistinct).
  - simpl. lia.
  - simpl. lia.
  - split; [exact Hcount|]. split.
    + apply Hmembers. split; [reflexivity|]. split.
      * intros [|[|[|i]]] orig Hnth Hinf; simpl in Hnth;
          try (destruct i; discriminate);
          injection Hnth as <-; (discriminate Hinf || reflexivity).
      * apply perm_swap.
    + apply Hdistinct. simpl.
      repeat constructor; simpl; intuition discriminate.
Defined.

Lemma calculateImpactScore_formula_witness :
  calculateImpactScore sampleSolution None None
  = ScoreFormula.impactScore sampleSolution DEFAULT_BUFFER_CONFIG.
Proof.
  apply (calculateImpactScore_formula sampleSolution None None).
  vm_compute. discriminate.
Defined.

Section ScoreOnDoublesSample.
Import Floats Doubles.
#[local] Open Scope float_scope.
#[local] Set Warnings "-inexact-float".

Lemma calculateImpactScore_formula_on_doubles_witness :
  Doubles.calculateImpactScore Doubles.halfHourMove None None
  = Doubles.Formula.impactScore Doubles.halfHourMove Doubles.DEFAULT_BUFFER_CONFIG.
Proof.
  apply (calculateImpactScore_formula_on_doubles halfHourMove None None).
  unfold changesChecked. simpl List.length. lia.
Defined.

(** One appointment moved by half an hour, feasible in 15 of 16 scenarios:
    the sum 0.4 x 6.3 + 0.3 x 6.25 is 4.395, which rounds to 4.40; the
    doubles add up to less than 4.395, and the score is 4.39. *)
Lemma calculateImpactScore_below_exact_formula :
  Doubles.calculateImpactScore Doubles.halfHourMove None None = 4.39
  /\ (Doubles.valueOf (Doubles.calculateImpactScore Doubles.halfHourMove None None)
      < 439 # 100)%Q
  /\ (ScoreFormula.impactScore (Doubles.exactSolution Doubles.halfHourMove)
                               Types.DEFAULT_BUFFER_CONFIG
      == 440 # 100)%Q
  /\ ~ (Doubles.valueOf (Doubles.calculateImpactScore Doubles.halfHourMove None None)
        == ScoreFormula.impactScore (Doubles.exactSolution Doubles.halfHourMove)
                                    Types.DEFAULT_BUFFER_CONFIG)%Q.
Proof.
  split; [vm_compute; reflexivity|].
  split; [vm_compute; reflexivity|].
  split; [vm_compute; reflexivity|].
  vm_compute. discriminate.
Qed.
End ScoreOnDoublesSample.

Lemma simulateReordering_capped_and_uniform_witness :
  Z.of_nat (List.length (simulateReordering [errand; clinic; survey] 1 DEFAULT_BUFFER_CONFIG))
  <= 1.
Proof.
  exact (proj1 (simulateReordering_capped_and_uniform [errand; clinic; survey] 1
                  DEFAULT_BUFFER_CONFIG ltac:(lia))).
Defined.

Lemma runConflictSimulations_without_conflicts_witness :
  @runConflictSimulations gridGeodesy tickingClock (fun _ _ _ => None) (fun _ => [])
    [errand; survey] (mkSimulationOptions None None None None None) (mkRuntime 0 [])
  = (inr [], mkRuntime 1 []).
Proof.
  destruct (@runConflictSimulations_without_conflicts gridGeodesy tickingClock
              (fun _ _ _ => None) (fun _ => []) [errand; survey]
              (mkSimulationOptions None None None None None) (mkRuntime 0 []))
    as [Hempty Huntimed].
  apply Hempty. apply Huntimed.
  intros apt [<- | [<- | []]]; reflexivity.
Defined.



(** A start time that holds the literal [flexible] is not a missing start
    time: the stop is compared with it, and is reported late, [NaN] minutes
    from preferred. *)
Remark flexible_literal_is_reported_late :
  let stray := sydney "stray" (Some "flexible") 30 flexible (-3386 # 100) (15120 # 100) in
  map (fun stop => (arrivalTime stop, status stop, minutesFromPreferred stop))
      (stops (fst (@optimizeRoute gridGeodesy steadyService [stray] 0%nat)))
  = [("09:00", late, NaN)].
Proof. vm_compute. reflexivity. Qed.

(** C5.  The buffer between a place on the equator and the clinic, which
    lies 33.87 degrees of latitude (some 3766 km) to the south, under the
    default configuration and whatever the great-circle distance: the
    latitude 0 fails the guard on the coordinates, so the buffer is the 45
    minutes it was before the surcharge, where a surcharge of 15 minutes
    would give 60. *)
Theorem calculateSmartBuffer_skips_surcharge_at_latitude_zero (geo : Geodesy) :
  latitude equator = 0%Q
  /\ coordinatesKnown equator clinic = false
  /\ @calculateSmartBuffer geo equator clinic DEFAULT_BUFFER_CONFIG = 45
  /\ Math_round (clampBuffer DEFAULT_BUFFER_CONFIG
                   (bufferBeforeSurcharge equator clinic DEFAULT_BUFFER_CONFIG))
     = 45
  /\ Math_round (clampBuffer DEFAULT_BUFFER_CONFIG
                   (bufferBeforeSurcharge equator clinic DEFAULT_BUFFER_CONFIG + 15)%Q)
     = 60.
Proof. vm_compute. repeat split; reflexivity. Qed.

(** On the grid that stands in for the great-circle distance the two
    places are more than 10 km apart. *)
Remark equator_far_from_clinic :
  (10 < @haversineDistance gridGeodesy (latitude equator) (longitude equator)
                           (latitude clinic) (longitude clinic))%Q.
Proof. vm_compute. reflexivity. Qed.

(** The scenario of two inflexible appointments at 09:00 (30 minutes) and
    09:20: a minor conflict with a gap of 20 minutes where 30 are required. *)
Example two_inflexible_twenty_minutes_apart :
  detectConflict delivery pickup
  = Some (mkSchedulingConflict (delivery, pickup) 20 30 minor).
Proof. vm_compute. reflexivity. Qed.

(** The scenario of two flexible appointments of 90 minutes, 5 km apart,
    under the default configuration: 45 x 0.8 x 1.2 = 43.2, rounded to 43. *)
Example two_long_flexible_five_kilometres_apart :
  @calculateSmartBuffer fiveKilometres survey audit DEFAULT_BUFFER_CONFIG = 43.
Proof. vm_compute. reflexivity. Qed.

(* ------------------------------------------------------------------ *)
(** The further properties at the sample data. *)

Lemma minutesToTime_round_trip_witness :
  timeToMinutes (minutesToTime (Some 1500)) = Some 1500.
Proof. exact (proj1 (minutesToTime_round_trip 1500 ltac:(lia))). Defined.

Lemma getArrivalStatus_cases_witness :
  getArrivalStatus "10:20" "14:00" GRACE_PERIOD_MINUTES = early
  <-> 620 < 840 - GRACE_PERIOD_MINUTES.
Proof.
  exact (proj1 (proj2 (proj1 (getArrivalStatus_cases "10:20" "14:00" GRACE_PERIOD_MINUTES
                                ltac:(unfold GRACE_PERIOD_MINUTES; lia))
                             620 840 eq_refl eq_refl))).
Defined.

Lemma detectConflict_result_witness :
  0 <= gapMinutes (mkSchedulingConflict (delivery, pickup) 20 30 minor)
    < requiredMinutes (mkSchedulingConflict (delivery, pickup) 20 30 minor).
Proof.
  destruct (@detectConflict_result GeocodedAppointment Geocoded_like delivery pickup
              (mkSchedulingConflict (delivery, pickup) 20 30 minor) eq_refl)
    as (first & second & firstTime & secondTime & _ & _ & _ & _ & _ & _ & _ & Hgap & _).
  exact Hgap.
Defined.

Lemma detectConflict_order_independent_witness :
  detectConflict delivery pickup = detectConflict pickup delivery.
Proof.
  apply (@detectConflict_order_independent GeocodedAppointment Geocoded_like).
  intros (t & Hdelivery & Hpickup).
  vm_compute in Hdelivery, Hpickup. congruence.
Defined.

Lemma calculateImpactScore_between_0_and_100_witness :
  (0 <= calculateImpactScore sampleSolution None None <= 100)%Q.
Proof.
  apply (calculateImpactScore_between_0_and_100 sampleSolution None None).
  split.
  - repeat constructor. simpl. lra.
  - simpl. lra.
Defined.

Lemma createReorderingSolution_reports_moves_witness :
  changes (createReorderingSolution [survey; clinic; errand] [errand; clinic; survey]
             [] 1 true) = []
  <-> [survey; clinic; errand] = [errand; clinic; survey].
Proof.
  apply createReorderingSolution_reports_moves.
  - unfold ids. simpl. repeat constructor; simpl; intuition discriminate.
  - exact (Permutation_sym (Permutation_rev [errand; clinic; survey])).
Defined.

Lemma runConflictSimulations_always_recommends_witness :
  exists resolutions w',
    @runConflictSimulations gridGeodesy tickingClock (fun _ _ _ => None) (fun _ => [])
      [delivery; pickup] (mkSimulationOptions None None None None None) (mkRuntime 0 [])
    = (inr resolutions, w')
    /\ conflictsWithoutSolutions (getSimulationSummary resolutions) = 0.
Proof.
  destruct (@runConflictSimulations_always_recommends gridGeodesy tickingClock
              (fun _ _ _ => None) (fun _ => []) [delivery; pickup]
              (mkSimulationOptions None None None None None) (mkRuntime 0 []) eq_refl)
    as (resolutions & w' & Hrun & _ & Hsummary & _).
  exists resolutions, w'. split; assumption.
Defined.

Lemma simulateRescheduling_proposals_witness :
  exists later nextDay,
    @simulateRescheduling gridGeodesy
      (mkSchedulingConflict (delivery, pickup) 20 30 minor) [delivery; pickup] None
    = [later; nextDay].
Proof.
  destruct (@simulateRescheduling_proposals gridGeodesy delivery pickup
              (mkSchedulingConflict (delivery, pickup) 20 30 minor)
              [delivery; pickup] None eq_refl)
    as (later & nextDay & laterChange & nextDayChange & Hrun & _).
  exists later, nextDay. exact Hrun.
Defined.

Lemma validateScheduleFeasibility_iff_no_conflicts_witness :
  validateScheduleFeasibility [delivery; pickup; errand] = []
  <-> findAllConflicts (filter isInflexible [delivery; pickup; errand]) = [].
Proof.
  apply (@validateScheduleFeasibility_iff_no_conflicts GeocodedAppointment Geocoded_like).
  - intros apt [<- | [<- | [<- | []]]] Hfixed.
    + exists 540. vm_compute. reflexivity.
    + exists 560. vm_compute. reflexivity.
    + vm_compute in Hfixed. discriminate.
  - intros apt [<- | [<- | [<- | []]]]; reflexivity.
Defined.

Lemma calculateTimePenalty_zero_iff_within_grace_witness :
  calculateTimePenalty "09:00" None GRACE_PERIOD_MINUTES = Some 0%Q.
Proof.
  exact (proj1 (calculateTimePenalty_zero_iff_within_grace "09:00" None GRACE_PERIOD_MINUTES
                  ltac:(unfold GRACE_PERIOD_MINUTES; lia)) eq_refl).
Defined.

Lemma optimizeRoute_refuses_without_flexible_witness :
  @optimizeRoute gridGeodesy steadyService [delivery; clinic] 0%nat
  = (failedRoute [delivery; clinic]
       "All appointments are inflexible. No optimization possible.", 0%nat).
Proof.
  apply (@optimizeRoute_refuses_without_flexible gridGeodesy steadyService
           [delivery; clinic] 0%nat).
  intros apt [<- | [<- | []]]; reflexivity.
Defined.

Lemma optimizeDay_keeps_anchors_in_start_order_witness :
  exists day w',
    @optimizeDay gridGeodesy steadyService morningRound 0%nat = (inr day, w')
    /\ filter isInflexible (map appointment (rd_stops (day_route day)))
       = sort byStartTime (filter isInflexible morningRound).
Proof.
  destruct (@optimizeDay gridGeodesy steadyService morningRound 0%nat)
    as [[e | day] w'] eqn:Hday.
  - vm_compute in Hday. discriminate.
  - exists day, w'. split; [reflexivity|].
    exact (proj1 (@optimizeDay_keeps_anchors_in_start_order gridGeodesy steadyService
                    morningRound 0%nat day w' Hday)).
Defined.

Lemma morningRound_flexibleUntimed : flexibleUntimed morningRound.
Proof.
  intros apt [<- | [<- | [<- | []]]] Hflexible; try reflexivity;
    vm_compute in Hflexible; discriminate.
Qed.

Lemma validateRoute_accepts_iff_every_stop_on_time_witness :
  exists result w',
    @calculateRoute gridGeodesy steadyService morningRound 0%nat = (inr result, w')
    /\ List.length (validateRoute (rd_stops result) GRACE_PERIOD_MINUTES)
       = List.length (offSchedule (rd_stops result)).
Proof.
  destruct (@calculateRoute gridGeodesy steadyService morningRound 0%nat)
    as [[e | result] w'] eqn:Hroute.
  - vm_compute in Hroute. discriminate.
  - exists result, w'. split; [reflexivity|].
    exact (proj1 (@validateRoute_accepts_iff_every_stop_on_time gridGeodesy steadyService
                    morningRound 0%nat result w' Hroute
                    steadyService_travelTimesValid morningRound_durationsValid
                    morningRound_startTimesValid morningRound_flexibleUntimed)).
Defined.

Lemma steadyService_stateless : @serviceStateless steadyService.
Proof. intros from tos w w'. reflexivity. Qed.

Lemma insertFlexibleAppointment_cheapest_position_witness :
  exists updated w' position,
    @insertFlexibleAppointment gridGeodesy steadyService survey [delivery; clinic] 0%nat
    = (inr updated, w')
    /\ (position <= 2)%nat
    /\ updated = spliceIn position survey [delivery; clinic].
Proof.
  destruct (@insertFlexibleAppointment gridGeodesy steadyService survey
              [delivery; clinic] 0%nat) as [[e | updated] w'] eqn:Hinsert.
  - vm_compute in Hinsert. discriminate.
  - destruct (@insertFlexibleAppointment_cheapest_position gridGeodesy steadyService
                survey [delivery; clinic] 0%nat updated w'
                steadyService_stateless ltac:(discriminate) Hinsert)
      as (position & cost & Hposition & Hupdated & _).
    exists updated, w', position. repeat split; assumption.
Defined.

Lemma findBestReorderingForConflict_never_resolves_witness :
  findBestReorderingForConflict [delivery; pickup] [delivery; pickup; errand]
  = Returns None.
Proof.
  apply findBestReorderingForConflict_never_resolves.
  - unfold ids. simpl. repeat constructor; simpl; intuition discriminate.
  - left. reflexivity.
  - right. left. reflexivity.
  - intros Hsame. vm_compute in Hsame. discriminate.
  - reflexivity.
  - reflexivity.
  - reflexivity.
  - vm_compute. discriminate.
Defined.

Lemma isScheduleFeasible_without_conflicts_witness :
  @isScheduleFeasible gridGeodesy [delivery; clinic; errand] DEFAULT_BUFFER_CONFIG = true.
Proof.
  apply (@isScheduleFeasible_without_conflicts gridGeodesy).
  - intros apt [<- | [<- | [<- | []]]]; reflexivity.
  - vm_compute. reflexivity.
Defined.

Lemma generateReorderings_orderings_witness :
  map (filter (fun apt => negb (isInflexible apt)))
      (generateReorderings [errand; clinic; survey])
  = [[errand; survey]; [survey; errand]].
Proof.
  rewrite (proj2 (proj2 (@generateReorderings_orderings GeocodedAppointment Geocoded_like
                           [errand; clinic; survey])));
    [reflexivity | discriminate].
Defined.

Lemma validateScheduleFeasibility_within_checkScheduleFeasibility_witness :
  @anchorsWithin gridGeodesy 200 [delivery; pickup; errand]
  /\ List.length (validateScheduleFeasibility [delivery; pickup; errand]) = 1%nat
  /\ List.length (@checkScheduleFeasibility gridGeodesy [delivery; pickup; errand]) = 1%nat.
Proof.
  assert (Hnear : @anchorsWithin gridGeodesy 200 [delivery; pickup; errand]).
  { intros a b [<- | [<- | [<- | []]]] [<- | [<- | [<- | []]]] _ _ _;
      vm_compute; discriminate. }
  split; [exact Hnear|]. split; [reflexivity|].
  rewrite <- (proj2 (proj2 (proj2
                (@validateScheduleFeasibility_within_checkScheduleFeasibility
                   gridGeodesy [delivery; pickup; errand]))) Hnear).
  reflexivity.
Defined.
